(** * Entity-graph synchronisation of [tm_importer.py]

    A shallow embedding of the importer
    (src/modules/snowflake/sync-connector-lambda/tm_importer.py) and the
    properties of its recursive parent resolution, its caches and the
    order of the remote calls it issues. *)

From stdpp Require Import gmap strings list fin_maps.

Local Open Scope string_scope.

(** ** Data model *)

(** One element of the ["entities"] list of the exported JSON document.
    A key that is absent from the Python dict ([entity.get] gives [None])
    is [None] here. *)
Record EntityRecord := {
  entity_id : string;
  parent_entity_id : option string;
  entity_name : option string;
  parent_name : option string;
  component_type : option string;
  description : option string;
  properties : list (string * string);
  template_parameters : list string
}.

(** The dict [{"attributes": {"componentTypeId": .., "properties": ..}}]
    built by [populate_assets]. *)
Record Components := {
  componentTypeId : option string;
  comp_properties : list (string * string)
}.

(** The keyword arguments of a [create_entity] call.  The dict returned by
    [create_root] has no ["parentEntityId"] key: [parentEntityId = None]. *)
Record Ntt := {
  entityName : option string;
  entityId : string;
  parentEntityId : option string;
  ntt_description : option string;
  workspaceId : string
}.

(** The parsed JSON document: [j_data.get("entities")]. *)
Record JData := { entities : list EntityRecord }.

(** Exceptions raised by the remote calls. *)
Inductive exn :=
| ResourceNotFound
| Conflict
| TransportOrAuthFailure.

(** Remote calls, in the order they are issued.  [EvListComponentTypes]
    also carries the component type on whose behalf
    [create_properties_component] lists; [EvCacheEntity] and
    [EvCacheComponentType] mark the two assignments
    [created_entities[..] = 1] and [created_component_types[..] = 1]. *)
Inductive event :=
| EvListWorkspaces
| EvCreateBucket (bucket : string)
| EvWaitBucket (bucket : string)
| EvGetRole
| EvCreateWorkspace (ws bucket_arn role : string)
| EvListComponentTypes (ws comp_id : string)
| EvCreateComponentType (ws comp_id : string)
| EvWaitComponentType (ws comp_id : string)
| EvGetEntity (ws id : string)
| EvCreateEntity (ntt : Ntt) (comps : option Components)
| EvWaitEntity (ws id : string)
| EvCacheEntity (id : string)
| EvCacheComponentType (comp_id : string).

(** The two module-level caches of the importer, and the state of the
    services it talks to.  [pending_faults] decides the remote calls to
    come: the n-th call from now raises the n-th element when that is
    [Some e]; past the end of the list no call is disturbed.  [trace] has
    the newest event first. *)
Record World := {
  created_component_types : gmap string Z;
  created_entities : gmap string Z;
  remote_workspaces : gset string;
  remote_buckets : gset string;
  remote_component_types : gset (string * string);
  remote_entities : gmap (string * string) (Ntt * option Components);
  caller_role : string;
  pending_faults : list (option exn);
  trace : list event
}.

Definition set_created_component_types (f : gmap string Z → gmap string Z)
    (w : World) : World :=
  {| created_component_types := f (created_component_types w);
     created_entities := created_entities w;
     remote_workspaces := remote_workspaces w;
     remote_buckets := remote_buckets w;
     remote_component_types := remote_component_types w;
     remote_entities := remote_entities w;
     caller_role := caller_role w;
     pending_faults := pending_faults w;
     trace := trace w |}.

Definition set_created_entities (f : gmap string Z → gmap string Z)
    (w : World) : World :=
  {| created_component_types := created_component_types w;
     created_entities := f (created_entities w);
     remote_workspaces := remote_workspaces w;
     remote_buckets := remote_buckets w;
     remote_component_types := remote_component_types w;
     remote_entities := remote_entities w;
     caller_role := caller_role w;
     pending_faults := pending_faults w;
     trace := trace w |}.

Definition set_remote_workspaces (f : gset string → gset string)
    (w : World) : World :=
  {| created_component_types := created_component_types w;
     created_entities := created_entities w;
     remote_workspaces := f (remote_workspaces w);
     remote_buckets := remote_buckets w;
     remote_component_types := remote_component_types w;
     remote_entities := remote_entities w;
     caller_role := caller_role w;
     pending_faults := pending_faults w;
     trace := trace w |}.

Definition set_remote_buckets (f : gset string → gset string)
    (w : World) : World :=
  {| created_component_types := created_component_types w;
     created_entities := created_entities w;
     remote_workspaces := remote_workspaces w;
     remote_buckets := f (remote_buckets w);
     remote_component_types := remote_component_types w;
     remote_entities := remote_entities w;
     caller_role := caller_role w;
     pending_faults := pending_faults w;
     trace := trace w |}.

Definition set_remote_component_types
    (f : gset (string * string) → gset (string * string))
    (w : World) : World :=
  {| created_component_types := created_component_types w;
     created_entities := created_entities w;
     remote_workspaces := remote_workspaces w;
     remote_buckets := remote_buckets w;
     remote_component_types := f (remote_component_types w);
     remote_entities := remote_entities w;
     caller_role := caller_role w;
     pending_faults := pending_faults w;
     trace := trace w |}.

Definition set_remote_entities
    (f : gmap (string * string) (Ntt * option Components) →
         gmap (string * string) (Ntt * option Components))
    (w : World) : World :=
  {| created_component_types := created_component_types w;
     created_entities := created_entities w;
     remote_workspaces := remote_workspaces w;
     remote_buckets := remote_buckets w;
     remote_component_types := remote_component_types w;
     remote_entities := f (remote_entities w);
     caller_role := caller_role w;
     pending_faults := pending_faults w;
     trace := trace w |}.

Definition set_pending_faults (fs : list (option exn)) (w : World) : World :=
  {| created_component_types := created_component_types w;
     created_entities := created_entities w;
     remote_workspaces := remote_workspaces w;
     remote_buckets := remote_buckets w;
     remote_component_types := remote_component_types w;
     remote_entities := remote_entities w;
     caller_role := caller_role w;
     pending_faults := fs;
     trace := trace w |}.

Definition emit (ev : event) (w : World) : World :=
  {| created_component_types := created_component_types w;
     created_entities := created_entities w;
     remote_workspaces := remote_workspaces w;
     remote_buckets := remote_buckets w;
     remote_component_types := remote_component_types w;
     remote_entities := remote_entities w;
     caller_role := caller_role w;
     pending_faults := pending_faults w;
     trace := ev :: trace w |}.

(** ** The monad of the importer: state, exceptions, fuel *)

(** A computation returns, raises, or runs out of fuel.  The fuel of a run
    is the number of nested calls that the interpreter leaves to the
    recursive resolution: its recursion limit, which the program never
    raises, less the frames of the callers.  To run out of it is the
    [RecursionError] of the interpreter, on a cycle of parents as on a
    chain that is too long; the run stops there. *)
Inductive outcome (A : Type) :=
| Ret (a : A)
| Raise (e : exn)
| OutOfFuel.
Arguments Ret {A} a.
Arguments Raise {A} e.
Arguments OutOfFuel {A}.

Definition M (A : Type) : Type := World → outcome A * World.

Definition ret {A} (a : A) : M A := fun w => (Ret a, w).

Definition bind {A B} (m : M A) (k : A → M B) : M B := fun w =>
  match m w with
  | (Ret a, w') => k a w'
  | (Raise e, w') => (Raise e, w')
  | (OutOfFuel, w') => (OutOfFuel, w')
  end.

Definition raise {A} (e : exn) : M A := fun w => (Raise e, w).

Definition out_of_fuel {A} : M A := fun w => (OutOfFuel, w).

(** [try: m  except: h] with a bare [except]. *)
Definition try_except {A} (m : M A) (h : M A) : M A := fun w =>
  match m w with
  | (Raise _, w') => h w'
  | r => r
  end.

Definition modify (f : World → World) : M unit := fun w => (Ret tt, f w).

Definition gets {A} (f : World → A) : M A := fun w => (Ret (f w), w).

Notation "x <- m ;; k" := (bind m (fun x => k))
  (at level 100, m at next level, k at level 200,
   right associativity, only parsing).

(** Python truthiness of a value that is a string or [None]. *)
Definition truthy (o : option string) : bool :=
  match o with
  | Some s => negb (String.eqb s "")
  | None => false
  end.

(** ** The services *)

(** Modelled from the spec: the remote graph service, the blob store and
    the identity collaborator (the boto3 clients of section 6), which are
    not part of the repository.  A call is recorded in the trace when it is
    issued; it then raises the fault pending for it, if any. *)
Definition api_call (ev : event) : M unit := fun w =>
  let w' := emit ev w in
  match pending_faults w with
  | Some e :: fs => (Raise e, set_pending_faults fs w')
  | None :: fs => (Ret tt, set_pending_faults fs w')
  | [] => (Ret tt, w')
  end.

(** Modelled from the spec: [listWorkspaces], the ids of the workspaces
    that exist. *)
Definition list_workspaces : M (list string) :=
  _ <- api_call EvListWorkspaces ;;
  gets (fun w => elements (remote_workspaces w)).

(** Modelled from the spec: [createBucket] of the blob store. *)
Definition s3_create_bucket (bucket : string) : M unit :=
  _ <- api_call (EvCreateBucket bucket) ;;
  modify (set_remote_buckets (fun s => {[bucket]} ∪ s)).

(** Modelled from the spec: [waitUntilBucketExists], one event. *)
Definition s3_wait_bucket_exists (bucket : string) : M unit :=
  api_call (EvWaitBucket bucket).

(** Modelled from the spec: [get_role_from_identity] of the [library]
    module, the role of the caller's own identity. *)
Definition get_role_from_identity : M string :=
  _ <- api_call EvGetRole ;;
  gets caller_role.

(** Modelled from the spec: [createWorkspace]; a workspace that exists is
    not created again. *)
Definition client_create_workspace (ws s3Location role : string) : M unit :=
  _ <- api_call (EvCreateWorkspace ws s3Location role) ;;
  known <- gets (fun w => bool_decide (ws ∈ remote_workspaces w)) ;;
  if known then raise Conflict
  else modify (set_remote_workspaces (fun s => {[ws]} ∪ s)).

(** Modelled from the spec: [listComponentTypes], the ids of the
    component types of the workspace. *)
Definition component_type_summaries (ws : string) (w : World) : list string :=
  (filter (fun p => p.1 = ws) (elements (remote_component_types w))).*2.

(** Modelled from the spec: the call of [listComponentTypes]; [comp_id]
    only tags the event. *)
Definition list_component_types (ws comp_id : string) : M (list string) :=
  _ <- api_call (EvListComponentTypes ws comp_id) ;;
  gets (component_type_summaries ws).

(** Modelled from the spec: [createComponentType]; a component type that
    exists is not created again. *)
Definition client_create_component_type (ws comp_id : string) : M unit :=
  _ <- api_call (EvCreateComponentType ws comp_id) ;;
  known <- gets (fun w => bool_decide ((ws, comp_id) ∈ remote_component_types w)) ;;
  if known then raise Conflict
  else modify (set_remote_component_types (fun s => {[(ws, comp_id)]} ∪ s)).

(** Modelled from the spec: [getEntity], the entity or [NotFound]. *)
Definition get_entity (ws id : string) : M (Ntt * option Components) :=
  _ <- api_call (EvGetEntity ws id) ;;
  r <- gets (fun w => remote_entities w !! (ws, id)) ;;
  match r with
  | Some e => ret e
  | None => raise ResourceNotFound
  end.

(** Modelled from the spec: [createEntity]; an entity is created once and
    never updated, a second creation of its id is refused. *)
Definition client_create_entity (ntt : Ntt) (comps : option Components) : M unit :=
  _ <- api_call (EvCreateEntity ntt comps) ;;
  r <- gets (fun w => remote_entities w !! (workspaceId ntt, entityId ntt)) ;;
  match r with
  | Some _ => raise Conflict
  | None =>
      modify (set_remote_entities
                (fun m => <[(workspaceId ntt, entityId ntt) := (ntt, comps)]> m))
  end.

(** Modelled from the spec: [wait_over] of the [library] module, the
    activation waiter of section 4.1, which polls the given read operation
    until the resource is active and then returns.  The poll sequence is one
    event; it raises what the read raises for a resource that is not
    there.  The poll has no bound of its own: a resource that never becomes
    active would keep it polling for ever, which this one event does not
    show, so what is proved below of a run that returns is proved of runs
    in which every wait completes. *)
Definition wait_over_component_type (ws comp_id : string) : M unit :=
  _ <- api_call (EvWaitComponentType ws comp_id) ;;
  known <- gets (fun w => bool_decide ((ws, comp_id) ∈ remote_component_types w)) ;;
  if known then ret tt else raise ResourceNotFound.

(** Modelled from the spec: [wait_over] on [get_entity], as for component
    types. *)
Definition wait_over_entity (ws id : string) : M unit :=
  _ <- api_call (EvWaitEntity ws id) ;;
  r <- gets (fun w => remote_entities w !! (ws, id)) ;;
  match r with
  | Some _ => ret tt
  | None => raise ResourceNotFound
  end.

(** ** The importer *)

(** The functions of [tm_importer.py], in the order of the source.  The
    calls of [log] and [api_report], which only write to the log, are left
    out. *)

Definition create_properties_component (workspace_id : string)
    (comp_id : option string) : M unit :=
  cached <- gets (fun w =>
    match comp_id with
    | Some c => bool_decide (is_Some (created_component_types w !! c))
    | None => false
    end) ;;
  if cached then ret tt
  else if negb (truthy comp_id) then ret tt
  else
    match comp_id with
    | None => ret tt
    | Some c =>
        cs <- list_component_types workspace_id c ;;
        if bool_decide (c ∈ cs) then
          _ <- modify (emit (EvCacheComponentType c)) ;;
          modify (set_created_component_types (fun m => <[c := 1%Z]> m))
        else
          _ <- client_create_component_type workspace_id c ;;
          _ <- wait_over_component_type workspace_id c ;;
          _ <- modify (emit (EvCacheComponentType c)) ;;
          modify (set_created_component_types (fun m => <[c := 1%Z]> m))
    end.

Definition create_workspace (workspace_id : string)
    (iottwinmaker_role_arn : option string) : M unit :=
  ws <- list_workspaces ;;
  if bool_decide (workspace_id ∈ ws) then ret tt
  else
    let bucket_name := "iottwinmaker-" ++ workspace_id in
    _ <- s3_create_bucket bucket_name ;;
    _ <- s3_wait_bucket_exists bucket_name ;;
    iot_role <- (match iottwinmaker_role_arn with
                | Some r => if truthy (Some r) then ret r
                            else get_role_from_identity
                | None => get_role_from_identity
                end) ;;
    client_create_workspace workspace_id ("arn:aws:s3:::" ++ bucket_name) iot_role.

Definition populate_assets (entity : EntityRecord) (comp_id : option string)
    (workspace_id : string) : M (option Components) :=
  _ <- create_properties_component workspace_id comp_id ;;
  ret (Some {| componentTypeId := comp_id;
               comp_properties := properties entity |}).

Definition entity_exists (workspace_id entity_id : string) : M bool :=
  cached <- gets (fun w => bool_decide (is_Some (created_entities w !! entity_id))) ;;
  if cached then ret true
  else
    found <- try_except
              (_ <- get_entity workspace_id entity_id ;; ret true)
              (ret false) ;;
    if found then
      _ <- modify (emit (EvCacheEntity entity_id)) ;;
      _ <- modify (set_created_entities (fun m => <[entity_id := 1%Z]> m)) ;;
      ret true
    else ret false.

Fixpoint get_parent_from_input (input_entities : list EntityRecord)
    (parent_id : string) : option EntityRecord :=
  match input_entities with
  | [] => None
  | entity :: rest =>
      if String.eqb parent_id (entity_id entity) then Some entity
      else get_parent_from_input rest parent_id
  end.

Definition create_root (root_id : string) (root_name : option string)
    (workspace_id : string) : Ntt :=
  let root_name :=
    match root_name with
    | Some n => if String.eqb n "$ROOT" then Some "ROOT" else Some n
    | None => None
    end in
  {| entityId := root_id;
     entityName := root_name;
     parentEntityId := None;
     ntt_description := root_name;
     workspaceId := workspace_id |}.

Definition create_entity_api (comps : option Components) (ntt : Ntt)
    (workspace_id : string) (check_active : bool) : M unit :=
  _ <- (match comps with
        | Some c => client_create_entity ntt (Some c)
        | None => client_create_entity ntt None
        end) ;;
  if check_active then wait_over_entity workspace_id (entityId ntt)
  else ret tt.

(** Each nested call takes one unit of [fuel]. *)
Fixpoint create_iottwinmaker_entity (fuel : nat)
    (input_entities : list EntityRecord) (entity : EntityRecord)
    (workspace_id : string) (comps : option Components)
    (check_active : bool) : M unit :=
  match fuel with
  | O => out_of_fuel
  | S fuel' =>
      let entity_id := entity_id entity in
      let parent_id := parent_entity_id entity in
      let entity_name := entity_name entity in
      let parent_name := parent_name entity in
      let comp_id := component_type entity in
      let description :=
        if truthy (description entity) then description entity
        else entity_name in
      exists_ <- entity_exists workspace_id entity_id ;;
      if exists_ then ret tt
      else
        comps <- (if truthy comp_id
                 then populate_assets entity comp_id workspace_id
                 else ret comps) ;;
        parent_id <-
          (match parent_id with
           | Some pid =>
               parent_exists <- entity_exists workspace_id pid ;;
               _ <- (if parent_exists then ret tt
                else
                  match get_parent_from_input input_entities pid with
                  | Some parent =>
                      create_iottwinmaker_entity fuel' input_entities parent
                        workspace_id comps true
                  | None =>
                      let root := create_root pid parent_name workspace_id in
                      create_entity_api comps root workspace_id true
                  end) ;;
               ret pid
           | None => ret "$ROOT"
           end) ;;
        let ntt := {| entityName := entity_name;
                      entityId := entity_id;
                      parentEntityId := Some parent_id;
                      ntt_description := description;
                      workspaceId := workspace_id |} in
        create_entity_api comps ntt workspace_id check_active
  end.

Fixpoint process_records_loop (fuel : nat) (all rest : list EntityRecord)
    (workspace_id : string) (comp_id : option string) : M unit :=
  match rest with
  | [] => ret tt
  | entity :: rest' =>
      comps <- populate_assets entity comp_id workspace_id ;;
      _ <- create_iottwinmaker_entity fuel all entity workspace_id comps false ;;
      process_records_loop fuel all rest' workspace_id comp_id
  end.

Definition process_records (fuel : nat) (j_data : JData)
    (workspace_id : string) (comp_id : option string) : M unit :=
  let entities := entities j_data in
  process_records_loop fuel entities entities workspace_id comp_id.

Definition create_iottwinmaker_entities (fuel : nat) (j_data : JData)
    (workspace_id : string) (comp_id : option string)
    (iottwinmaker_role_arn : option string) : M unit :=
  _ <- create_workspace workspace_id iottwinmaker_role_arn ;;
  _ <- create_properties_component workspace_id comp_id ;;
  process_records fuel j_data workspace_id comp_id.

(** ** Specification vocabulary *)

(** [wp m Q w]: running [m] from [w] ends in an outcome and a world that
    satisfy [Q]. *)
Definition wp {A} (m : M A) (Q : outcome A → World → Prop) (w : World) : Prop :=
  Q (m w).1 (m w).2.

(** What [bind] asks of its first computation. *)
Definition bind_post {A B} (k : A → M B) (Q : outcome B → World → Prop)
    (o : outcome A) (w : World) : Prop :=
  match o with
  | Ret a => wp (k a) Q w
  | Raise e => Q (Raise e) w
  | OutOfFuel => Q OutOfFuel w
  end.

(** The world after a creation call that the service accepts. *)
Definition created (ntt : Ntt) (comps : option Components) (w : World) : World :=
  set_remote_entities
    (fun m => <[(workspaceId ntt, entityId ntt) := (ntt, comps)]> m)
    (emit (EvCreateEntity ntt comps) w).

(** The events that concern entities, among them the calls that create
    one. *)
Definition is_entity_event (ev : event) : bool :=
  match ev with
  | EvGetEntity _ _ | EvCreateEntity _ _ | EvWaitEntity _ _
  | EvCacheEntity _ => true
  | _ => false
  end.

Definition entity_events (tr : list event) : list event :=
  List.filter is_entity_event tr.

Definition is_creation (ev : event) : bool :=
  match ev with
  | EvCreateEntity _ _ | EvCreateComponentType _ _
  | EvCreateWorkspace _ _ _ | EvCreateBucket _ => true
  | _ => false
  end.

(** The records of the chain scenario: only the two keys are present. *)
Definition chain_record (id : string) (parent : option string) : EntityRecord :=
  {| entity_id := id; parent_entity_id := parent; entity_name := None;
     parent_name := None; component_type := None; description := None;
     properties := []; template_parameters := [] |}.

Definition chain_input : list EntityRecord :=
  [chain_record "c" (Some "b"); chain_record "b" (Some "a");
   chain_record "a" None].

Definition chain_ntt (ws id parent : string) : Ntt :=
  {| entityName := None; entityId := id; parentEntityId := Some parent;
     ntt_description := None; workspaceId := ws |}.

(** A world in which nothing exists and no call fails. *)
Definition empty_world : World :=
  {| created_component_types := ∅; created_entities := ∅;
     remote_workspaces := ∅; remote_buckets := ∅;
     remote_component_types := ∅; remote_entities := ∅;
     caller_role := "arn:aws:iam::role/importer";
     pending_faults := []; trace := [] |}.

(** A world in which the entity "a" exists in workspace "ws" and the next
    remote call fails in transport. *)
Definition outage_world : World :=
  {| created_component_types := ∅; created_entities := ∅;
     remote_workspaces := {["ws"]}; remote_buckets := ∅;
     remote_component_types := ∅;
     remote_entities := {[ ("ws", "a") := (chain_ntt "ws" "a" "$ROOT", None) ]};
     caller_role := "arn:aws:iam::role/importer";
     pending_faults := [Some TransportOrAuthFailure]; trace := [] |}.

(** What [create_properties_component] leaves untouched. *)
Definition same_entities (w w' : World) : Prop :=
  pending_faults w' = pending_faults w ∧
  created_entities w' = created_entities w ∧
  remote_entities w' = remote_entities w ∧
  entity_events (trace w') = entity_events (trace w).

(** ** The invariant of a run *)

(** [w] is a later state of [w1]: caches and services have only gained
    entries, and the trace has only grown. *)
Record extends (w1 w : World) : Prop := {
  ext_created_entities : created_entities w1 ⊆ created_entities w;
  ext_created_component_types :
    created_component_types w1 ⊆ created_component_types w;
  ext_remote_entities : remote_entities w1 ⊆ remote_entities w;
  ext_remote_component_types :
    remote_component_types w1 ⊆ remote_component_types w;
  ext_remote_workspaces : remote_workspaces w1 ⊆ remote_workspaces w;
  ext_trace : ∃ evs, trace w = (evs ++ trace w1)%list
}.

(** A creation call for [id] in workspace [ws] is in the trace. *)
Definition created_in (ws id : string) (tr : list event) : Prop :=
  ∃ ntt c, In (EvCreateEntity ntt c) tr ∧
           workspaceId ntt = ws ∧ entityId ntt = id.

(** The parent named in a creation call existed before the run or was
    created earlier in it; ["$ROOT"] is the root of the workspace. *)
Definition parent_ready (w0 : World) (older : list event) (ntt : Ntt) : Prop :=
  match parentEntityId ntt with
  | None => True
  | Some p =>
      p = "$ROOT" ∨
      is_Some (remote_entities w0 !! (workspaceId ntt, p)) ∨
      created_in (workspaceId ntt) p older
  end.

(** The entity was not in the cache when the events [older] had
    happened. *)
Definition uncached (w0 : World) (older : list event) (id : string) : Prop :=
  created_entities w0 !! id = None ∧ ¬ In (EvCacheEntity id) older.

Definition uncached_component_type (w0 : World) (older : list event)
    (c : string) : Prop :=
  created_component_types w0 !! c = None ∧ ¬ In (EvCacheComponentType c) older.

(** What holds of an event given the events before it. *)
Definition event_ok (ws : string) (w0 : World) (older : list event)
    (ev : event) : Prop :=
  match ev with
  | EvCreateEntity ntt _ =>
      workspaceId ntt = ws ∧
      parent_ready w0 older ntt ∧
      (is_Some (remote_entities w0 !! (ws, entityId ntt)) ∨
       created_in ws (entityId ntt) older ∨
       uncached w0 older (entityId ntt))
  | EvGetEntity _ id => uncached w0 older id
  | EvCacheEntity id => ∃ rest, older = EvGetEntity ws id :: rest
  | EvListComponentTypes _ c => uncached_component_type w0 older c
  | _ => True
  end.

Fixpoint trace_ok (ws : string) (w0 : World) (tr : list event) : Prop :=
  match tr with
  | [] => True
  | ev :: older => event_ok ws w0 older ev ∧ trace_ok ws w0 older
  end.

Record Inv (ws : string) (w0 w : World) : Prop := {
  inv_extends : extends w0 w;
  inv_cache_remote : ∀ id,
    is_Some (created_entities w !! id) →
    is_Some (remote_entities w !! (ws, id));
  inv_cache_ct_remote : ∀ c,
    is_Some (created_component_types w !! c) →
    (ws, c) ∈ remote_component_types w;
  inv_remote_created : ∀ id,
    is_Some (remote_entities w !! (ws, id)) →
    is_Some (remote_entities w0 !! (ws, id)) ∨ created_in ws id (trace w);
  inv_cached_events : ∀ id,
    In (EvCacheEntity id) (trace w) → is_Some (created_entities w !! id);
  inv_cached_ct_events : ∀ c,
    In (EvCacheComponentType c) (trace w) →
    is_Some (created_component_types w !! c);
  inv_trace : trace_ok ws w0 (trace w)
}.

Definition neutral (ev : event) : Prop :=
  match ev with
  | EvCreateEntity _ _ | EvGetEntity _ _ | EvCacheEntity _
  | EvListComponentTypes _ _ | EvCacheComponentType _ => False
  | _ => True
  end.

Definition Run (ws : string) (w0 w1 w : World) : Prop :=
  Inv ws w0 w ∧ extends w1 w.

(** A run starts with an empty log and with caches that name only what
    exists in the workspace; a new process starts with empty caches. *)
Definition well_started (ws : string) (w0 : World) : Prop :=
  trace w0 = [] ∧
  (∀ id, is_Some (created_entities w0 !! id) →
         is_Some (remote_entities w0 !! (ws, id))) ∧
  (∀ c, is_Some (created_component_types w0 !! c) →
        (ws, c) ∈ remote_component_types w0).

(** The keyword arguments of the creation call for a record, the payload
    [populate_assets] builds for it, and the payload its creation call
    carries: its own when it declares a component type, else the one
    handed to it. *)
Definition entity_ntt (entity : EntityRecord) (ws parent_id : string) : Ntt :=
  {| entityName := entity_name entity;
     entityId := entity_id entity;
     parentEntityId := Some parent_id;
     ntt_description :=
       if truthy (description entity) then description entity
       else entity_name entity;
     workspaceId := ws |}.

Definition payload (entity : EntityRecord) : Components :=
  {| componentTypeId := component_type entity;
     comp_properties := properties entity |}.

Definition own_comps (entity : EntityRecord) (comps : option Components) :
    option Components :=
  if truthy (component_type entity) then Some (payload entity) else comps.

Definition waited (check_active : bool) (ws id : string) : list event :=
  if check_active then [EvWaitEntity ws id] else [].

(** A record that declares a component type and names a parent, by the
    sentinel name, that no record of the input defines. *)
Definition orphan_child : EntityRecord :=
  {| entity_id := "x"; parent_entity_id := Some "orphan";
     entity_name := Some "X"; parent_name := Some "$ROOT";
     component_type := Some "ct"; description := None;
     properties := [("k", "v")]; template_parameters := [] |}.

Definition orphan_root : Ntt :=
  {| entityName := Some "ROOT"; entityId := "orphan"; parentEntityId := None;
     ntt_description := Some "ROOT"; workspaceId := "ws" |}.

(** The log of the run over [[orphan_child]] in [empty_world], newest
    event first, without its last event, the creation call for "x". *)
Definition orphan_run_before_x : list event :=
  [EvWaitEntity "ws" "orphan";
   EvCreateEntity orphan_root (Some (payload orphan_child));
   EvGetEntity "ws" "orphan"; EvCacheComponentType "ct";
   EvWaitComponentType "ws" "ct"; EvCreateComponentType "ws" "ct";
   EvListComponentTypes "ws" "ct"; EvGetEntity "ws" "x";
   EvCreateWorkspace "ws" "arn:aws:s3:::iottwinmaker-ws"
     "arn:aws:iam::role/importer";
   EvGetRole; EvWaitBucket "iottwinmaker-ws";
   EvCreateBucket "iottwinmaker-ws"; EvListWorkspaces].

(** The run over [[orphan_child]] in [empty_world]. *)
Definition orphan_run : outcome unit * World :=
  create_iottwinmaker_entities 1 {| entities := [orphan_child] |}
    "ws" None None empty_world.

(** ** Parent chains *)

(** The parent id that the record found for [e] names. *)
Definition parent_of (input : list EntityRecord) (e : string) : option string :=
  match get_parent_from_input input e with
  | Some r => parent_entity_id r
  | None => None
  end.

(** The [n]-th id up the parent chain of [e]. *)
Fixpoint ancestor (input : list EntityRecord) (n : nat) (e : string) :
    option string :=
  match n with
  | O => Some e
  | S n' =>
      match parent_of input e with
      | Some p => ancestor input n' p
      | None => None
      end
  end.

(** Some id is its own ancestor. *)
Definition has_cycle (input : list EntityRecord) : Prop :=
  ∃ e n, ancestor input (S n) e = Some e.

(** The parent chain that starts at [p] leaves the input set, or reaches a
    record without parent, after at most [n] records. *)
Fixpoint chain_ends (input : list EntityRecord) (n : nat) (p : option string) :
    bool :=
  match p with
  | None => true
  | Some pid =>
      match get_parent_from_input input pid with
      | None => true
      | Some r =>
          match n with
          | O => false
          | S n' => chain_ends input n' (parent_entity_id r)
          end
      end
  end.

Definition acyclic (input : list EntityRecord) : bool :=
  forallb (fun r => chain_ends input (length input) (Some (entity_id r))) input.

(** From [w] to [w'] no call has failed, nothing was created, and the
    services are as they were. *)
Record quiet (w w' : World) : Prop := {
  quiet_faults : pending_faults w' = pending_faults w;
  quiet_workspaces : remote_workspaces w' = remote_workspaces w;
  quiet_buckets : remote_buckets w' = remote_buckets w;
  quiet_component_types : remote_component_types w' = remote_component_types w;
  quiet_entities : remote_entities w' = remote_entities w;
  quiet_trace : ∃ evs, trace w' = (evs ++ trace w)%list ∧
                       Forall (fun ev => is_creation ev = false) evs
}.

(** A new process of the importer against the services as [w] left them:
    both caches are empty again, the log is empty, no fault is pending. *)
Definition new_process (w : World) : World :=
  {| created_component_types := ∅; created_entities := ∅;
     remote_workspaces := remote_workspaces w;
     remote_buckets := remote_buckets w;
     remote_component_types := remote_component_types w;
     remote_entities := remote_entities w;
     caller_role := caller_role w;
     pending_faults := []; trace := [] |}.

(** ** Runs in which no call fails *)

(** Where the creation call [ntt] comes from: a call without parent is for
    a synthetic root, whose id no record of the input has and some record
    names as its parent; a call with a parent is for the record that the
    input defines for its id, and the parent that record names existed
    before the run or was created earlier. *)
Definition creation_origin (ws : string) (input : list EntityRecord)
    (w0 : World) (older : list event) (ntt : Ntt) : Prop :=
  workspaceId ntt = ws ∧
  match parentEntityId ntt with
  | None =>
      get_parent_from_input input (entityId ntt) = None ∧
      ∃ r, In r input ∧ parent_entity_id r = Some (entityId ntt) ∧
           ntt = create_root (entityId ntt) (parent_name r) ws
  | Some pp =>
      ∃ r, get_parent_from_input input (entityId ntt) = Some r ∧
           ntt = entity_ntt r ws pp ∧
           match parent_entity_id r with
           | Some p =>
               pp = p ∧
               (is_Some (remote_entities w0 !! (ws, p)) ∨ created_in ws p older)
           | None => pp = "$ROOT"
           end
  end.

(** The creation call is the first for its id, which did not exist before
    the run. *)
Definition creation_fresh (ws : string) (w0 : World) (older : list event)
    (ntt : Ntt) : Prop :=
  remote_entities w0 !! (ws, entityId ntt) = None ∧
  ¬ created_in ws (entityId ntt) older.

(** The event after the creation of a synthetic root is the wait for it. *)
Definition follows_ok (ws : string) (older : list event) (ev : event) : Prop :=
  match older with
  | EvCreateEntity ntt _ :: _ =>
      parentEntityId ntt = None → ev = EvWaitEntity ws (entityId ntt)
  | _ => True
  end.

Fixpoint creations_ok (ws : string) (input : list EntityRecord) (w0 : World)
    (tr : list event) : Prop :=
  match tr with
  | [] => True
  | ev :: older =>
      match ev with
      | EvCreateEntity ntt _ =>
          creation_origin ws input w0 older ntt ∧ creation_fresh ws w0 older ntt
      | _ => True
      end ∧
      follows_ok ws older ev ∧
      creations_ok ws input w0 older
  end.

(** The newest event is not the creation of a synthetic root. *)
Definition settled (tr : list event) : Prop :=
  match tr with
  | EvCreateEntity ntt _ :: _ => parentEntityId ntt ≠ None
  | _ => True
  end.

(** What holds along a run in which no call has failed. *)
Record Steady (ws : string) (input : list EntityRecord) (w0 w : World) : Prop := {
  steady_faults : pending_faults w = [];
  steady_created : ∀ id,
    created_in ws id (trace w) → is_Some (remote_entities w !! (ws, id));
  steady_trace : creations_ok ws input w0 (trace w);
  steady_settled : settled (trace w)
}.

Definition is_create_entity (ev : event) : bool :=
  match ev with EvCreateEntity _ _ => true | _ => false end.

(** [x] is [e] or one of its ancestors. *)
Definition on_chain (input : list EntityRecord) (e x : string) : Prop :=
  ∃ k, ancestor input k e = Some x.

(** A world in which the workspace "ws" and the entity "x" exist, created
    by an earlier import in which "x" had no parent, and nothing else. *)
Definition x_exists_world : World :=
  {| created_component_types := ∅; created_entities := ∅;
     remote_workspaces := {["ws"]}; remote_buckets := ∅;
     remote_component_types := ∅;
     remote_entities := {[ ("ws", "x") := (chain_ntt "ws" "x" "$ROOT", None) ]};
     caller_role := "arn:aws:iam::role/importer";
     pending_faults := []; trace := [] |}.

(** ** Provisioning, scope and failures *)

(** The role that [create_workspace] takes from its argument: an absent or
    empty argument gives none. *)
Definition explicit_role (role : option string) : option string :=
  match role with
  | Some r => if truthy (Some r) then Some r else None
  | None => None
  end.

(** Two records that name each other as parent. *)
Definition cyclic_input : list EntityRecord :=
  [chain_record "a" (Some "b"); chain_record "b" (Some "a")].

(** The calls of [get_entity] that [entity_exists] makes. *)
Definition is_get_entity (ev : event) : bool :=
  match ev with EvGetEntity _ _ => true | _ => false end.

(** The id is the [entity_id] of a record of the input or the
    [parent_entity_id] of one. *)
Definition named (input : list EntityRecord) (id : string) : Prop :=
  ∃ r, In r input ∧ (entity_id r = id ∨ parent_entity_id r = Some id).

(** A world in which nothing exists and the ninth remote call, the first
    existence check of a run with a default component type, fails in
    transport. *)
Definition flaky_world : World :=
  set_pending_faults (replicate 8 None ++ [Some TransportOrAuthFailure])%list
    empty_world.

(** The component type is named by the run: it is not empty, and it is the
    default of the run or the [component_type] of a record. *)
Definition declared (input : list EntityRecord) (comp_id : option string)
    (c : string) : Prop :=
  c ≠ "" ∧ (comp_id = Some c ∨ ∃ r, In r input ∧ component_type r = Some c).

(** The payload is the one [populate_assets] builds for a record of the
    input, under the default component type or under the record's own. *)
Definition payload_of (input : list EntityRecord) (comp_id : option string)
    (comps : option Components) : Prop :=
  ∃ r cid, In r input ∧
    comps = Some {| componentTypeId := cid; comp_properties := properties r |} ∧
    (cid = comp_id ∨ (cid = component_type r ∧ truthy cid = true)).

(** What a run over [input] in workspace [ws] may ask of the services. *)
Definition in_scope (ws : string) (input : list EntityRecord)
    (comp_id : option string) (ev : event) : Prop :=
  match ev with
  | EvListWorkspaces | EvGetRole => True
  | EvCreateBucket b | EvWaitBucket b => b = "iottwinmaker-" ++ ws
  | EvCreateWorkspace ws' loc _ =>
      ws' = ws ∧ loc = "arn:aws:s3:::" ++ "iottwinmaker-" ++ ws
  | EvListComponentTypes ws' c | EvCreateComponentType ws' c
  | EvWaitComponentType ws' c => ws' = ws ∧ declared input comp_id c
  | EvCacheComponentType c => declared input comp_id c
  | EvGetEntity ws' id | EvWaitEntity ws' id => ws' = ws ∧ named input id
  | EvCacheEntity id => named input id
  | EvCreateEntity ntt comps =>
      workspaceId ntt = ws ∧ named input (entityId ntt) ∧
      payload_of input comp_id comps
  end.

(** Every event since [w0] is in scope. *)
Definition Scoped (ws : string) (input : list EntityRecord)
    (comp_id : option string) (w0 w : World) : Prop :=
  ∃ evs, trace w = (evs ++ trace w0)%list ∧
         Forall (in_scope ws input comp_id) evs.

(** The events that are calls of a service; the others record an entry
    of a cache. *)
Definition is_call (ev : event) : bool :=
  match ev with
  | EvCacheEntity _ | EvCacheComponentType _ => false
  | _ => true
  end.

(** The calls of a log, oldest first. *)
Definition calls (tr : list event) : list event :=
  rev (List.filter is_call tr).

(** The calls, oldest first, that met a pending fault. *)
Fixpoint failed (cs : list event) (fs : list (option exn)) : list event :=
  match cs, fs with
  | ev :: cs', Some _ :: fs' => ev :: failed cs' fs'
  | _ :: cs', None :: fs' => failed cs' fs'
  | _, _ => []
  end.

(** Since [w0] every call has taken one pending fault, and the calls that
    failed were existence checks. *)
Definition Swallowed (w0 w : World) : Prop :=
  ∃ evs, trace w = (evs ++ trace w0)%list ∧
         pending_faults w = drop (length (calls evs)) (pending_faults w0) ∧
         Forall (fun ev => is_get_entity ev = true)
                (failed (calls evs) (pending_faults w0)).

(** The newest event is a call, and not an existence check. *)
Definition stopped_at_call (w : World) : Prop :=
  match trace w with
  | ev :: _ => is_call ev = true ∧ is_get_entity ev = false
  | [] => False
  end.

(** What holds after a step of the run, by its outcome. *)
Definition sw_post {A} (w0 : World) (o : outcome A) (w : World) : Prop :=
  match o with
  | Ret _ => Swallowed w0 w
  | Raise _ => stopped_at_call w
  | OutOfFuel => True
  end.

(** A creation call is built from a record of the input: a call that
    names a parent is the request of that record, a call that names none
    is for the synthetic root of the parent that the record names; the
    call carries the payload of that record when the record declares a
    component type. *)
Definition carries_own_payload (ws : string) (input : list EntityRecord)
    (ev : event) : Prop :=
  match ev with
  | EvCreateEntity ntt c =>
      ∃ r, In r input ∧
           match parentEntityId ntt with
           | Some pp => ntt = entity_ntt r ws pp
           | None => ∃ p, parent_entity_id r = Some p ∧
                          ntt = create_root p (parent_name r) ws
           end ∧
           (truthy (component_type r) = true → c = Some (payload r))
  | _ => True
  end.

(** Every event since [w0] is as [carries_own_payload] says. *)
Definition Owned (ws : string) (input : list EntityRecord) (w0 w : World) :
    Prop :=
  ∃ evs, trace w = (evs ++ trace w0)%list ∧
         Forall (carries_own_payload ws input) evs.

(** Modelled from the interpreter: the recursion limit of CPython, 1000
    frames unless the program raises it, which [tm_importer.py] never
    does.  The frames of the callers come off it, so no run has more fuel
    than this; running out of fuel is the [RecursionError] at which the
    run stops. *)
Definition python_recursion_limit : nat := 1000.

(** The ids of a chain: "e", "xe", "xxe", ... *)
Fixpoint deep_id (n : nat) : string :=
  match n with
  | O => "e"
  | S n' => "x" ++ deep_id n'
  end.

(** The records [i], ..., [i + k] of a chain, child first: each names the
    next as its parent, the last names none. *)
Fixpoint deep_chain_from (i k : nat) : list EntityRecord :=
  match k with
  | O => [chain_record (deep_id i) None]
  | S k' =>
      chain_record (deep_id i) (Some (deep_id (S i))) ::
      deep_chain_from (S i) k'
  end.

(** An input without cycle whose first record has [n] ancestors. *)
Definition deep_chain (n : nat) : list EntityRecord := deep_chain_from 0 n.

(** * Properties *)

(** ** Reasoning about the monad *)

Lemma wp_bind {A B} (m : M A) (k : A → M B) Q w :
  wp m (bind_post k Q) w → wp (bind m k) Q w.
Proof.
  unfold wp, bind, bind_post. destruct (m w) as [[a|e|] w']; simpl; auto.
Qed.

Lemma wp_mono {A} (m : M A) (Q Q' : outcome A → World → Prop) w :
  wp m Q w → (∀ o w', Q o w' → Q' o w') → wp m Q' w.
Proof. unfold wp. auto. Qed.

Lemma wp_ret {A} (a : A) Q w : Q (Ret a) w → wp (ret a) Q w.
Proof. auto. Qed.

Lemma wp_gets {A} (f : World → A) Q w : Q (Ret (f w)) w → wp (gets f) Q w.
Proof. auto. Qed.

Lemma wp_modify (f : World → World) Q w : Q (Ret tt) (f w) → wp (modify f) Q w.
Proof. auto. Qed.

Lemma wp_raise {A} (e : exn) (Q : outcome A → World → Prop) w :
  Q (Raise e) w → wp (raise e) Q w.
Proof. auto. Qed.

Lemma wp_try_except {A} (m h : M A) Q w :
  wp m (fun o w' => match o with Raise _ => wp h Q w' | _ => Q o w' end) w →
  wp (try_except m h) Q w.
Proof.
  unfold wp, try_except. destruct (m w) as [[a|e|] w']; simpl; auto.
Qed.

(** A remote call either raises the pending fault or returns; either way
    the event is in the trace. *)
Lemma wp_api_call ev (Q : outcome unit → World → Prop) w :
  (∀ fs, Q (Ret tt) (set_pending_faults fs (emit ev w))) →
  (∀ e fs, Q (Raise e) (set_pending_faults fs (emit ev w))) →
  Q (Ret tt) (emit ev w) →
  wp (api_call ev) Q w.
Proof.
  intros H1 H2 H3. unfold wp, api_call.
  destruct (pending_faults w) as [|[e|] fs]; simpl; auto.
Qed.

Lemma api_call_no_faults ev w :
  pending_faults w = [] → api_call ev w = (Ret tt, emit ev w).
Proof. intros H. unfold api_call. by rewrite H. Qed.

(** ** Running the importer step by step *)

Lemma bind_ret_eq {A B} (m : M A) (k : A → M B) w a w' :
  m w = (Ret a, w') → bind m k w = k a w'.
Proof. intros H. unfold bind. by rewrite H. Qed.

Lemma bind_raise_eq {A B} (m : M A) (k : A → M B) w e w' :
  m w = (Raise e, w') → bind m k w = (Raise e, w').
Proof. intros H. unfold bind. by rewrite H. Qed.

Ltac munfold :=
  unfold bind, gets, modify, ret, raise, out_of_fuel, try_except.

(** The existence check answers from the cache without a remote call. *)
Lemma entity_exists_cached ws id w :
  is_Some (created_entities w !! id) →
  entity_exists ws id w = (Ret true, w).
Proof.
  intros H. unfold entity_exists. munfold.
  by rewrite bool_decide_eq_true_2.
Qed.

Lemma entity_exists_absent ws id w :
  pending_faults w = [] →
  created_entities w !! id = None →
  remote_entities w !! (ws, id) = None →
  entity_exists ws id w = (Ret false, emit (EvGetEntity ws id) w).
Proof.
  intros Hf Hc Hr. unfold entity_exists, get_entity. munfold.
  rewrite bool_decide_eq_false_2 by (rewrite Hc; apply is_Some_None).
  rewrite api_call_no_faults by done. simpl. by rewrite Hr.
Qed.

Lemma entity_exists_found ws id w e :
  pending_faults w = [] →
  created_entities w !! id = None →
  remote_entities w !! (ws, id) = Some e →
  entity_exists ws id w =
    (Ret true,
     set_created_entities (fun m => <[id := 1%Z]> m)
       (emit (EvCacheEntity id) (emit (EvGetEntity ws id) w))).
Proof.
  intros Hf Hc Hr. unfold entity_exists, get_entity. munfold.
  rewrite bool_decide_eq_false_2 by (rewrite Hc; apply is_Some_None).
  rewrite api_call_no_faults by done. simpl. by rewrite Hr.
Qed.

Lemma client_create_entity_fresh ntt comps w :
  pending_faults w = [] →
  remote_entities w !! (workspaceId ntt, entityId ntt) = None →
  client_create_entity ntt comps w = (Ret tt, created ntt comps w).
Proof.
  intros Hf Hr. unfold client_create_entity. munfold.
  rewrite api_call_no_faults by done. simpl. by rewrite Hr.
Qed.

Lemma create_entity_api_fresh comps ntt check_active w :
  pending_faults w = [] →
  remote_entities w !! (workspaceId ntt, entityId ntt) = None →
  create_entity_api comps ntt (workspaceId ntt) check_active w =
    (Ret tt,
     if check_active
     then emit (EvWaitEntity (workspaceId ntt) (entityId ntt)) (created ntt comps w)
     else created ntt comps w).
Proof.
  intros Hf Hr. unfold create_entity_api.
  rewrite (bind_ret_eq _ _ w tt (created ntt comps w)).
  2:{ destruct comps; by apply client_create_entity_fresh. }
  destruct check_active; [|done].
  unfold wait_over_entity. munfold.
  rewrite api_call_no_faults by done. simpl.
  by rewrite lookup_insert_eq.
Qed.

(** No component type is provisioned for an absent or empty id. *)
Lemma create_properties_component_falsy ws comp_id w :
  truthy comp_id = false →
  create_properties_component ws comp_id w = (Ret tt, w).
Proof.
  intros H. unfold create_properties_component. munfold.
  destruct comp_id as [c|]; simpl in *; [|done].
  rewrite H. simpl. by destruct (bool_decide _).
Qed.

Lemma create_properties_component_cached ws c w :
  is_Some (created_component_types w !! c) →
  create_properties_component ws (Some c) w = (Ret tt, w).
Proof.
  intros H. unfold create_properties_component. munfold.
  by rewrite bool_decide_eq_true_2.
Qed.

Lemma create_iottwinmaker_entity_unfold fuel input entity ws comps check_active :
  create_iottwinmaker_entity (S fuel) input entity ws comps check_active =
  (exists_ <- entity_exists ws (entity_id entity) ;;
   if exists_ then ret tt
   else
     comps <- (if truthy (component_type entity)
               then populate_assets entity (component_type entity) ws
               else ret comps) ;;
     parent_id <-
       (match parent_entity_id entity with
        | Some pid =>
            parent_exists <- entity_exists ws pid ;;
            _ <- (if parent_exists then ret tt
                  else
                    match get_parent_from_input input pid with
                    | Some parent =>
                        create_iottwinmaker_entity fuel input parent ws comps true
                    | None =>
                        create_entity_api comps
                          (create_root pid (parent_name entity) ws) ws true
                    end) ;;
            ret pid
        | None => ret "$ROOT"
        end) ;;
     create_entity_api comps
       {| entityName := entity_name entity;
          entityId := entity_id entity;
          parentEntityId := Some parent_id;
          ntt_description :=
            if truthy (description entity) then description entity
            else entity_name entity;
          workspaceId := ws |} ws check_active).
Proof. reflexivity. Qed.

Lemma bind_bind {A B C} (m : M A) (k : A → M B) (k' : B → M C) w :
  bind (bind m k) k' w = bind m (fun a => bind (k a) k') w.
Proof. unfold bind. destruct (m w) as [[a|e|] w']; done. Qed.

Lemma ret_bind {A B} (a : A) (k : A → M B) w : bind (ret a) k w = k a w.
Proof. done. Qed.

Ltac side :=
  simpl; rewrite ?lookup_insert_ne by congruence;
  try match goal with H : created_entities _ = ∅ |- _ => rewrite ?H end;
  try match goal with H : remote_entities _ = ∅ |- _ => rewrite ?H end;
  rewrite ?lookup_empty; try done.

Ltac norm := repeat (rewrite bind_bind || rewrite ret_bind); cbn beta iota.
Ltac step lem :=
  norm; erewrite bind_ret_eq; [| apply lem; side]; cbn beta iota.

(** ** The chain scenario *)

(** C8: for the input [c -> b -> a] with nothing existing remotely,
    resolving "c" issues the creation calls in the order a, b, c; the
    creations of a and b are each followed by an activation wait and the
    creation of c, the last call of all, is not. *)
Theorem chain_scenario_creation_order fuel ws comps w :
  pending_faults w = [] →
  created_entities w = ∅ →
  remote_entities w = ∅ →
  let r := create_iottwinmaker_entity (3 + fuel) chain_input
             (chain_record "c" (Some "b")) ws comps false w in
  r.1 = Ret tt ∧
  trace r.2 =
    ([EvCreateEntity (chain_ntt ws "c" "b") comps;
      EvWaitEntity ws "b"; EvCreateEntity (chain_ntt ws "b" "a") comps;
      EvWaitEntity ws "a"; EvCreateEntity (chain_ntt ws "a" "$ROOT") comps;
      EvGetEntity ws "a"; EvGetEntity ws "a";
      EvGetEntity ws "b"; EvGetEntity ws "b"; EvGetEntity ws "c"]
     ++ trace w)%list.
Proof.
  intros Hf Hc Hr r. subst r.
  change (3 + fuel) with (S (S (S fuel))).
  rewrite create_iottwinmaker_entity_unfold. simpl.
  do 5 step entity_exists_absent.
  do 2 step create_entity_api_fresh.
  norm. rewrite create_entity_api_fresh by side. done.
Qed.

Lemma chain_scenario_creation_order_witness :
  let r := create_iottwinmaker_entity 3 chain_input
             (chain_record "c" (Some "b")) "ws" None false empty_world in
  r.1 = Ret tt ∧
  trace r.2 =
    [EvCreateEntity (chain_ntt "ws" "c" "b") None;
     EvWaitEntity "ws" "b"; EvCreateEntity (chain_ntt "ws" "b" "a") None;
     EvWaitEntity "ws" "a"; EvCreateEntity (chain_ntt "ws" "a" "$ROOT") None;
     EvGetEntity "ws" "a"; EvGetEntity "ws" "a";
     EvGetEntity "ws" "b"; EvGetEntity "ws" "b"; EvGetEntity "ws" "c"].
Proof.
  apply (chain_scenario_creation_order 0 "ws" None empty_world); reflexivity.
Defined.

(** ** Errors of the existence check *)

(** C4: whenever the remote existence check raises, whatever the error,
    [entity_exists] answers [False], leaves the cache as it was and does
    nothing beyond the call itself. *)
Theorem entity_exists_swallows_errors ws id w e :
  created_entities w !! id = None →
  (get_entity ws id w).1 = Raise e →
  (entity_exists ws id w).1 = Ret false ∧
  created_entities (entity_exists ws id w).2 = created_entities w ∧
  (entity_exists ws id w).2 = (get_entity ws id w).2.
Proof.
  intros Hc Hget. unfold entity_exists. munfold.
  rewrite bool_decide_eq_false_2 by (rewrite Hc; apply is_Some_None).
  destruct (get_entity ws id w) as [[a|e'|] w'] eqn:E; simpl in *; try done.
  split; [done|]. split; [|done].
  revert E. unfold get_entity, api_call. munfold.
  destruct (pending_faults w) as [|[?|] ?]; simpl;
    destruct (remote_entities w !! (ws, id)); intros [= ? <-]; try done.
Qed.

Lemma entity_exists_swallows_errors_witness :
  (entity_exists "ws" "a" outage_world).1 = Ret false ∧
  created_entities (entity_exists "ws" "a" outage_world).2
    = created_entities outage_world ∧
  (entity_exists "ws" "a" outage_world).2
    = (get_entity "ws" "a" outage_world).2.
Proof.
  apply (entity_exists_swallows_errors "ws" "a" outage_world
           TransportOrAuthFailure); reflexivity.
Defined.

(** ** Component types, without faults *)

Lemma elem_of_component_type_summaries ws c w :
  c ∈ component_type_summaries ws w ↔ (ws, c) ∈ remote_component_types w.
Proof.
  unfold component_type_summaries. rewrite list_elem_of_fmap. split.
  - intros [[ws' c'] [-> H]]. apply list_elem_of_filter in H as [Hws H].
    simpl in *. subst. by apply elem_of_elements in H.
  - intros H. exists (ws, c). split; [done|].
    apply list_elem_of_filter. split; [done|]. by apply elem_of_elements.
Qed.

Lemma create_properties_component_fault_free ws comp_id w :
  pending_faults w = [] →
  ∃ w', create_properties_component ws comp_id w = (Ret tt, w') ∧
        same_entities w w'.
Proof.
  intros Hf. unfold create_properties_component, list_component_types,
    client_create_component_type, wait_over_component_type.
  munfold.
  destruct comp_id as [c|]; simpl; [|by eexists].
  destruct (bool_decide (is_Some _)); [by eexists|].
  destruct (negb (c =? "")); simpl; [|by eexists].
  rewrite api_call_no_faults by done. simpl.
  destruct (bool_decide (c ∈ _)) eqn:Hl; simpl; [by eexists|].
  rewrite api_call_no_faults by done. simpl.
  apply bool_decide_eq_false_1 in Hl.
  rewrite elem_of_component_type_summaries in Hl.
  rewrite bool_decide_eq_false_2 by done. simpl.
  rewrite api_call_no_faults by done. simpl.
  rewrite bool_decide_eq_true_2 by set_solver. simpl.
  by eexists.
Qed.

Lemma populate_assets_fault_free entity comp_id ws w :
  pending_faults w = [] →
  ∃ w', populate_assets entity comp_id ws w =
          (Ret (Some {| componentTypeId := comp_id;
                        comp_properties := properties entity |}), w') ∧
        same_entities w w'.
Proof.
  intros Hf. unfold populate_assets.
  destruct (create_properties_component_fault_free ws comp_id w Hf)
    as (w' & E & H).
  exists w'. split; [|done]. by rewrite (bind_ret_eq _ _ _ _ _ E).
Qed.

(** ** The invariant is kept by every step *)

Lemma extends_refl w : extends w w.
Proof. split; try done. by exists []. Qed.

Lemma extends_trans w1 w2 w3 : extends w1 w2 → extends w2 w3 → extends w1 w3.
Proof.
  intros [] []. split; try by etrans.
  destruct ext_trace0 as [e1 H1], ext_trace1 as [e2 H2].
  exists (e2 ++ e1)%list. by rewrite H2, H1, app_assoc.
Qed.

Lemma extends_emit ev w : extends w (emit ev w).
Proof. split; try done. by exists [ev]. Qed.

Lemma extends_set_pending_faults fs w : extends w (set_pending_faults fs w).
Proof. split; try done. by exists []. Qed.

Lemma created_in_cons ws id ev tr :
  created_in ws id tr → created_in ws id (ev :: tr).
Proof. intros (ntt & c & H & ?). exists ntt, c. split; [by right|done]. Qed.

Lemma Inv_init ws w0 :
  trace w0 = [] →
  (∀ id, is_Some (created_entities w0 !! id) →
         is_Some (remote_entities w0 !! (ws, id))) →
  (∀ c, is_Some (created_component_types w0 !! c) →
        (ws, c) ∈ remote_component_types w0) →
  Inv ws w0 w0.
Proof.
  intros Ht H1 H2. split; auto using extends_refl; rewrite ?Ht; simpl;
    try done.
  all: intros; by left.
Qed.

Lemma Inv_set_pending_faults ws w0 w fs :
  Inv ws w0 w → Inv ws w0 (set_pending_faults fs w).
Proof.
  intros []. split; try done.
  eapply extends_trans; [done|apply extends_set_pending_faults].
Qed.

Lemma Inv_emit ws w0 w ev :
  Inv ws w0 w → event_ok ws w0 (trace w) ev →
  (∀ id, ev ≠ EvCacheEntity id) → (∀ c, ev ≠ EvCacheComponentType c) →
  Inv ws w0 (emit ev w).
Proof.
  intros [] Hok Hne1 Hne2. split; simpl; try done.
  - eapply extends_trans; [done|apply extends_emit].
  - intros id H. destruct (inv_remote_created0 id H); auto using created_in_cons.
  - intros id [->|H]; [by destruct (Hne1 id)|auto].
  - intros c [->|H]; [by destruct (Hne2 c)|auto].
Qed.

Lemma uncached_of_cache ws w0 w id :
  Inv ws w0 w → created_entities w !! id = None → uncached w0 (trace w) id.
Proof.
  intros [] Hc. split.
  - destruct (created_entities w0 !! id) as [x|] eqn:E; [|done].
    eapply lookup_weaken in E; [|apply inv_extends0]. congruence.
  - intros H. apply inv_cached_events0 in H. rewrite Hc in H.
    by apply is_Some_None in H.
Qed.

Lemma uncached_component_type_of_cache ws w0 w c :
  Inv ws w0 w → created_component_types w !! c = None →
  uncached_component_type w0 (trace w) c.
Proof.
  intros [] Hc. split.
  - destruct (created_component_types w0 !! c) as [x|] eqn:E; [|done].
    eapply lookup_weaken in E; [|apply inv_extends0]. congruence.
  - intros H. apply inv_cached_ct_events0 in H. rewrite Hc in H.
    by apply is_Some_None in H.
Qed.

Lemma Inv_get_entity ws w0 w ws' id :
  Inv ws w0 w → created_entities w !! id = None →
  Inv ws w0 (emit (EvGetEntity ws' id) w).
Proof.
  intros HI Hc. apply Inv_emit; try done.
  simpl. by eapply uncached_of_cache.
Qed.

Lemma Inv_list_component_types ws w0 w ws' c :
  Inv ws w0 w → created_component_types w !! c = None →
  Inv ws w0 (emit (EvListComponentTypes ws' c) w).
Proof.
  intros HI Hc. apply Inv_emit; try done.
  simpl. by eapply uncached_component_type_of_cache.
Qed.

Lemma Inv_neutral ws w0 w ev :
  Inv ws w0 w → neutral ev → Inv ws w0 (emit ev w).
Proof. intros HI Hn. apply Inv_emit; try done; by destruct ev. Qed.

Lemma Inv_create_event ws w0 w ntt c :
  Inv ws w0 w → workspaceId ntt = ws →
  (∀ p, parentEntityId ntt = Some p →
        p = "$ROOT" ∨ is_Some (remote_entities w !! (ws, p))) →
  Inv ws w0 (emit (EvCreateEntity ntt c) w).
Proof.
  intros HI Hws Hp. apply Inv_emit; try done.
  simpl. split; [done|]. split.
  - unfold parent_ready. destruct (parentEntityId ntt) as [p|]; [|done].
    destruct (Hp p eq_refl) as [->|H]; [by left|right].
    rewrite Hws. by apply (inv_remote_created _ _ _ HI).
  - destruct (created_entities w !! entityId ntt) as [x|] eqn:E.
    + assert (is_Some (remote_entities w !! (ws, entityId ntt))) as H
        by (apply (inv_cache_remote _ _ _ HI); by rewrite E).
      apply (inv_remote_created _ _ _ HI) in H. tauto.
    + right. right. by eapply uncached_of_cache.
Qed.

Lemma Inv_cache_entity ws w0 w id rest :
  Inv ws w0 w →
  trace w = EvGetEntity ws id :: rest →
  created_entities w !! id = None →
  is_Some (remote_entities w !! (ws, id)) →
  Inv ws w0 (set_created_entities (fun m => <[id := 1%Z]> m)
               (emit (EvCacheEntity id) w)).
Proof.
  intros [] Ht Hc Hr. split; simpl; try done.
  - eapply extends_trans; [done|]. split; simpl; try done.
    + by apply insert_subseteq.
    + by exists [EvCacheEntity id].
  - intros id' H. destruct (decide (id' = id)) as [->|Hne]; [done|].
    rewrite lookup_insert_ne in H by done. auto.
  - intros id' H. destruct (inv_remote_created0 id' H);
      auto using created_in_cons.
  - intros id' [[= ->]|H].
    + rewrite lookup_insert_eq. by eexists.
    + destruct (decide (id' = id)) as [->|Hne].
      * rewrite lookup_insert_eq. by eexists.
      * rewrite lookup_insert_ne by done. auto.
  - intros c [?|H]; [done|auto].
  - split; [|done]. by exists rest.
Qed.

Lemma Inv_cache_component_type ws w0 w c :
  Inv ws w0 w →
  created_component_types w !! c = None →
  (ws, c) ∈ remote_component_types w →
  Inv ws w0 (set_created_component_types (fun m => <[c := 1%Z]> m)
               (emit (EvCacheComponentType c) w)).
Proof.
  intros [] Hc Hr. split; simpl; try done.
  - eapply extends_trans; [done|]. split; simpl; try done.
    + by apply insert_subseteq.
    + by exists [EvCacheComponentType c].
  - intros c' H. destruct (decide (c' = c)) as [->|Hne]; [done|].
    rewrite lookup_insert_ne in H by done. auto.
  - intros id' H. destruct (inv_remote_created0 id' H);
      auto using created_in_cons.
  - intros id' [?|H]; [done|auto].
  - intros c' [[= ->]|H].
    + rewrite lookup_insert_eq. by eexists.
    + destruct (decide (c' = c)) as [->|Hne].
      * rewrite lookup_insert_eq. by eexists.
      * rewrite lookup_insert_ne by done. auto.
Qed.

Lemma Inv_insert_remote_entity ws w0 w k v :
  Inv ws w0 w →
  remote_entities w !! k = None →
  (k.1 = ws → created_in ws k.2 (trace w)) →
  Inv ws w0 (set_remote_entities (fun m => <[k := v]> m) w).
Proof.
  intros [] Hr Hcr. split; simpl; try done.
  - eapply extends_trans; [done|]. split; simpl; try done.
    + by apply insert_subseteq.
    + by exists [].
  - intros id H. apply inv_cache_remote0 in H.
    destruct (decide (k = (ws, id))) as [->|Hne].
    + rewrite lookup_insert_eq. by eexists.
    + by rewrite lookup_insert_ne.
  - intros id H. destruct (decide (k = (ws, id))) as [->|Hne].
    + right. by apply Hcr.
    + rewrite lookup_insert_ne in H by done. auto.
Qed.

Lemma Inv_add_remote_component_type ws w0 w x :
  Inv ws w0 w →
  Inv ws w0 (set_remote_component_types (fun s => {[x]} ∪ s) w).
Proof.
  intros []. split; simpl; try done.
  - eapply extends_trans; [done|]. split; simpl; try done.
    + set_solver.
    + by exists [].
  - intros c H. apply inv_cache_ct_remote0 in H. set_solver.
Qed.

Lemma Inv_add_remote_workspace ws w0 w x :
  Inv ws w0 w →
  Inv ws w0 (set_remote_workspaces (fun s => {[x]} ∪ s) w).
Proof.
  intros []. split; simpl; try done.
  eapply extends_trans; [done|]. split; simpl; try done.
  - set_solver.
  - by exists [].
Qed.

Lemma Inv_add_remote_bucket ws w0 w x :
  Inv ws w0 w →
  Inv ws w0 (set_remote_buckets (fun s => {[x]} ∪ s) w).
Proof.
  intros []. split; simpl; try done.
  eapply extends_trans; [done|]. split; simpl; try done.
  by exists [].
Qed.



Lemma Run_step ws w0 w1 w w' :
  Run ws w0 w1 w → Inv ws w0 w' → extends w w' → Run ws w0 w1 w'.
Proof. intros [HI He] HI' He'. split; [done|by eapply extends_trans]. Qed.

Lemma extends_insert_created_entity id w :
  created_entities w !! id = None →
  extends w (set_created_entities (fun m => <[id := 1%Z]> m) w).
Proof.
  intros H. split; simpl; try done; [by apply insert_subseteq|by exists []].
Qed.

Lemma extends_insert_created_component_type c w :
  created_component_types w !! c = None →
  extends w (set_created_component_types (fun m => <[c := 1%Z]> m) w).
Proof.
  intros H. split; simpl; try done; [by apply insert_subseteq|by exists []].
Qed.

Lemma extends_insert_remote_entity k v w :
  remote_entities w !! k = None →
  extends w (set_remote_entities (fun m => <[k := v]> m) w).
Proof.
  intros H. split; simpl; try done; [by apply insert_subseteq|by exists []].
Qed.

Lemma extends_add_remote_component_type x w :
  extends w (set_remote_component_types (fun s => {[x]} ∪ s) w).
Proof. split; simpl; try done; [set_solver|by exists []]. Qed.

Lemma extends_add_remote_workspace x w :
  extends w (set_remote_workspaces (fun s => {[x]} ∪ s) w).
Proof. split; simpl; try done; [set_solver|by exists []]. Qed.

Lemma extends_add_remote_bucket x w :
  extends w (set_remote_buckets (fun s => {[x]} ∪ s) w).
Proof. split; simpl; try done. by exists []. Qed.

Lemma extends_trans_r w1 w2 w3 : extends w2 w3 → extends w1 w2 → extends w1 w3.
Proof. eauto using extends_trans. Qed.

(** Chains [extends] facts of a world built by nested updates. *)
Ltac ext_tac :=
  repeat first
    [ apply extends_refl
    | (eapply extends_trans_r;
       [ first [ apply extends_emit | apply extends_set_pending_faults
               | apply extends_insert_created_entity
               | apply extends_insert_created_component_type
               | apply extends_insert_remote_entity
               | apply extends_add_remote_component_type
               | apply extends_add_remote_workspace
               | apply extends_add_remote_bucket ] | ]) ];
  try (simpl; done).

Lemma created_in_here ntt c tr :
  created_in (workspaceId ntt) (entityId ntt) (EvCreateEntity ntt c :: tr).
Proof. exists ntt, c. split; [by left|done]. Qed.

Ltac inv_side :=
  simpl; try done; try (intros _; apply created_in_here); try set_solver.

(** Rebuilds the invariant of a world built by nested updates, one update
    at a time. *)
Ltac inv_tac :=
  lazymatch goal with
  | H : Inv ?ws ?w0 ?w |- Inv ?ws ?w0 ?w => exact H
  | |- Inv _ _ (set_pending_faults _ _) =>
      apply Inv_set_pending_faults; inv_tac
  | |- Inv _ _ (emit (EvGetEntity _ _) _) =>
      apply Inv_get_entity; [inv_tac | inv_side]
  | |- Inv _ _ (emit (EvListComponentTypes _ _) _) =>
      apply Inv_list_component_types; [inv_tac | inv_side]
  | |- Inv _ _ (emit (EvCreateEntity _ _) _) =>
      apply Inv_create_event; [inv_tac | inv_side | inv_side]
  | |- Inv _ _ (set_created_entities _ (emit (EvCacheEntity _) _)) =>
      eapply Inv_cache_entity; [inv_tac | simpl; reflexivity | inv_side | inv_side]
  | |- Inv _ _ (set_created_component_types _ (emit (EvCacheComponentType _) _)) =>
      apply Inv_cache_component_type; [inv_tac | inv_side | inv_side]
  | |- Inv _ _ (set_remote_entities _ _) =>
      apply Inv_insert_remote_entity; [inv_tac | inv_side | inv_side]
  | |- Inv _ _ (set_remote_component_types _ _) =>
      apply Inv_add_remote_component_type; inv_tac
  | |- Inv _ _ (set_remote_workspaces _ _) =>
      apply Inv_add_remote_workspace; inv_tac
  | |- Inv _ _ (set_remote_buckets _ _) =>
      apply Inv_add_remote_bucket; inv_tac
  | |- Inv _ _ (emit _ _) =>
      apply Inv_neutral; [inv_tac | exact I]
  end.

Ltac run_tac :=
  lazymatch goal with
  | HR : Run ?ws ?w0 ?w1 ?w |- Run ?ws ?w0 ?w1 ?w => exact HR
  | HR : Run ?ws ?w0 ?w1 _ |- Run ?ws ?w0 ?w1 _ =>
      let HI := fresh "HI" in
      pose proof (proj1 HR) as HI;
      eapply Run_step; [exact HR | inv_tac | ext_tac]
  end.

Ltac wsimpl :=
  cbn [created_component_types created_entities remote_workspaces
       remote_buckets remote_component_types remote_entities caller_role
       pending_faults trace emit set_created_component_types
       set_created_entities set_remote_workspaces set_remote_buckets
       set_remote_component_types set_remote_entities set_pending_faults
       fst snd].

(** One step of a computation built from the primitives of the monad. *)
Ltac wp_prim :=
  lazymatch goal with
  | |- wp (bind _ _) _ _ => apply wp_bind
  | |- wp (gets _) _ _ => apply wp_gets
  | |- wp (modify _) _ _ => apply wp_modify
  | |- wp (ret _) _ _ => apply wp_ret
  | |- wp (raise _) _ _ => apply wp_raise
  | |- wp (api_call _) _ _ => apply wp_api_call; [intros ? | intros ? ? | ]
  | |- wp (try_except _ _) _ _ => apply wp_try_except
  end;
  unfold bind_post; wsimpl.

Lemma not_cached_lookup {V} (m : gmap string V) k :
  bool_decide (is_Some (m !! k)) = false → m !! k = None.
Proof.
  intros H%bool_decide_eq_false_1. destruct (m !! k); [|done].
  destruct H. by eexists.
Qed.

Ltac wp_case :=
  match goal with
  | |- wp (match ?x with _ => _ end) _ _ => destruct x eqn:?; wsimpl
  end.

Ltac wp_go := repeat first [wp_prim | wp_case].

Ltac clean_hyps :=
  repeat match goal with
  | H : bool_decide _ = true |- _ => apply bool_decide_eq_true_1 in H
  | H : bool_decide _ = false |- _ => apply bool_decide_eq_false_1 in H
  | H : context [_ ∈ component_type_summaries _ _] |- _ =>
      rewrite elem_of_component_type_summaries in H; simpl in H
  | H : context [_ ∈ elements _] |- _ => rewrite elem_of_elements in H
  end.

Lemma entity_exists_run ws w0 w1 id w :
  Run ws w0 w1 w →
  wp (entity_exists ws id)
     (fun o w' => Run ws w0 w1 w' ∧ ∃ b, o = Ret b ∧
                  (b = true → is_Some (remote_entities w' !! (ws, id)))) w.
Proof.
  intros HR. pose proof HR as [HI He].
  unfold entity_exists. do 2 wp_prim.
  destruct (bool_decide _) eqn:Hc; cbn beta iota.
  { wp_prim. split; [done|]. exists true. split; [done|]. intros _.
    apply bool_decide_eq_true_1 in Hc. by apply (inv_cache_remote _ _ _ HI). }
  apply not_cached_lookup in Hc.
  unfold get_entity. wp_go.
  all: try (split; [run_tac|by exists false]).
  all: split; [run_tac; by rewrite ?Heqo|].
  all: exists true; split; [done|]; intros _; simpl; by rewrite ?Heqo.
Qed.

Lemma create_properties_component_run ws w0 w1 comp_id w :
  Run ws w0 w1 w →
  wp (create_properties_component ws comp_id)
     (fun o w' => Run ws w0 w1 w' ∧ o ≠ OutOfFuel ∧
                  (o = Ret tt → ∀ c, comp_id = Some c → c ≠ "" →
                                (ws, c) ∈ remote_component_types w')) w.
Proof.
  intros HR. pose proof HR as [HI He].
  unfold create_properties_component. do 2 wp_prim.
  destruct comp_id as [c|]; simpl; [|wp_prim; by split_and!].
  destruct (bool_decide (is_Some _)) eqn:Hc; simpl.
  { wp_prim. split_and!; try done. intros _ ? [= <-] _.
    apply bool_decide_eq_true_1 in Hc. by apply (inv_cache_ct_remote _ _ _ HI). }
  apply not_cached_lookup in Hc. simpl.
  destruct (String.eqb_spec c ""); simpl;
    [wp_prim; split_and!; try done; congruence|].
  unfold list_component_types, client_create_component_type,
    wait_over_component_type.
  wp_go.
  all: clean_hyps.
  all: split_and!; [run_tac|done|try done].
  all: intros _ ? [= <-] _; set_solver.
Qed.

Lemma create_workspace_run ws w0 w1 ws' role w :
  Run ws w0 w1 w →
  wp (create_workspace ws' role)
     (fun o w' => Run ws w0 w1 w' ∧ o ≠ OutOfFuel ∧
                  (o = Ret tt → ws' ∈ remote_workspaces w')) w.
Proof.
  intros HR.
  unfold create_workspace, list_workspaces, s3_create_bucket,
    s3_wait_bucket_exists, client_create_workspace, get_role_from_identity.
  wp_go.
  all: clean_hyps.
  all: split_and!; [run_tac|done|try done].
  all: intros _; set_solver.
Qed.

Lemma create_entity_api_run ws w0 w1 comps ntt check_active w :
  Run ws w0 w1 w →
  workspaceId ntt = ws →
  (∀ p, parentEntityId ntt = Some p →
        p = "$ROOT" ∨ is_Some (remote_entities w !! (ws, p))) →
  wp (create_entity_api comps ntt ws check_active)
     (fun o w' => Run ws w0 w1 w' ∧ o ≠ OutOfFuel ∧
                  (o = Ret tt →
                   is_Some (remote_entities w' !! (ws, entityId ntt)))) w.
Proof.
  intros HR Hws Hp. subst ws.
  unfold create_entity_api, client_create_entity, wait_over_entity.
  destruct comps, check_active.
  all: wp_go.
  all: split_and!; [run_tac|done|try done].
  all: intros _; by rewrite lookup_insert_eq.
Qed.

Lemma populate_assets_run ws w0 w1 entity comp_id w :
  Run ws w0 w1 w →
  wp (populate_assets entity comp_id ws)
     (fun o w' => Run ws w0 w1 w' ∧ o ≠ OutOfFuel ∧
                  (o = Ret (Some {| componentTypeId := comp_id;
                                    comp_properties := properties entity |}) ∨
                   ∃ e, o = Raise e)) w.
Proof.
  intros HR. unfold populate_assets. apply wp_bind.
  eapply wp_mono; [by apply create_properties_component_run|].
  intros [[]|e|] w' (HR' & Hne & _); unfold bind_post; try done.
  - wp_prim. split_and!; auto; done.
  - split_and!; eauto.
Qed.

Lemma get_parent_from_input_id input pid parent :
  get_parent_from_input input pid = Some parent → entity_id parent = pid.
Proof.
  induction input as [|r input IH]; simpl; [done|].
  destruct (String.eqb_spec pid (entity_id r)); [by intros [= <-]|done].
Qed.

Lemma get_parent_from_input_In input pid parent :
  get_parent_from_input input pid = Some parent → In parent input.
Proof.
  induction input as [|r input IH]; simpl; [done|].
  destruct (String.eqb pid (entity_id r)); [intros [= <-]; by left|auto].
Qed.

Lemma create_iottwinmaker_entity_run ws w0 w1 input fuel :
  ∀ entity comps check_active w,
  Run ws w0 w1 w →
  wp (create_iottwinmaker_entity fuel input entity ws comps check_active)
     (fun o w' => Run ws w0 w1 w' ∧
                  (o = Ret tt →
                   is_Some (remote_entities w' !! (ws, entity_id entity)))) w.
Proof.
  induction fuel as [|fuel IH]; intros entity comps check_active w HR.
  { by split. }
  rewrite create_iottwinmaker_entity_unfold.
  apply wp_bind. eapply wp_mono; [by apply entity_exists_run|].
  intros o w2 (HR2 & b & -> & Hb). unfold bind_post.
  destruct b; [wp_prim; auto|].
  apply wp_bind.
  eapply (wp_mono _ (fun o w' => Run ws w0 w1 w' ∧ ∀ a, o = Ret a → True)).
  { destruct (truthy (component_type entity)).
    - eapply wp_mono; [by apply populate_assets_run|]. naive_solver.
    - wp_prim. auto. }
  intros [comps'|e|] w3 [HR3 _]; unfold bind_post; try by split.
  apply wp_bind.
  eapply (wp_mono _ (fun o w' => Run ws w0 w1 w' ∧ ∀ p, o = Ret p →
     match parent_entity_id entity with
     | Some pid => p = pid ∧ is_Some (remote_entities w' !! (ws, pid))
     | None => p = "$ROOT"
     end)).
  { destruct (parent_entity_id entity) as [pid|]; [|wp_prim; naive_solver].
    apply wp_bind. eapply wp_mono; [by apply entity_exists_run|].
    intros o w4 (HR4 & b & -> & Hb4). unfold bind_post.
    destruct b.
    { wp_go. naive_solver. }
    apply wp_bind.
    eapply (wp_mono _ (fun o w' => Run ws w0 w1 w' ∧
              (o = Ret tt → is_Some (remote_entities w' !! (ws, pid))))).
    { destruct (get_parent_from_input input pid) as [parent|] eqn:Hin.
      - apply get_parent_from_input_id in Hin. subst pid. by apply IH.
      - eapply wp_mono; [by apply create_entity_api_run|]. naive_solver. }
    intros [[]|e|] w5 [HR5 H5]; unfold bind_post; try by split.
    wp_prim. naive_solver. }
  intros [p|e|] w4 [HR4 H4]; unfold bind_post; try by split.
  specialize (H4 p eq_refl).
  eapply wp_mono.
  { apply create_entity_api_run; [done..|]. simpl. intros p' [= <-].
    destruct (parent_entity_id entity); naive_solver. }
  naive_solver.
Qed.

Lemma Run_rebase ws w0 w1 w : Run ws w0 w1 w → Run ws w0 w w.
Proof. intros [HI _]. split; [done|apply extends_refl]. Qed.

Lemma Run_trans ws w0 w1 w w' :
  Run ws w0 w1 w → Run ws w0 w w' → Run ws w0 w1 w'.
Proof. intros [_ He] [HI He']. split; [done|by eapply extends_trans]. Qed.

Lemma extends_remote_entity w w' k :
  extends w w' → is_Some (remote_entities w !! k) →
  is_Some (remote_entities w' !! k).
Proof.
  intros [] [x Hx]. exists x. by eapply lookup_weaken.
Qed.

Lemma process_records_loop_run ws w0 fuel all comp_id rest :
  ∀ w1 w,
  Run ws w0 w1 w →
  wp (process_records_loop fuel all rest ws comp_id)
     (fun o w' => Run ws w0 w1 w' ∧
                  (o = Ret tt →
                   ∀ r, In r rest →
                        is_Some (remote_entities w' !! (ws, entity_id r)))) w.
Proof.
  induction rest as [|entity rest IH]; intros w1 w HR; simpl.
  { wp_prim. split; [done|]. by intros _ r []. }
  apply wp_bind. eapply wp_mono; [by apply populate_assets_run|].
  intros o w2 (HR2 & _ & [->|[e ->]]); unfold bind_post; [|by split].
  apply wp_bind.
  eapply wp_mono; [by apply create_iottwinmaker_entity_run|].
  intros [[]|e|] w3 [HR3 H3]; unfold bind_post; try by split.
  eapply wp_mono; [apply (IH w3 w3); by eapply Run_rebase|].
  intros o w4 [HR4 H4]. split; [by eapply Run_trans|].
  intros -> r [<-|Hr]; [|by apply H4].
  eapply extends_remote_entity; [apply HR4|by apply H3].
Qed.

Lemma create_iottwinmaker_entities_run ws w0 w1 fuel j_data comp_id role w :
  Run ws w0 w1 w →
  wp (create_iottwinmaker_entities fuel j_data ws comp_id role)
     (fun o w' =>
        Run ws w0 w1 w' ∧
        (o = Ret tt →
         ws ∈ remote_workspaces w' ∧
         (∀ c, comp_id = Some c → c ≠ "" →
               (ws, c) ∈ remote_component_types w') ∧
         (∀ r, In r (entities j_data) →
               is_Some (remote_entities w' !! (ws, entity_id r))))) w.
Proof.
  intros HR. unfold create_iottwinmaker_entities, process_records.
  apply wp_bind. eapply wp_mono; [by apply create_workspace_run|].
  intros [[]|e|] w2 (HR2 & Hne2 & H2); unfold bind_post; try by split.
  apply wp_bind.
  eapply wp_mono; [apply (create_properties_component_run ws w0 w2);
                   by eapply Run_rebase|].
  intros [[]|e|] w3 (HR3 & Hne3 & H3); unfold bind_post;
    try (split; [by eapply Run_trans|done]).
  eapply wp_mono; [apply (process_records_loop_run ws w0 _ _ _ _ w3 w3);
                   by eapply Run_rebase|].
  intros o w4 [HR4 H4].
  split; [eapply Run_trans; [exact HR2|]; by eapply Run_trans|].
  intros ->. destruct HR4 as [_ He4].
  assert (extends w2 w4) as He2.
  { eapply extends_trans; [apply HR3|done]. }
  split; [|split].
  - apply (ext_remote_workspaces _ _ He2). auto.
  - intros c Hc Hne. apply (ext_remote_component_types _ _ He4). auto.
  - by apply H4.
Qed.

(** ** Properties of a whole run *)

Lemma well_started_fresh ws w0 :
  trace w0 = [] → created_entities w0 = ∅ → created_component_types w0 = ∅ →
  well_started ws w0.
Proof.
  intros Ht Hc Hct. split; [done|]. rewrite Hc, Hct.
  split; intros ? [x Hx]; by rewrite lookup_empty in Hx.
Qed.

Lemma trace_ok_split ws w0 newer ev older :
  trace_ok ws w0 (newer ++ ev :: older) → event_ok ws w0 older ev.
Proof. induction newer as [|e newer IH]; simpl; tauto. Qed.

Lemma run_invariant fuel j_data ws comp_id role w0 :
  well_started ws w0 →
  Inv ws w0 (create_iottwinmaker_entities fuel j_data ws comp_id role w0).2.
Proof.
  intros (Ht & Hc & Hct).
  assert (Run ws w0 w0 w0) as HR.
  { split; [by apply Inv_init|apply extends_refl]. }
  apply (create_iottwinmaker_entities_run _ _ _ fuel j_data comp_id role) in HR.
  apply HR.
Qed.

(** C2: in the sequence of creation calls of one run, whatever the input,
    the faults and the fuel, the parent named in a creation call existed
    before the run or has its own creation call earlier in the sequence
    (the synthetic placeholders included); ["$ROOT"] is the root of the
    workspace, which is not created. *)
Theorem ancestors_before_descendants fuel j_data ws comp_id role w0
    newer older ntt c p :
  well_started ws w0 →
  trace (create_iottwinmaker_entities fuel j_data ws comp_id role w0).2
    = (newer ++ EvCreateEntity ntt c :: older)%list →
  parentEntityId ntt = Some p →
  workspaceId ntt = ws ∧
  (p = "$ROOT" ∨ is_Some (remote_entities w0 !! (ws, p)) ∨
   created_in ws p older).
Proof.
  intros Hs Ht Hp.
  pose proof (run_invariant fuel j_data ws comp_id role w0 Hs) as HI.
  apply inv_trace in HI. rewrite Ht in HI.
  apply trace_ok_split in HI. destruct HI as (Hws & Hpr & _).
  split; [done|]. unfold parent_ready in Hpr. rewrite Hp, Hws in Hpr. done.
Qed.

Lemma ancestors_before_descendants_witness :
  workspaceId (entity_ntt orphan_child "ws" "orphan") = "ws" ∧
  ("orphan" = "$ROOT" ∨
   is_Some (remote_entities empty_world !! ("ws", "orphan")) ∨
   created_in "ws" "orphan" orphan_run_before_x).
Proof.
  apply (ancestors_before_descendants 1 {| entities := [orphan_child] |}
           "ws" None None empty_world [] orphan_run_before_x
           (entity_ntt orphan_child "ws" "orphan")
           (Some (payload orphan_child)) "orphan").
  - apply well_started_fresh; reflexivity.
  - vm_compute. reflexivity.
  - reflexivity.
Defined.

(** C9: within one run the two caches only gain entries, and once an id is
    in the entity cache (or a component type in the component-type cache)
    no [get_entity] existence check (no [list_component_types] call on its
    behalf) is issued for it any more. *)
Theorem caches_monotone_and_consulted_first fuel j_data ws comp_id role w0 :
  well_started ws w0 →
  let w := (create_iottwinmaker_entities fuel j_data ws comp_id role w0).2 in
  created_entities w0 ⊆ created_entities w ∧
  created_component_types w0 ⊆ created_component_types w ∧
  (∀ id, In (EvCacheEntity id) (trace w) → is_Some (created_entities w !! id)) ∧
  (∀ c, In (EvCacheComponentType c) (trace w) →
        is_Some (created_component_types w !! c)) ∧
  (∀ newer older ws' id,
     trace w = (newer ++ EvGetEntity ws' id :: older)%list →
     created_entities w0 !! id = None ∧ ¬ In (EvCacheEntity id) older) ∧
  (∀ newer older ws' c,
     trace w = (newer ++ EvListComponentTypes ws' c :: older)%list →
     created_component_types w0 !! c = None ∧
     ¬ In (EvCacheComponentType c) older).
Proof.
  intros Hs w.
  pose proof (run_invariant fuel j_data ws comp_id role w0 Hs) as HI.
  fold w in HI. destruct HI as [[] ? ? ? ? ? Ht].
  split_and!; try done.
  - intros newer older ws' id E. rewrite E in Ht.
    by apply trace_ok_split in Ht.
  - intros newer older ws' c E. rewrite E in Ht.
    by apply trace_ok_split in Ht.
Qed.

Lemma caches_monotone_and_consulted_first_witness :
  let w := orphan_run.2 in
  created_entities empty_world ⊆ created_entities w ∧
  created_component_types empty_world ⊆ created_component_types w ∧
  (∀ id, In (EvCacheEntity id) (trace w) → is_Some (created_entities w !! id)) ∧
  (∀ c, In (EvCacheComponentType c) (trace w) →
        is_Some (created_component_types w !! c)) ∧
  (∀ newer older ws' id,
     trace w = (newer ++ EvGetEntity ws' id :: older)%list →
     created_entities empty_world !! id = None ∧
     ¬ In (EvCacheEntity id) older) ∧
  (∀ newer older ws' c,
     trace w = (newer ++ EvListComponentTypes ws' c :: older)%list →
     created_component_types empty_world !! c = None ∧
     ¬ In (EvCacheComponentType c) older).
Proof.
  apply (caches_monotone_and_consulted_first 1
           {| entities := [orphan_child] |} "ws" None None empty_world).
  apply well_started_fresh; reflexivity.
Defined.

Lemma create_entity_api_keeps_cache comps ntt ws check_active w :
  created_entities (create_entity_api comps ntt ws check_active w).2
    = created_entities w.
Proof.
  change (wp (create_entity_api comps ntt ws check_active)
            (fun _ w' => created_entities w' = created_entities w) w).
  unfold create_entity_api, client_create_entity, wait_over_entity.
  destruct comps, check_active; wp_go; done.
Qed.

Lemma entity_exists_asks_remote ws id w :
  created_entities w !! id = None →
  ∃ evs, trace (entity_exists ws id w).2
         = (evs ++ EvGetEntity ws id :: trace w)%list.
Proof.
  intros Hc. unfold entity_exists, get_entity, api_call. munfold.
  rewrite bool_decide_eq_false_2 by (rewrite Hc; apply is_Some_None).
  destruct (pending_faults w) as [|[e|] fs]; simpl;
    destruct (remote_entities w !! (ws, id)); simpl;
    first [by exists [] | by exists [EvCacheEntity id]].
Qed.

(** C10: a creation call leaves the entity cache as it is, so an
    existence check of the created id right after it goes to the remote
    service; along a run the cache gains an id only right after a
    [get_entity] call for that id, and an entity that the run creates was
    not in the cache when its creation call was issued. *)
Theorem cache_filled_only_by_existence_checks fuel j_data ws comp_id role w0 :
  well_started ws w0 →
  let w := (create_iottwinmaker_entities fuel j_data ws comp_id role w0).2 in
  (∀ comps ntt check_active w',
     created_entities (create_entity_api comps ntt ws check_active w').2
       = created_entities w' ∧
     (created_entities w' !! entityId ntt = None →
      let w'' := (create_entity_api comps ntt ws check_active w').2 in
      ∃ evs, trace (entity_exists ws (entityId ntt) w'').2
             = (evs ++ EvGetEntity ws (entityId ntt) :: trace w'')%list)) ∧
  (∀ newer older id,
     trace w = (newer ++ EvCacheEntity id :: older)%list →
     ∃ rest, older = EvGetEntity ws id :: rest) ∧
  (∀ newer older ntt c,
     trace w = (newer ++ EvCreateEntity ntt c :: older)%list →
     ¬ is_Some (remote_entities w0 !! (ws, entityId ntt)) →
     ¬ created_in ws (entityId ntt) older →
     created_entities w0 !! entityId ntt = None ∧
     ¬ In (EvCacheEntity (entityId ntt)) older).
Proof.
  intros Hs w.
  pose proof (run_invariant fuel j_data ws comp_id role w0 Hs) as HI.
  fold w in HI. apply inv_trace in HI.
  split_and!.
  - intros comps ntt check_active w'. split.
    + apply create_entity_api_keeps_cache.
    + intros Hc. apply entity_exists_asks_remote.
      by rewrite create_entity_api_keeps_cache.
  - intros newer older id E. rewrite E in HI.
    by apply trace_ok_split in HI.
  - intros newer older ntt c E Hn0 Hn1. rewrite E in HI.
    apply trace_ok_split in HI. destruct HI as (_ & _ & [?|[?|?]]); done.
Qed.

Lemma cache_filled_only_by_existence_checks_witness :
  let w := orphan_run.2 in
  (∀ comps ntt check_active w',
     created_entities (create_entity_api comps ntt "ws" check_active w').2
       = created_entities w' ∧
     (created_entities w' !! entityId ntt = None →
      let w'' := (create_entity_api comps ntt "ws" check_active w').2 in
      ∃ evs, trace (entity_exists "ws" (entityId ntt) w'').2
             = (evs ++ EvGetEntity "ws" (entityId ntt) :: trace w'')%list)) ∧
  (∀ newer older id,
     trace w = (newer ++ EvCacheEntity id :: older)%list →
     ∃ rest, older = EvGetEntity "ws" id :: rest) ∧
  (∀ newer older ntt c,
     trace w = (newer ++ EvCreateEntity ntt c :: older)%list →
     ¬ is_Some (remote_entities empty_world !! ("ws", entityId ntt)) →
     ¬ created_in "ws" (entityId ntt) older →
     created_entities empty_world !! entityId ntt = None ∧
     ¬ In (EvCacheEntity (entityId ntt)) older).
Proof.
  apply (cache_filled_only_by_existence_checks 1
           {| entities := [orphan_child] |} "ws" None None empty_world).
  apply well_started_fresh; reflexivity.
Defined.

(** ** Termination of the resolution *)

Lemma ancestor_add input a b e :
  ancestor input (a + b) e =
  match ancestor input a e with
  | Some x => ancestor input b x
  | None => None
  end.
Proof.
  revert e. induction a as [|a IH]; intros e; simpl; [done|].
  destruct (parent_of input e); auto.
Qed.

Lemma chain_ends_mono input (n m : nat) p :
  (n ≤ m)%nat → chain_ends input n p = true → chain_ends input m p = true.
Proof.
  revert m p. induction n as [|n IH]; intros m p Hle; destruct m; try lia;
    destruct p as [pid|]; simpl; try done;
    destruct (get_parent_from_input input pid); try done.
  apply IH. lia.
Qed.

(** A chain that has not ended after [n] records has [n + 1] ids that all
    name records of the input. *)
Lemma chain_not_ended input (n : nat) e :
  chain_ends input n (Some e) = false →
  ∀ k : nat, (k ≤ n)%nat →
       ∃ x, ancestor input k e = Some x ∧
            is_Some (get_parent_from_input input x).
Proof.
  revert e. induction n as [|n IH]; intros e H k Hk; simpl in H.
  - assert (k = 0) as -> by lia. exists e. split; [done|].
    destruct (get_parent_from_input input e); [by eexists|done].
  - destruct (get_parent_from_input input e) as [r|] eqn:Hr; [|done].
    destruct k as [|k].
    { exists e. split; [done|]. rewrite Hr. by eexists. }
    destruct (parent_entity_id r) as [p|] eqn:Hp; [|by destruct n].
    destruct (IH p H k ltac:(lia)) as (x & Hx & Hin).
    exists x. split; [|done]. simpl. unfold parent_of. by rewrite Hr, Hp.
Qed.

Lemma get_parent_from_input_ids input e :
  is_Some (get_parent_from_input input e) → e ∈ entity_id <$> input.
Proof.
  intros [r Hr]. apply list_elem_of_fmap. exists r.
  split; [symmetry; by eapply get_parent_from_input_id|].
  apply list_elem_of_In. by eapply get_parent_from_input_In.
Qed.

Lemma no_cycle_chain_ends input p :
  ¬ has_cycle input → chain_ends input (length input) p = true.
Proof.
  intros Hnc. destruct p as [e|]; [|by destruct (length input)].
  destruct (chain_ends input (length input) (Some e)) eqn:Hce; [done|].
  exfalso.
  pose proof (chain_not_ended input _ e Hce) as Hch.
  set (f := fun k => default "" (ancestor input k e)).
  assert (NoDup (f <$> seq 0 (S (length input)))) as Hnd.
  { apply NoDup_fmap_2_strong; [|apply NoDup_seq].
    intros i j Hi Hj Hij.
    apply elem_of_seq in Hi, Hj.
    destruct (Hch i ltac:(lia)) as (x & Hx & _).
    destruct (Hch j ltac:(lia)) as (y & Hy & _).
    unfold f in Hij. rewrite Hx, Hy in Hij. simpl in Hij. subst y.
    destruct (decide (i = j)) as [|Hne]; [done|]. exfalso. apply Hnc.
    destruct (decide (i < j)%nat).
    - exists x, (j - i - 1). replace (S (j - i - 1)) with (j - i) by lia.
      replace j with (i + (j - i)) in Hy by lia.
      rewrite ancestor_add, Hx in Hy. done.
    - exists x, (i - j - 1). replace (S (i - j - 1)) with (i - j) by lia.
      replace i with (j + (i - j)) in Hx by lia.
      rewrite ancestor_add, Hy in Hx. done. }
  assert (f <$> seq 0 (S (length input)) ⊆ entity_id <$> input) as Hincl.
  { intros x Hx. apply list_elem_of_fmap in Hx as (k & -> & Hk).
    apply elem_of_seq in Hk.
    destruct (Hch k ltac:(lia)) as (y & Hy & Hin).
    unfold f. rewrite Hy. simpl. by apply get_parent_from_input_ids. }
  apply NoDup_submseteq in Hincl; [|done].
  apply submseteq_length in Hincl.
  rewrite !length_fmap, length_seq in Hincl. lia.
Qed.

(** A cycle never lets the chain end. *)
Lemma cycle_chain_never_ends input e n :
  ancestor input (S n) e = Some e →
  ∀ N, chain_ends input N (Some e) = false.
Proof.
  intros Hc N. revert e Hc. induction N as [|N IH]; intros e Hc.
  - simpl in *. unfold parent_of in Hc.
    by destruct (get_parent_from_input input e).
  - pose proof Hc as Hc'. simpl in Hc. unfold parent_of in Hc. simpl.
    destruct (get_parent_from_input input e) as [r|] eqn:Hr; [|done].
    destruct (parent_entity_id r) as [p|] eqn:Hp; [|done].
    apply IH.
    replace (S n) with (n + 1)%nat by lia.
    rewrite ancestor_add, Hc. simpl. unfold parent_of. by rewrite Hr, Hp.
Qed.

Lemma acyclic_sound input : acyclic input = true → ¬ has_cycle input.
Proof.
  intros Ha (e & n & Hc).
  pose proof (cycle_chain_never_ends input e n Hc (length input)) as Hne.
  assert (is_Some (get_parent_from_input input e)) as [r Hr].
  { simpl in Hc. unfold parent_of in Hc.
    destruct (get_parent_from_input input e); [by eexists|done]. }
  unfold acyclic in Ha. rewrite forallb_forall in Ha.
  specialize (Ha r (get_parent_from_input_In _ _ _ Hr)).
  rewrite (get_parent_from_input_id _ _ _ Hr) in Ha. congruence.
Qed.

Lemma entity_exists_returns ws id w : ∃ b, (entity_exists ws id w).1 = Ret b.
Proof.
  change (wp (entity_exists ws id) (fun o _ => ∃ b, o = Ret b) w).
  unfold entity_exists, get_entity. wp_go; by eexists.
Qed.

Lemma populate_assets_has_fuel entity comp_id ws w :
  (populate_assets entity comp_id ws w).1 ≠ OutOfFuel.
Proof.
  change (wp (populate_assets entity comp_id ws) (fun o _ => o ≠ OutOfFuel) w).
  unfold populate_assets, create_properties_component, list_component_types,
    client_create_component_type, wait_over_component_type.
  wp_go; done.
Qed.

Lemma create_entity_api_has_fuel comps ntt ws check_active w :
  (create_entity_api comps ntt ws check_active w).1 ≠ OutOfFuel.
Proof.
  change (wp (create_entity_api comps ntt ws check_active)
            (fun o _ => o ≠ OutOfFuel) w).
  unfold create_entity_api, client_create_entity, wait_over_entity.
  destruct comps, check_active; wp_go; done.
Qed.

Lemma wp_entity_exists_returns ws id w (Q : outcome bool → World → Prop) :
  (∀ b w', Q (Ret b) w') → wp (entity_exists ws id) Q w.
Proof.
  intros HQ. unfold wp. destruct (entity_exists_returns ws id w) as [b Hb].
  rewrite Hb. apply HQ.
Qed.

Lemma resolution_follows_parent_chain input ws (n : nat) :
  ∀ entity comps check_active w,
  chain_ends input n (parent_entity_id entity) = true →
  (create_iottwinmaker_entity (S n) input entity ws comps check_active w).1
    ≠ OutOfFuel.
Proof.
  induction n as [|n IH]; intros entity comps check_active w Hce.
  all: rewrite create_iottwinmaker_entity_unfold.
  all: match goal with
       | |- (?m ?w').1 ≠ OutOfFuel =>
           change (wp m (fun o _ => o ≠ OutOfFuel) w')
       end.
  all: apply wp_bind, wp_entity_exists_returns; intros [] w1;
    unfold bind_post; [by wp_prim|].
  all: apply wp_bind;
    eapply (wp_mono _ (fun o _ => o ≠ OutOfFuel));
    [destruct (truthy (component_type entity));
       [apply populate_assets_has_fuel|by wp_prim]|].
  all: intros [comps'|e|] w2 Hne; unfold bind_post; try done.
  all: apply wp_bind; eapply (wp_mono _ (fun o _ => o ≠ OutOfFuel)).
  all: try (intros [p|e|] w3 Hne3; unfold bind_post; try done;
            apply create_entity_api_has_fuel).
  all: destruct (parent_entity_id entity) as [pid|]; [|by wp_prim].
  all: apply wp_bind, wp_entity_exists_returns; intros [] w3;
    unfold bind_post; [by wp_go|].
  all: apply wp_bind; eapply (wp_mono _ (fun o _ => o ≠ OutOfFuel));
    [|intros [[]|e|] w4 Hne4; unfold bind_post; try done; by wp_prim].
  all: simpl in Hce.
  all: destruct (get_parent_from_input input pid) as [parent|];
    [|apply create_entity_api_has_fuel].
  - done.
  - by apply IH.
Qed.

(** ** Resolution without faults *)

Lemma own_comps_fault_free entity ws comps w :
  pending_faults w = [] →
  ∃ w', (if truthy (component_type entity)
         then populate_assets entity (component_type entity) ws
         else ret comps) w = (Ret (own_comps entity comps), w') ∧
        same_entities w w'.
Proof.
  intros Hf. unfold own_comps. destruct (truthy (component_type entity)).
  - by apply populate_assets_fault_free.
  - by exists w.
Qed.

Lemma get_parent_from_input_finds input r :
  In r input → is_Some (get_parent_from_input input (entity_id r)).
Proof.
  induction input as [|r' input IH]; simpl; [done|].
  intros [->|H].
  - rewrite String.eqb_refl. by eexists.
  - destruct (String.eqb _ _); [by eexists|auto].
Qed.

(** Resolving a record that does not exist and names no parent. *)
Lemma resolve_without_parent fuel input entity ws comps check_active w :
  pending_faults w = [] →
  created_entities w !! entity_id entity = None →
  remote_entities w !! (ws, entity_id entity) = None →
  parent_entity_id entity = None →
  let comps' := own_comps entity comps in
  ∃ w', create_iottwinmaker_entity (S fuel) input entity ws comps check_active w
          = (Ret tt, w') ∧
        entity_events (trace w') =
          (waited check_active ws (entity_id entity) ++
           [EvCreateEntity (entity_ntt entity ws "$ROOT") comps';
            EvGetEntity ws (entity_id entity)] ++
           entity_events (trace w))%list ∧
        remote_entities w' =
          <[(ws, entity_id entity) := (entity_ntt entity ws "$ROOT", comps')]>
            (remote_entities w) ∧
        created_entities w' = created_entities w ∧
        pending_faults w' = [].
Proof.
  intros Hf Hc Hr Hp comps'.
  rewrite create_iottwinmaker_entity_unfold, Hp.
  step entity_exists_absent.
  destruct (own_comps_fault_free entity ws comps
              (emit (EvGetEntity ws (entity_id entity)) w) Hf)
    as (w1 & E1 & Hf1 & Hc1 & Hr1 & Ht1).
  simpl in Hf1, Hc1, Hr1, Ht1.
  norm. erewrite bind_ret_eq by exact E1. cbn beta iota.
  norm. fold (entity_ntt entity ws "$ROOT"). fold comps'.
  rewrite (create_entity_api_fresh comps' (entity_ntt entity ws "$ROOT"));
    [|simpl; congruence..].
  eexists. split; [done|].
  destruct check_active; simpl; rewrite Ht1; simpl; rewrite Hr1, Hc1.
  all: split_and!; auto; congruence.
Qed.

(** Resolving a record that does not exist and whose parent neither
    exists nor is defined by the input. *)
Lemma resolve_with_missing_parent fuel input entity ws comps check_active w p :
  pending_faults w = [] →
  created_entities w !! entity_id entity = None →
  remote_entities w !! (ws, entity_id entity) = None →
  parent_entity_id entity = Some p →
  created_entities w !! p = None →
  remote_entities w !! (ws, p) = None →
  get_parent_from_input input p = None →
  p ≠ entity_id entity →
  let comps' := own_comps entity comps in
  let root := create_root p (parent_name entity) ws in
  ∃ w', create_iottwinmaker_entity (S fuel) input entity ws comps check_active w
          = (Ret tt, w') ∧
        entity_events (trace w') =
          (waited check_active ws (entity_id entity) ++
           [EvCreateEntity (entity_ntt entity ws p) comps';
            EvWaitEntity ws p; EvCreateEntity root comps';
            EvGetEntity ws p; EvGetEntity ws (entity_id entity)] ++
           entity_events (trace w))%list ∧
        remote_entities w' =
          <[(ws, entity_id entity) := (entity_ntt entity ws p, comps')]>
            (<[(ws, p) := (root, comps')]> (remote_entities w)) ∧
        created_entities w' = created_entities w ∧
        pending_faults w' = [].
Proof.
  intros Hf Hc Hr Hp Hcp Hrp Hin Hne comps' root.
  rewrite create_iottwinmaker_entity_unfold, Hp, Hin.
  step entity_exists_absent.
  destruct (own_comps_fault_free entity ws comps
              (emit (EvGetEntity ws (entity_id entity)) w) Hf)
    as (w1 & E1 & Hf1 & Hc1 & Hr1 & Ht1).
  simpl in Hf1, Hc1, Hr1, Ht1.
  norm. erewrite bind_ret_eq by exact E1. cbn beta iota.
  step entity_exists_absent; [|congruence..].
  norm. erewrite bind_ret_eq.
  2:{ apply (create_entity_api_fresh _
               (create_root p (parent_name entity) ws) true);
        simpl; congruence. }
  norm. fold (entity_ntt entity ws p). fold comps' root.
  rewrite (create_entity_api_fresh comps' (entity_ntt entity ws p)).
  2:{ simpl. congruence. }
  2:{ simpl. rewrite lookup_insert_ne by congruence. congruence. }
  eexists. split; [done|].
  destruct check_active; simpl; rewrite Ht1; simpl; rewrite Hr1, Hc1.
  all: split_and!; auto; congruence.
Qed.

(** Resolving a record that does not exist and whose parent does not exist
    either, is defined by the input and names no parent itself. *)
Lemma resolve_with_parent_record fuel input entity ws comps check_active w p q :
  pending_faults w = [] →
  created_entities w !! entity_id entity = None →
  remote_entities w !! (ws, entity_id entity) = None →
  parent_entity_id entity = Some p →
  created_entities w !! p = None →
  remote_entities w !! (ws, p) = None →
  get_parent_from_input input p = Some q →
  parent_entity_id q = None →
  p ≠ entity_id entity →
  let comps' := own_comps entity comps in
  ∃ w', create_iottwinmaker_entity (S (S fuel)) input entity ws comps
          check_active w = (Ret tt, w') ∧
        entity_events (trace w') =
          (waited check_active ws (entity_id entity) ++
           [EvCreateEntity (entity_ntt entity ws p) comps';
            EvWaitEntity ws p;
            EvCreateEntity (entity_ntt q ws "$ROOT") (own_comps q comps');
            EvGetEntity ws p; EvGetEntity ws p;
            EvGetEntity ws (entity_id entity)] ++
           entity_events (trace w))%list.
Proof.
  intros Hf Hc Hr Hp Hcp Hrp Hin Hq Hne comps'.
  pose proof (get_parent_from_input_id _ _ _ Hin) as Hqid.
  rewrite create_iottwinmaker_entity_unfold, Hp, Hin.
  step entity_exists_absent.
  destruct (own_comps_fault_free entity ws comps
              (emit (EvGetEntity ws (entity_id entity)) w) Hf)
    as (w1 & E1 & Hf1 & Hc1 & Hr1 & Ht1).
  simpl in Hf1, Hc1, Hr1, Ht1.
  norm. erewrite bind_ret_eq by exact E1. cbn beta iota.
  step entity_exists_absent; [|congruence..].
  fold comps'.
  destruct (resolve_without_parent fuel input q ws comps' true
              (emit (EvGetEntity ws p) w1))
    as (w2 & E2 & Ht2 & Hr2 & Hc2 & Hf2);
    [simpl; rewrite ?Hqid; congruence..|].
  norm. erewrite bind_ret_eq by exact E2. cbn beta iota.
  norm. fold (entity_ntt entity ws p).
  rewrite (create_entity_api_fresh comps' (entity_ntt entity ws p)).
  2:{ done. }
  2:{ simpl. rewrite Hr2. simpl. rewrite Hqid.
      rewrite lookup_insert_ne by congruence. congruence. }
  eexists. split; [done|].
  destruct check_active; simpl; rewrite Ht2; simpl; rewrite Ht1, Hqid; done.
Qed.

(** ** The synthetic root and the payload it carries *)

(** C7: when the parent is named by the sentinel ["$ROOT"] and a synthetic
    root is created for it, the created root has the name and the
    description ["ROOT"]. *)
Theorem sentinel_root_is_named_ROOT fuel input entity ws comps check_active w p :
  pending_faults w = [] →
  In entity input →
  created_entities w !! entity_id entity = None →
  remote_entities w !! (ws, entity_id entity) = None →
  parent_entity_id entity = Some p →
  parent_name entity = Some "$ROOT" →
  created_entities w !! p = None →
  remote_entities w !! (ws, p) = None →
  get_parent_from_input input p = None →
  let r := create_iottwinmaker_entity (S fuel) input entity ws comps
             check_active w in
  let root := {| entityName := Some "ROOT"; entityId := p;
                 parentEntityId := None; ntt_description := Some "ROOT";
                 workspaceId := ws |} in
  create_root p (parent_name entity) ws = root ∧
  r.1 = Ret tt ∧
  In (EvCreateEntity root (own_comps entity comps)) (trace r.2) ∧
  remote_entities r.2 !! (ws, p) = Some (root, own_comps entity comps).
Proof.
  intros Hf Hin Hc Hr Hp Hn Hcp Hrp Hg r root.
  assert (p ≠ entity_id entity) as Hne.
  { intros ->. apply get_parent_from_input_finds in Hin.
    rewrite Hg in Hin. by destruct Hin. }
  assert (create_root p (parent_name entity) ws = root) as Hroot.
  { by rewrite Hn. }
  destruct (resolve_with_missing_parent fuel input entity ws comps
              check_active w p) as (w' & E & Ht & Hr' & _); try done.
  subst r. rewrite E. simpl. rewrite Hroot in *. split_and!; try done.
  - assert (In (EvCreateEntity root (own_comps entity comps))
              (entity_events (trace w'))) as H.
    { rewrite Ht. apply in_or_app. right. simpl. tauto. }
    unfold entity_events in H. by apply filter_In in H as [H _].
  - rewrite Hr'. rewrite lookup_insert_ne by congruence.
    by rewrite lookup_insert_eq.
Qed.

Lemma sentinel_root_is_named_ROOT_witness :
  let r := create_iottwinmaker_entity 1 [orphan_child] orphan_child "ws" None
             false empty_world in
  create_root "orphan" (parent_name orphan_child) "ws" = orphan_root ∧
  r.1 = Ret tt ∧
  In (EvCreateEntity orphan_root (own_comps orphan_child None)) (trace r.2) ∧
  remote_entities r.2 !! ("ws", "orphan")
    = Some (orphan_root, own_comps orphan_child None).
Proof.
  apply (sentinel_root_is_named_ROOT 0 [orphan_child] orphan_child "ws" None
           false empty_world "orphan"); try reflexivity.
  simpl. tauto.
Defined.

(** C1, as stated, fails: the record "x" declares the component type "ct"
    and its parent "orphan" is not defined by the input; the synthetic
    root "orphan" is created with the payload built for "x". *)
Lemma payload_reaches_synthetic_root :
  let r := create_iottwinmaker_entity 1 [orphan_child] orphan_child "ws" None
             false empty_world in
  truthy (component_type orphan_child) = true ∧
  entityId orphan_root ≠ entity_id orphan_child ∧
  trace r.2 =
    [EvCreateEntity (entity_ntt orphan_child "ws" "orphan")
       (Some (payload orphan_child));
     EvWaitEntity "ws" "orphan";
     EvCreateEntity orphan_root (Some (payload orphan_child));
     EvGetEntity "ws" "orphan"; EvCacheComponentType "ct";
     EvWaitComponentType "ws" "ct"; EvCreateComponentType "ws" "ct";
     EvListComponentTypes "ws" "ct"; EvGetEntity "ws" "x"].
Proof. vm_compute. split_and!; [reflexivity|discriminate|reflexivity]. Qed.

(** ** Whose payload a creation call carries *)

Lemma Owned_refl ws input w : Owned ws input w w.
Proof. by exists []. Qed.

Lemma Owned_emit ws input w0 w ev :
  Owned ws input w0 w → carries_own_payload ws input ev →
  Owned ws input w0 (emit ev w).
Proof.
  intros (evs & E & H) Hev. exists (ev :: evs). simpl. rewrite E.
  split; [done|by constructor].
Qed.

Lemma Owned_set_pending_faults ws input w0 f w :
  Owned ws input w0 w → Owned ws input w0 (set_pending_faults f w).
Proof. done. Qed.

Lemma Owned_set_created_entities ws input w0 f w :
  Owned ws input w0 w → Owned ws input w0 (set_created_entities f w).
Proof. done. Qed.

Lemma Owned_set_created_component_types ws input w0 f w :
  Owned ws input w0 w → Owned ws input w0 (set_created_component_types f w).
Proof. done. Qed.

Lemma Owned_set_remote_component_types ws input w0 f w :
  Owned ws input w0 w → Owned ws input w0 (set_remote_component_types f w).
Proof. done. Qed.

Lemma Owned_set_remote_workspaces ws input w0 f w :
  Owned ws input w0 w → Owned ws input w0 (set_remote_workspaces f w).
Proof. done. Qed.

Lemma Owned_set_remote_buckets ws input w0 f w :
  Owned ws input w0 w → Owned ws input w0 (set_remote_buckets f w).
Proof. done. Qed.

Lemma Owned_set_remote_entities ws input w0 f w :
  Owned ws input w0 w → Owned ws input w0 (set_remote_entities f w).
Proof. done. Qed.

(** Rebuilds [Owned] for a world built by nested updates, one update at a
    time. *)
Ltac owned_tac :=
  lazymatch goal with
  | |- Owned _ _ _ (emit _ _) =>
      apply Owned_emit; [owned_tac | first [exact I | assumption]]
  | |- Owned _ _ _ (set_pending_faults _ _) =>
      apply Owned_set_pending_faults; owned_tac
  | |- Owned _ _ _ (set_created_entities _ _) =>
      apply Owned_set_created_entities; owned_tac
  | |- Owned _ _ _ (set_created_component_types _ _) =>
      apply Owned_set_created_component_types; owned_tac
  | |- Owned _ _ _ (set_remote_component_types _ _) =>
      apply Owned_set_remote_component_types; owned_tac
  | |- Owned _ _ _ (set_remote_workspaces _ _) =>
      apply Owned_set_remote_workspaces; owned_tac
  | |- Owned _ _ _ (set_remote_buckets _ _) =>
      apply Owned_set_remote_buckets; owned_tac
  | |- Owned _ _ _ (set_remote_entities _ _) =>
      apply Owned_set_remote_entities; owned_tac
  | |- Owned _ _ _ _ => assumption
  end.

Lemma entity_exists_owned ws input w0 ws' id w :
  Owned ws input w0 w →
  wp (entity_exists ws' id)
     (fun o w' => Owned ws input w0 w' ∧ ∃ b, o = Ret b) w.
Proof.
  intros HS. unfold entity_exists, get_entity. wp_go.
  all: split; [owned_tac|by eexists].
Qed.

Lemma create_properties_component_owned ws input w0 ws' cid w :
  Owned ws input w0 w →
  wp (create_properties_component ws' cid)
     (fun o w' => Owned ws input w0 w') w.
Proof.
  intros HS.
  unfold create_properties_component, list_component_types,
    client_create_component_type, wait_over_component_type.
  wp_go.
  all: owned_tac.
Qed.

Lemma create_workspace_owned ws input w0 ws' role w :
  Owned ws input w0 w →
  wp (create_workspace ws' role) (fun o w' => Owned ws input w0 w') w.
Proof.
  intros HS.
  unfold create_workspace, list_workspaces, s3_create_bucket,
    s3_wait_bucket_exists, client_create_workspace, get_role_from_identity.
  wp_go.
  all: owned_tac.
Qed.

Lemma create_entity_api_owned ws input w0 comps ntt ws' check_active w :
  carries_own_payload ws input (EvCreateEntity ntt comps) →
  Owned ws input w0 w →
  wp (create_entity_api comps ntt ws' check_active)
     (fun o w' => Owned ws input w0 w') w.
Proof.
  intros Hp HS.
  unfold create_entity_api, client_create_entity, wait_over_entity.
  destruct comps, check_active.
  all: wp_go.
  all: owned_tac.
Qed.

Lemma populate_assets_owned ws input w0 entity cid ws' w :
  Owned ws input w0 w →
  wp (populate_assets entity cid ws')
     (fun o w' => Owned ws input w0 w' ∧
                  ∀ a, o = Ret a →
                       a = Some {| componentTypeId := cid;
                                   comp_properties := properties entity |}) w.
Proof.
  intros HS. unfold populate_assets. apply wp_bind.
  eapply wp_mono; [by apply create_properties_component_owned|].
  intros [[]|e|] w' HS'; unfold bind_post; try done.
  wp_prim. split; [done|]. by intros a [= <-].
Qed.

Lemma create_iottwinmaker_entity_owned ws input w0 fuel :
  ∀ entity comps check_active w,
  In entity input →
  Owned ws input w0 w →
  wp (create_iottwinmaker_entity fuel input entity ws comps check_active)
     (fun o w' => Owned ws input w0 w') w.
Proof.
  induction fuel as [|fuel IH]; intros entity comps check_active w Hin HS.
  { done. }
  rewrite create_iottwinmaker_entity_unfold.
  apply wp_bind. eapply wp_mono; [by apply entity_exists_owned|].
  intros o w2 (HS2 & b & ->). unfold bind_post.
  destruct b; [by wp_prim|].
  apply wp_bind.
  eapply (wp_mono _ (fun o w' => Owned ws input w0 w' ∧
            ∀ a, o = Ret a →
                 truthy (component_type entity) = true →
                 a = Some (payload entity))).
  { destruct (truthy (component_type entity)) eqn:Ht.
    - eapply wp_mono; [by apply populate_assets_owned|].
      intros o w' (HS' & Ha). split; [done|]. by intros a ->%Ha _.
    - wp_prim. split; [done|]. by intros a _ ?. }
  intros [comps'|e|] w3 [HS3 Hp3]; unfold bind_post; try done.
  specialize (Hp3 _ eq_refl).
  apply wp_bind.
  eapply (wp_mono _ (fun o w' => Owned ws input w0 w')).
  { destruct (parent_entity_id entity) as [pid|] eqn:Hpid; [|by wp_prim].
    apply wp_bind. eapply wp_mono; [by apply entity_exists_owned|].
    intros o w4 (HS4 & b & ->). unfold bind_post.
    destruct b; [by wp_go|].
    apply wp_bind.
    eapply (wp_mono _ (fun o w' => Owned ws input w0 w')).
    { destruct (get_parent_from_input input pid) as [parent|] eqn:Hg.
      - apply IH; [by eapply get_parent_from_input_In|done].
      - apply create_entity_api_owned; [|done].
        exists entity. split_and!; [done| |done]. simpl. by exists pid. }
    intros [[]|e|] w5 HS5; unfold bind_post; done. }
  intros [p|e|] w4 HS4; unfold bind_post; try done.
  apply create_entity_api_owned; [|done].
  exists entity. by split_and!.
Qed.

Lemma process_records_loop_owned ws all w0 fuel comp_id rest :
  ∀ w,
  (∀ r, In r rest → In r all) →
  Owned ws all w0 w →
  wp (process_records_loop fuel all rest ws comp_id)
     (fun o w' => Owned ws all w0 w') w.
Proof.
  induction rest as [|entity rest IH]; intros w Hsub HS; simpl.
  { by wp_prim. }
  apply wp_bind. eapply wp_mono; [by apply populate_assets_owned|].
  intros [a|e|] w2 (HS2 & _); unfold bind_post; try done.
  apply wp_bind. eapply wp_mono.
  { apply create_iottwinmaker_entity_owned; [apply Hsub; by left|done]. }
  intros [[]|e|] w3 HS3; unfold bind_post; try done.
  apply IH; [|done]. intros r Hr. apply Hsub. by right.
Qed.

Lemma create_iottwinmaker_entities_owned fuel j_data ws comp_id role w0 :
  wp (create_iottwinmaker_entities fuel j_data ws comp_id role)
     (fun o w' => Owned ws (entities j_data) w0 w') w0.
Proof.
  unfold create_iottwinmaker_entities, process_records.
  apply wp_bind. eapply wp_mono.
  { apply create_workspace_owned. apply Owned_refl. }
  intros [[]|e|] w2 HS2; unfold bind_post; try done.
  apply wp_bind. eapply wp_mono; [by apply create_properties_component_owned|].
  intros [[]|e|] w3 HS3; unfold bind_post; try done.
  by apply process_records_loop_owned.
Qed.

(** C1, amended: in every run, whatever the input, the failures and the
    outcome, a creation call is the request of a record of the input, or
    is for the synthetic root of the parent that a record names, and it
    carries the payload built for that record when the record declares a
    component type: so the creation call of a record that declares a
    component type carries the record's own payload, whether the record
    has no parent, a parent that exists, a parent in the input or a parent
    that is missing, and so does the synthetic root created for its
    parent.  When the parent is not defined by the input and does not
    exist, and no call fails, both calls are issued: the root is created,
    with the payload of the record, before the record. *)
Theorem payload_goes_to_owner_and_synthetic_root ws input :
  (∀ fuel j_data comp_id role w0,
     entities j_data = input →
     let r := create_iottwinmaker_entities fuel j_data ws comp_id role w0 in
     ∃ evs, trace r.2 = (evs ++ trace w0)%list ∧
            Forall (carries_own_payload ws input) evs) ∧
  (∀ fuel entity comps check_active w p,
     pending_faults w = [] →
     In entity input →
     truthy (component_type entity) = true →
     created_entities w !! entity_id entity = None →
     remote_entities w !! (ws, entity_id entity) = None →
     parent_entity_id entity = Some p →
     created_entities w !! p = None →
     remote_entities w !! (ws, p) = None →
     get_parent_from_input input p = None →
     let r := create_iottwinmaker_entity (S fuel) input entity ws comps
                check_active w in
     let mine := Some (payload entity) in
     r.1 = Ret tt ∧
     entity_events (trace r.2) =
       (waited check_active ws (entity_id entity) ++
        [EvCreateEntity (entity_ntt entity ws p) mine;
         EvWaitEntity ws p;
         EvCreateEntity (create_root p (parent_name entity) ws) mine;
         EvGetEntity ws p; EvGetEntity ws (entity_id entity)] ++
        entity_events (trace w))%list).
Proof.
  split.
  - intros fuel j_data comp_id role w0 <-.
    apply create_iottwinmaker_entities_owned.
  - intros fuel entity comps check_active w p Hf Hin Hct Hc Hr Hp Hcp Hrp Hg
      r mine.
    assert (p ≠ entity_id entity) as Hne.
    { intros ->. apply get_parent_from_input_finds in Hin.
      rewrite Hg in Hin. by destruct Hin. }
    assert (own_comps entity comps = mine) as Hown.
    { unfold own_comps. by rewrite Hct. }
    destruct (resolve_with_missing_parent fuel input entity ws comps
                check_active w p) as (w' & E & Ht & _); try done.
    subst r. rewrite E. simpl. by rewrite Hown in Ht.
Qed.

Lemma payload_goes_to_owner_and_synthetic_root_witness :
  let r := create_iottwinmaker_entity 1 [orphan_child] orphan_child "ws" None
             false empty_world in
  let mine := Some (payload orphan_child) in
  r.1 = Ret tt ∧
  entity_events (trace r.2) =
    (waited false "ws" (entity_id orphan_child) ++
     [EvCreateEntity (entity_ntt orphan_child "ws" "orphan") mine;
      EvWaitEntity "ws" "orphan";
      EvCreateEntity (create_root "orphan" (parent_name orphan_child) "ws")
        mine;
      EvGetEntity "ws" "orphan"; EvGetEntity "ws" (entity_id orphan_child)] ++
     entity_events (trace empty_world))%list.
Proof.
  apply (proj2 (payload_goes_to_owner_and_synthetic_root "ws" [orphan_child])
           0 orphan_child None false empty_world "orphan");
    try reflexivity.
  simpl. tauto.
Defined.

(** ** A run over what exists already *)

Lemma quiet_refl w : quiet w w.
Proof. split; try done. by exists []. Qed.

Lemma quiet_trans w1 w2 w3 : quiet w1 w2 → quiet w2 w3 → quiet w1 w3.
Proof.
  intros [? ? ? ? ? (e1 & H1 & F1)] [? ? ? ? ? (e2 & H2 & F2)].
  split; try congruence.
  exists (e2 ++ e1)%list. split; [by rewrite H2, H1, app_assoc|].
  by apply Forall_app.
Qed.

Lemma quiet_emit ev w : is_creation ev = false → quiet w (emit ev w).
Proof. intros H. split; try done. exists [ev]. split; [done|]. by constructor. Qed.

Lemma quiet_cache_entity id w :
  quiet w (set_created_entities (fun m => <[id := 1%Z]> m) w).
Proof. split; try done. by exists []. Qed.

Lemma quiet_cache_component_type c w :
  quiet w (set_created_component_types (fun m => <[c := 1%Z]> m) w).
Proof. split; try done. by exists []. Qed.

Lemma wp_api_call_no_faults ev (Q : outcome unit → World → Prop) w :
  pending_faults w = [] → Q (Ret tt) (emit ev w) → wp (api_call ev) Q w.
Proof. intros Hf HQ. unfold wp. by rewrite api_call_no_faults. Qed.

(** One step of a computation when no fault is pending. *)
Ltac wp_prim_ff :=
  lazymatch goal with
  | |- wp (api_call _) _ _ => apply wp_api_call_no_faults; [by wsimpl|]
  | _ => wp_prim
  end;
  unfold bind_post; wsimpl.

Ltac wp_go_ff := repeat first [wp_prim_ff | wp_case].

Ltac quiet_tac :=
  repeat first
    [ apply quiet_refl
    | (eapply quiet_trans;
       [| first [ apply quiet_cache_entity | apply quiet_cache_component_type
                | (apply quiet_emit; reflexivity) ] ]) ].

Lemma entity_exists_quiet ws id w :
  pending_faults w = [] →
  (is_Some (created_entities w !! id) ∨ is_Some (remote_entities w !! (ws, id))) →
  wp (entity_exists ws id) (fun o w' => o = Ret true ∧ quiet w w') w.
Proof.
  intros Hf Hex. unfold entity_exists, get_entity.
  do 2 wp_prim.
  destruct (bool_decide _) eqn:Hc; cbn beta iota.
  { wp_prim. split; [done|apply quiet_refl]. }
  apply not_cached_lookup in Hc.
  destruct Hex as [[x Hx]|[x Hx]]; [congruence|].
  wp_go_ff; try congruence.
  split; [done|]. quiet_tac.
Qed.

Lemma create_properties_component_quiet ws comp_id w :
  pending_faults w = [] →
  (∀ c, comp_id = Some c → c ≠ "" → (ws, c) ∈ remote_component_types w) →
  wp (create_properties_component ws comp_id)
     (fun o w' => o = Ret tt ∧ quiet w w') w.
Proof.
  intros Hf Hex.
  unfold create_properties_component, list_component_types.
  do 2 wp_prim.
  destruct comp_id as [c|]; simpl; [|wp_prim; split; [done|apply quiet_refl]].
  destruct (bool_decide (is_Some _)) eqn:Hc; simpl.
  { wp_prim. split; [done|apply quiet_refl]. }
  destruct (String.eqb_spec c ""); simpl;
    [wp_prim; split; [done|apply quiet_refl]|].
  do 4 wp_prim_ff.
  rewrite bool_decide_eq_true_2.
  2:{ apply elem_of_component_type_summaries. simpl. auto. }
  wp_go_ff. split; [done|]. quiet_tac.
Qed.

Lemma create_workspace_quiet ws role w :
  pending_faults w = [] →
  ws ∈ remote_workspaces w →
  wp (create_workspace ws role) (fun o w' => o = Ret tt ∧ quiet w w') w.
Proof.
  intros Hf Hex. unfold create_workspace, list_workspaces.
  do 4 wp_prim_ff.
  rewrite bool_decide_eq_true_2 by (by apply elem_of_elements).
  wp_prim. split; [done|]. quiet_tac.
Qed.

Lemma create_iottwinmaker_entity_quiet fuel input entity ws comps check_active w :
  pending_faults w = [] →
  (is_Some (created_entities w !! entity_id entity) ∨
   is_Some (remote_entities w !! (ws, entity_id entity))) →
  wp (create_iottwinmaker_entity (S fuel) input entity ws comps check_active)
     (fun o w' => o = Ret tt ∧ quiet w w') w.
Proof.
  intros Hf Hex. rewrite create_iottwinmaker_entity_unfold.
  apply wp_bind. eapply wp_mono; [by apply entity_exists_quiet|].
  intros o w' [-> Hq]. unfold bind_post. by wp_prim.
Qed.

Lemma populate_assets_quiet entity ws comp_id w :
  pending_faults w = [] →
  (∀ c, comp_id = Some c → c ≠ "" → (ws, c) ∈ remote_component_types w) →
  wp (populate_assets entity comp_id ws)
     (fun o w' => (∃ c, o = Ret c) ∧ quiet w w') w.
Proof.
  intros Hf Hex. unfold populate_assets.
  apply wp_bind. eapply wp_mono; [by apply create_properties_component_quiet|].
  intros o w' [-> Hq]. unfold bind_post. wp_prim. split; [by eexists|done].
Qed.

Lemma process_records_loop_quiet fuel all ws comp_id rest :
  ∀ w,
  pending_faults w = [] →
  (∀ c, comp_id = Some c → c ≠ "" → (ws, c) ∈ remote_component_types w) →
  (∀ r, In r rest → is_Some (remote_entities w !! (ws, entity_id r))) →
  wp (process_records_loop (S fuel) all rest ws comp_id)
     (fun o w' => o = Ret tt ∧ quiet w w') w.
Proof.
  induction rest as [|entity rest IH]; intros w Hf Hct Hex; simpl.
  { wp_prim. split; [done|apply quiet_refl]. }
  apply wp_bind. eapply wp_mono; [by apply populate_assets_quiet|].
  intros o w1 [[c ->] Hq1]. unfold bind_post.
  apply wp_bind.
  eapply wp_mono.
  { apply (create_iottwinmaker_entity_quiet fuel all entity ws c false).
    - destruct Hq1. congruence.
    - right. destruct Hq1. rewrite quiet_entities0. apply Hex. by left. }
  intros o w2 [-> Hq2]. unfold bind_post.
  assert (quiet w w2) as Hq by (by eapply quiet_trans).
  eapply wp_mono.
  { apply IH.
    - destruct Hq. congruence.
    - destruct Hq. rewrite quiet_component_types0. done.
    - intros r Hr. destruct Hq. rewrite quiet_entities0. apply Hex. by right. }
  intros o w3 [-> Hq3]. split; [done|by eapply quiet_trans].
Qed.

Lemma create_iottwinmaker_entities_quiet fuel j_data ws comp_id role w :
  pending_faults w = [] →
  ws ∈ remote_workspaces w →
  (∀ c, comp_id = Some c → c ≠ "" → (ws, c) ∈ remote_component_types w) →
  (∀ r, In r (entities j_data) →
        is_Some (remote_entities w !! (ws, entity_id r))) →
  wp (create_iottwinmaker_entities (S fuel) j_data ws comp_id role)
     (fun o w' => o = Ret tt ∧ quiet w w') w.
Proof.
  intros Hf Hws Hct Hex. unfold create_iottwinmaker_entities, process_records.
  apply wp_bind. eapply wp_mono; [by apply create_workspace_quiet|].
  intros o w1 [-> Hq1]. unfold bind_post.
  apply wp_bind. eapply wp_mono.
  { apply create_properties_component_quiet.
    - destruct Hq1. congruence.
    - destruct Hq1. by rewrite quiet_component_types0. }
  intros o w2 [-> Hq2]. unfold bind_post.
  assert (quiet w w2) as Hq by (by eapply quiet_trans).
  eapply wp_mono.
  { apply process_records_loop_quiet.
    - destruct Hq. congruence.
    - destruct Hq. by rewrite quiet_component_types0.
    - destruct Hq. by rewrite quiet_entities0. }
  intros o w3 [-> Hq3]. split; [done|by eapply quiet_trans].
Qed.

(** ** Running the import twice *)

(** C3: when a first run over an input has returned, a second run over the
    same input against the same workspace, with no failing call, returns
    after existence checks only: it issues no creation call and leaves the
    services as they were, whatever its caches hold at the start. *)
Theorem second_run_creates_nothing fuel1 fuel2 j_data ws comp_id role1 role2
    w0 w1 w1' :
  well_started ws w0 →
  create_iottwinmaker_entities fuel1 j_data ws comp_id role1 w0 = (Ret tt, w1) →
  remote_workspaces w1' = remote_workspaces w1 →
  remote_component_types w1' = remote_component_types w1 →
  remote_entities w1' = remote_entities w1 →
  pending_faults w1' = [] →
  let r := create_iottwinmaker_entities (S fuel2) j_data ws comp_id role2 w1' in
  r.1 = Ret tt ∧
  (∃ evs, trace r.2 = (evs ++ trace w1')%list ∧
          Forall (fun ev => is_creation ev = false) evs) ∧
  remote_workspaces r.2 = remote_workspaces w1 ∧
  remote_component_types r.2 = remote_component_types w1 ∧
  remote_entities r.2 = remote_entities w1.
Proof.
  intros (Ht & Hc & Hct) E1 Hws Hcts Hents Hf r.
  assert (Run ws w0 w0 w0) as HR.
  { split; [by apply Inv_init|apply extends_refl]. }
  apply (create_iottwinmaker_entities_run _ _ _ fuel1 j_data comp_id role1)
    in HR.
  unfold wp in HR. rewrite E1 in HR. simpl in HR.
  destruct HR as [_ H]. destruct (H eq_refl) as (H1 & H2 & H3).
  pose proof (create_iottwinmaker_entities_quiet fuel2 j_data ws comp_id
                role2 w1') as Hq.
  unfold wp in Hq. fold r in Hq.
  destruct Hq as [Hret Hq]; try done.
  - by rewrite Hws.
  - by rewrite Hcts.
  - by rewrite Hents.
  - destruct Hq. split_and!; try done; congruence.
Qed.

Lemma second_run_creates_nothing_witness :
  let r := create_iottwinmaker_entities 1 {| entities := [orphan_child] |}
             "ws" None None (new_process orphan_run.2) in
  r.1 = Ret tt ∧
  (∃ evs, trace r.2 = (evs ++ trace (new_process orphan_run.2))%list ∧
          Forall (fun ev => is_creation ev = false) evs) ∧
  remote_workspaces r.2 = remote_workspaces orphan_run.2 ∧
  remote_component_types r.2 = remote_component_types orphan_run.2 ∧
  remote_entities r.2 = remote_entities orphan_run.2.
Proof.
  apply (second_run_creates_nothing 1 0 {| entities := [orphan_child] |}
           "ws" None None None empty_world orphan_run.2
           (new_process orphan_run.2)).
  - apply well_started_fresh; reflexivity.
  - vm_compute. reflexivity.
  - vm_compute. reflexivity.
  - vm_compute. reflexivity.
  - vm_compute. reflexivity.
  - reflexivity.
Defined.

(** ** A run in which no call fails *)

Lemma created_in_cons_other ws id ev tr :
  is_create_entity ev = false →
  created_in ws id (ev :: tr) → created_in ws id tr.
Proof.
  intros Hev (ntt & c & [->|H] & ?); [done|]. by exists ntt, c.
Qed.

Lemma Steady_init ws input w0 :
  trace w0 = [] → pending_faults w0 = [] → Steady ws input w0 w0.
Proof.
  intros Ht Hf. split; rewrite ?Ht; simpl; try done.
  by intros id (? & ? & [] & _).
Qed.

Lemma Steady_emit ws input w0 w ev :
  Steady ws input w0 w → is_create_entity ev = false →
  Steady ws input w0 (emit ev w).
Proof.
  intros [] Hev. split; simpl; try done.
  - intros id H. apply created_in_cons_other in H; auto.
  - split_and!; [by destruct ev| |done].
    unfold follows_ok, settled in *.
    destruct (trace w) as [|[] ?]; try done.
  - by destruct ev.
Qed.

Lemma Steady_cache_entity ws input w0 w f :
  Steady ws input w0 w → Steady ws input w0 (set_created_entities f w).
Proof. intros []. by split. Qed.

Lemma Steady_cache_component_type ws input w0 w f :
  Steady ws input w0 w → Steady ws input w0 (set_created_component_types f w).
Proof. intros []. by split. Qed.

Lemma Steady_remote_component_types ws input w0 w f :
  Steady ws input w0 w → Steady ws input w0 (set_remote_component_types f w).
Proof. intros []. by split. Qed.

Lemma Steady_remote_workspaces ws input w0 w f :
  Steady ws input w0 w → Steady ws input w0 (set_remote_workspaces f w).
Proof. intros []. by split. Qed.

Lemma Steady_remote_buckets ws input w0 w f :
  Steady ws input w0 w → Steady ws input w0 (set_remote_buckets f w).
Proof. intros []. by split. Qed.

(** A creation that the service accepts, waited for or not. *)
Lemma Steady_created ws input w0 w ntt c (check_active : bool) :
  Steady ws input w0 w →
  Inv ws w0 w →
  creation_origin ws input w0 (trace w) ntt →
  remote_entities w !! (ws, entityId ntt) = None →
  (check_active = false → parentEntityId ntt ≠ None) →
  Steady ws input w0
    (if check_active
     then emit (EvWaitEntity ws (entityId ntt))
            (set_remote_entities
               (fun m => <[(ws, entityId ntt) := (ntt, c)]> m)
               (emit (EvCreateEntity ntt c) w))
     else set_remote_entities
            (fun m => <[(ws, entityId ntt) := (ntt, c)]> m)
            (emit (EvCreateEntity ntt c) w)).
Proof.
  intros [] HI Hor Hr Hca.
  assert (creation_fresh ws w0 (trace w) ntt) as Hfresh.
  { split.
    - destruct (remote_entities w0 !! (ws, entityId ntt)) as [x|] eqn:E;
        [|done].
      eapply lookup_weaken in E; [|apply HI]. congruence.
    - intros H. apply steady_created0 in H. rewrite Hr in H.
      by apply is_Some_None in H. }
  assert (follows_ok ws (trace w) (EvCreateEntity ntt c)) as Hfo.
  { unfold follows_ok, settled in *. destruct (trace w) as [|[] ?]; done. }
  assert (∀ id, created_in ws id (EvCreateEntity ntt c :: trace w) →
                is_Some (<[(ws, entityId ntt) := (ntt, c)]> (remote_entities w)
                         !! (ws, id))) as Hcr.
  { intros id (ntt' & c' & [[= <- <-]|H] & Hws & <-).
    - rewrite lookup_insert_eq. by eexists.
    - destruct (decide (entityId ntt = entityId ntt')) as [->|Hne].
      + rewrite lookup_insert_eq. by eexists.
      + rewrite lookup_insert_ne by congruence.
        apply steady_created0. by exists ntt', c'. }
  destruct check_active; split; simpl; try done.
  - intros id H. apply created_in_cons_other in H; auto.
  - by apply Hca.
Qed.

Lemma wp_and {A} (m : M A) (Q1 Q2 : outcome A → World → Prop) w :
  wp m Q1 w → wp m Q2 w → wp m (fun o w' => Q1 o w' ∧ Q2 o w') w.
Proof. unfold wp. auto. Qed.

(** Rebuilds [Steady] for a world built by nested updates in which no
    entity is created. *)
Ltac steady_tac :=
  lazymatch goal with
  | H : Steady ?ws ?i ?w0 ?w |- Steady ?ws ?i ?w0 ?w => exact H
  | |- Steady _ _ _ (set_created_entities _ _) =>
      apply Steady_cache_entity; steady_tac
  | |- Steady _ _ _ (set_created_component_types _ _) =>
      apply Steady_cache_component_type; steady_tac
  | |- Steady _ _ _ (set_remote_component_types _ _) =>
      apply Steady_remote_component_types; steady_tac
  | |- Steady _ _ _ (set_remote_workspaces _ _) =>
      apply Steady_remote_workspaces; steady_tac
  | |- Steady _ _ _ (set_remote_buckets _ _) =>
      apply Steady_remote_buckets; steady_tac
  | |- Steady _ _ _ (emit _ _) =>
      apply Steady_emit; [steady_tac | reflexivity]
  end.

Lemma entity_exists_steady ws input w0 id w :
  Steady ws input w0 w →
  wp (entity_exists ws id)
     (fun o w' => Steady ws input w0 w' ∧
                  (o = Ret false → remote_entities w' !! (ws, id) = None)) w.
Proof.
  intros HS. pose proof (steady_faults _ _ _ _ HS) as Hf.
  unfold entity_exists, get_entity.
  do 2 wp_prim.
  destruct (bool_decide _) eqn:Hc; cbn beta iota.
  { wp_prim. done. }
  wp_go_ff; (split; [steady_tac|done]).
Qed.

Lemma create_properties_component_steady ws input w0 comp_id w :
  Steady ws input w0 w →
  wp (create_properties_component ws comp_id)
     (fun o w' => Steady ws input w0 w') w.
Proof.
  intros HS. pose proof (steady_faults _ _ _ _ HS) as Hf.
  unfold create_properties_component, list_component_types,
    client_create_component_type, wait_over_component_type.
  do 2 wp_prim.
  destruct comp_id as [c|]; simpl; [|by wp_prim].
  destruct (bool_decide (is_Some _)) eqn:Hc; simpl; [by wp_prim|].
  destruct (String.eqb_spec c ""); simpl; [by wp_prim|].
  wp_go_ff; steady_tac.
Qed.

Lemma populate_assets_steady ws input w0 entity comp_id w :
  Steady ws input w0 w →
  wp (populate_assets entity comp_id ws)
     (fun o w' => Steady ws input w0 w') w.
Proof.
  intros HS. unfold populate_assets. apply wp_bind.
  eapply wp_mono; [by apply create_properties_component_steady|].
  intros [[]|e|] w' HS'; unfold bind_post; done.
Qed.

Lemma create_workspace_steady ws input w0 ws' role w :
  Steady ws input w0 w →
  wp (create_workspace ws' role) (fun o w' => Steady ws input w0 w') w.
Proof.
  intros HS. pose proof (steady_faults _ _ _ _ HS) as Hf.
  unfold create_workspace, list_workspaces, s3_create_bucket,
    s3_wait_bucket_exists, client_create_workspace, get_role_from_identity.
  wp_go_ff; steady_tac.
Qed.

Lemma create_entity_api_steady ws input w0 comps ntt check_active w :
  Steady ws input w0 w →
  Inv ws w0 w →
  creation_origin ws input w0 (trace w) ntt →
  (check_active = false → parentEntityId ntt ≠ None) →
  wp (create_entity_api comps ntt ws check_active)
     (fun o w' => o = Ret tt → Steady ws input w0 w') w.
Proof.
  intros HS HI Hor Hca. pose proof (steady_faults _ _ _ _ HS) as Hf.
  pose proof (proj1 Hor) as Hws.
  unfold create_entity_api, client_create_entity, wait_over_entity.
  destruct comps as [c|]; destruct check_active; wp_go_ff; try done.
  all: intros _; rewrite Hws in *.
  - by apply (Steady_created ws input w0 w ntt (Some c) true).
  - by apply (Steady_created ws input w0 w ntt (Some c) false).
  - by apply (Steady_created ws input w0 w ntt None true).
  - by apply (Steady_created ws input w0 w ntt None false).
Qed.

Lemma create_root_origin ws input w0 older pid entity :
  get_parent_from_input input pid = None →
  In entity input →
  parent_entity_id entity = Some pid →
  creation_origin ws input w0 older (create_root pid (parent_name entity) ws).
Proof.
  intros H Hin Hp. split; [done|]. simpl. split; [done|]. by exists entity.
Qed.

Lemma entity_ntt_origin ws input w0 w entity p :
  Inv ws w0 w →
  get_parent_from_input input (entity_id entity) = Some entity →
  match parent_entity_id entity with
  | Some pid => p = pid ∧ is_Some (remote_entities w !! (ws, pid))
  | None => p = "$ROOT"
  end →
  creation_origin ws input w0 (trace w) (entity_ntt entity ws p).
Proof.
  intros HI Hfirst Hp. split; [done|]. simpl.
  exists entity. split_and!; try done.
  destruct (parent_entity_id entity) as [pid|]; [|done].
  destruct Hp as [-> Hr]. split; [done|].
  by apply (inv_remote_created _ _ _ HI).
Qed.

Lemma create_iottwinmaker_entity_steady ws w0 w1 input fuel :
  ∀ entity comps check_active w,
  Run ws w0 w1 w →
  Steady ws input w0 w →
  get_parent_from_input input (entity_id entity) = Some entity →
  wp (create_iottwinmaker_entity fuel input entity ws comps check_active)
     (fun o w' => Run ws w0 w1 w' ∧
                  (o = Ret tt →
                   Steady ws input w0 w' ∧
                   is_Some (remote_entities w' !! (ws, entity_id entity)))) w.
Proof.
  induction fuel as [|fuel IH]; intros entity comps check_active w HR HS Hfirst.
  { by split. }
  rewrite create_iottwinmaker_entity_unfold.
  apply wp_bind. eapply wp_mono.
  { apply wp_and; [by apply entity_exists_run|
                   by apply (entity_exists_steady ws input w0)]. }
  intros o w2 [(HR2 & b & -> & Hb) [HS2 _]]. unfold bind_post.
  destruct b; [wp_prim; auto|].
  apply wp_bind.
  eapply (wp_mono _ (fun o w' => Run ws w0 w1 w' ∧
                                 ∀ a, o = Ret a → Steady ws input w0 w')).
  { destruct (truthy (component_type entity)).
    - eapply wp_mono.
      { apply wp_and; [by apply populate_assets_run|
                       by apply (populate_assets_steady ws input w0)]. }
      naive_solver.
    - wp_prim. auto. }
  intros [comps'|e|] w3 [HR3 HS3]; unfold bind_post; try by split.
  specialize (HS3 _ eq_refl).
  apply wp_bind.
  eapply (wp_mono _ (fun o w' => Run ws w0 w1 w' ∧ ∀ p, o = Ret p →
     Steady ws input w0 w' ∧
     match parent_entity_id entity with
     | Some pid => p = pid ∧ is_Some (remote_entities w' !! (ws, pid))
     | None => p = "$ROOT"
     end)).
  { destruct (parent_entity_id entity) as [pid|] eqn:Hpid;
      [|wp_prim; naive_solver].
    apply wp_bind. eapply wp_mono.
    { apply wp_and; [by apply entity_exists_run|
                     by apply (entity_exists_steady ws input w0)]. }
    intros o w4 [(HR4 & b & -> & Hb4) [HS4 _]]. unfold bind_post.
    destruct b.
    { wp_go. naive_solver. }
    apply wp_bind.
    eapply (wp_mono _ (fun o w' => Run ws w0 w1 w' ∧
              (o = Ret tt → Steady ws input w0 w' ∧
                            is_Some (remote_entities w' !! (ws, pid))))).
    { destruct (get_parent_from_input input pid) as [parent|] eqn:Hin.
      - pose proof (get_parent_from_input_id _ _ _ Hin) as Hid. subst pid.
        by apply IH.
      - eapply wp_mono.
        { apply wp_and.
          - by apply create_entity_api_run.
          - apply (create_entity_api_steady ws input w0);
              [done|apply HR4| |done].
            apply create_root_origin; [done| |done].
            by eapply get_parent_from_input_In. }
        naive_solver. }
    intros [[]|e|] w5 [HR5 H5]; unfold bind_post; try by split.
    wp_prim. naive_solver. }
  intros [p|e|] w4 [HR4 H4]; unfold bind_post; try by split.
  destruct (H4 p eq_refl) as [HS4 Hp4].
  eapply wp_mono.
  { apply wp_and.
    - apply create_entity_api_run; [done..|]. simpl. intros p' [= <-].
      clear -Hp4. destruct (parent_entity_id entity); naive_solver.
    - apply (create_entity_api_steady ws input w0);
        [done|apply HR4| |done].
      apply (entity_ntt_origin ws input w0 w4 entity p); [apply HR4|done..]. }
  naive_solver.
Qed.

Lemma first_match_of_NoDup input r :
  NoDup (entity_id <$> input) → In r input →
  get_parent_from_input input (entity_id r) = Some r.
Proof.
  induction input as [|r' input IH]; simpl; [done|].
  intros Hnd [->|Hin].
  - by rewrite String.eqb_refl.
  - apply NoDup_cons in Hnd as [Hni Hnd].
    destruct (String.eqb_spec (entity_id r) (entity_id r')) as [E|_]; [|auto].
    destruct Hni. rewrite <- E. apply list_elem_of_fmap. exists r.
    split; [done|]. by apply list_elem_of_In.
Qed.

Lemma process_records_loop_steady ws w0 fuel all comp_id rest :
  ∀ w1 w,
  Run ws w0 w1 w →
  Steady ws all w0 w →
  (∀ r, In r rest → get_parent_from_input all (entity_id r) = Some r) →
  wp (process_records_loop fuel all rest ws comp_id)
     (fun o w' => Run ws w0 w1 w' ∧ (o = Ret tt → Steady ws all w0 w')) w.
Proof.
  induction rest as [|entity rest IH]; intros w1 w HR HS Hfirst; simpl.
  { wp_prim. auto. }
  apply wp_bind. eapply wp_mono.
  { apply wp_and; [by apply populate_assets_run|
                   by apply (populate_assets_steady ws all w0)]. }
  intros o w2 [(HR2 & _ & [->|[e ->]]) HS2]; unfold bind_post; [|by split].
  apply wp_bind.
  eapply wp_mono.
  { apply (create_iottwinmaker_entity_steady ws w0 w1); [done..|].
    apply Hfirst. by left. }
  intros [[]|e|] w3 [HR3 H3]; unfold bind_post; try by split.
  destruct (H3 eq_refl) as [HS3 _].
  apply IH; [done..|]. intros r Hr. apply Hfirst. by right.
Qed.

Lemma create_iottwinmaker_entities_steady ws w0 w1 fuel j_data comp_id role w :
  Run ws w0 w1 w →
  Steady ws (entities j_data) w0 w →
  NoDup (entity_id <$> entities j_data) →
  wp (create_iottwinmaker_entities fuel j_data ws comp_id role)
     (fun o w' => Run ws w0 w1 w' ∧
                  (o = Ret tt → Steady ws (entities j_data) w0 w')) w.
Proof.
  intros HR HS Hnd. unfold create_iottwinmaker_entities, process_records.
  apply wp_bind. eapply wp_mono.
  { apply wp_and; [by apply create_workspace_run|
                   by apply (create_workspace_steady ws (entities j_data) w0)]. }
  intros [[]|e|] w2 [(HR2 & _) HS2]; unfold bind_post; try by split.
  apply wp_bind. eapply wp_mono.
  { apply wp_and; [by apply create_properties_component_run|
      by apply (create_properties_component_steady ws (entities j_data) w0)]. }
  intros [[]|e|] w3 [(HR3 & _) HS3]; unfold bind_post; try by split.
  apply process_records_loop_steady; auto.
  intros r Hr. by apply first_match_of_NoDup.
Qed.

Lemma creations_ok_drop ws input w0 newer tr :
  creations_ok ws input w0 (newer ++ tr) → creations_ok ws input w0 tr.
Proof. induction newer as [|e newer IH]; simpl; tauto. Qed.

Lemma root_followed_by_wait ws input w0 X root c older :
  creations_ok ws input w0 (X ++ EvCreateEntity root c :: older) →
  parentEntityId root = None →
  X ≠ [] →
  ∃ X', X = (X' ++ [EvWaitEntity ws (entityId root)])%list.
Proof.
  intros Hok Hroot. induction X as [|ev X IH]; [done|]. intros _.
  destruct X as [|ev' X].
  - simpl in Hok. destruct Hok as (_ & Hfo & _).
    exists []. simpl. f_equal. by apply Hfo.
  - destruct IH as [X' HX']; [by apply (creations_ok_drop _ _ _ [ev])|done|].
    exists (ev :: X'). simpl. by rewrite HX'.
Qed.

Lemma created_once ws input w0 X ntt c older :
  creations_ok ws input w0 (X ++ EvCreateEntity ntt c :: older) →
  workspaceId ntt = ws →
  ¬ created_in ws (entityId ntt) X.
Proof.
  intros Hok Hws (ntt' & c' & Hin & Hws' & Hid).
  apply in_split in Hin as (X1 & X2 & ->).
  rewrite <- app_assoc in Hok. apply creations_ok_drop in Hok.
  simpl in Hok. destruct Hok as ((_ & _ & Hfresh) & _).
  apply Hfresh. exists ntt, c. split; [|by rewrite Hid].
  apply in_or_app. right. by left.
Qed.

Lemma created_in_app ws id X Y :
  created_in ws id (X ++ Y) ↔ created_in ws id X ∨ created_in ws id Y.
Proof.
  split.
  - intros (ntt & c & Hin & H). apply in_app_or in Hin as [Hin|Hin];
      [left|right]; by exists ntt, c.
  - intros [(ntt & c & Hin & H)|(ntt & c & Hin & H)]; exists ntt, c;
      (split; [apply in_or_app; auto|done]).
Qed.

(** What the log of a finished run without failing call says about a
    record whose parent is missing. *)
Lemma placeholder_in_finished_run ws input w0 w r p :
  Inv ws w0 w →
  Steady ws input w0 w →
  NoDup (entity_id <$> input) →
  In r input →
  is_Some (remote_entities w !! (ws, entity_id r)) →
  parent_entity_id r = Some p →
  get_parent_from_input input p = None →
  remote_entities w0 !! (ws, p) = None →
  remote_entities w0 !! (ws, entity_id r) = None →
  ∃ newer middle older c cr r',
    trace w =
      (newer ++ EvCreateEntity (entity_ntt r ws p) c ::
       middle ++ EvWaitEntity ws p ::
       EvCreateEntity (create_root p (parent_name r') ws) cr :: older)%list ∧
    In r' input ∧ parent_entity_id r' = Some p ∧
    ¬ created_in ws p newer ∧ ¬ created_in ws p middle ∧
    ¬ created_in ws p older.
Proof.
  intros HI HS Hnd Hin Hex Hp Hmiss Hp0 Hr0.
  pose proof (first_match_of_NoDup _ _ Hnd Hin) as Hfirst.
  pose proof (steady_trace _ _ _ _ HS) as Hok.
  apply (inv_remote_created _ _ _ HI) in Hex as [Hex|Hex].
  { rewrite Hr0 in Hex. by destruct Hex. }
  destruct Hex as (ntt & c & Hntt & Hws & Hid).
  apply in_split in Hntt as (newer & older1 & Ht).
  rewrite Ht in Hok.
  pose proof (creations_ok_drop _ _ _ _ _ Hok) as Hok1.
  pose proof Hok1 as (((_ & Hor) & _) & _ & _).
  destruct (parentEntityId ntt) as [pp|] eqn:Hpp.
  2:{ destruct Hor as [Hnone _]. congruence. }
  destruct Hor as (r0 & Hr0first & Hshape & Hparent).
  rewrite Hid, Hfirst in Hr0first. injection Hr0first as <-.
  rewrite Hp in Hparent. destruct Hparent as [-> [Hex|Hcr]].
  { rewrite Hp0 in Hex. by destruct Hex. }
  destruct Hcr as (root & cr & Hroot & Hrws & Hrid).
  apply in_split in Hroot as (middle0 & older & ->).
  assert (creations_ok ws input w0
            ((newer ++ EvCreateEntity ntt c :: middle0) ++
             EvCreateEntity root cr :: older)) as Hok2.
  { by rewrite <- app_assoc. }
  pose proof (creations_ok_drop _ _ _ _ _ Hok2) as Hok3.
  pose proof Hok3 as (((_ & Horr) & (_ & Hfresh)) & _ & _).
  destruct (parentEntityId root) as [rp|] eqn:Hrp.
  { destruct Horr as (r1 & Hr1 & _). congruence. }
  destruct Horr as (_ & r' & Hr'in & Hr'p & Hrshape).
  rewrite Hrid in *.
  destruct (root_followed_by_wait ws input w0 (EvCreateEntity ntt c :: middle0)
              root cr older) as [X' HX']; [done..|].
  rewrite Hrid in HX'.
  destruct X' as [|x X']; [done|]. injection HX' as <- ->.
  pose proof (created_once _ _ _ _ _ _ _ Hok2 Hrws) as Hnot.
  rewrite Hrid in Hnot.
  exists newer, X', older, c, cr, r'.
  split_and!; try done.
  - rewrite Ht, Hshape, Hrshape. simpl. by rewrite <- app_assoc.
  - intros H. apply Hnot. apply created_in_app. by left.
  - intros H. apply Hnot. apply created_in_app. right.
    destruct H as (n1 & c1 & Hin1 & H1). exists n1, c1.
    split; [|done]. right. apply in_or_app. by left.
Qed.

(** ** The resolution returns *)

Lemma entity_exists_frame ws id k w :
  remote_entities (entity_exists ws id w).2 !! k = remote_entities w !! k.
Proof.
  change (wp (entity_exists ws id)
            (fun _ w' => remote_entities w' !! k = remote_entities w !! k) w).
  unfold entity_exists, get_entity. wp_go; done.
Qed.

Lemma populate_assets_frame entity comp_id ws k w :
  remote_entities (populate_assets entity comp_id ws w).2 !! k
    = remote_entities w !! k.
Proof.
  change (wp (populate_assets entity comp_id ws)
            (fun _ w' => remote_entities w' !! k = remote_entities w !! k) w).
  unfold populate_assets, create_properties_component, list_component_types,
    client_create_component_type, wait_over_component_type.
  wp_go; done.
Qed.

Lemma create_entity_api_frame comps ntt ws check_active k w :
  k ≠ (workspaceId ntt, entityId ntt) →
  remote_entities (create_entity_api comps ntt ws check_active w).2 !! k
    = remote_entities w !! k.
Proof.
  intros Hk.
  change (wp (create_entity_api comps ntt ws check_active)
            (fun _ w' => remote_entities w' !! k = remote_entities w !! k) w).
  unfold create_entity_api, client_create_entity, wait_over_entity.
  destruct comps, check_active; wp_go; try done.
  all: by rewrite lookup_insert_ne.
Qed.

Lemma on_chain_parent input entity pid x :
  get_parent_from_input input (entity_id entity) = Some entity →
  parent_entity_id entity = Some pid →
  on_chain input pid x → on_chain input (entity_id entity) x.
Proof.
  intros Hfirst Hp [k Hk]. exists (S k). simpl. unfold parent_of.
  by rewrite Hfirst, Hp.
Qed.

(** The resolution of a record touches only the record and its
    ancestors. *)
Lemma resolution_frame input ws x fuel :
  ∀ entity comps check_active w,
  get_parent_from_input input (entity_id entity) = Some entity →
  ¬ on_chain input (entity_id entity) x →
  remote_entities
    (create_iottwinmaker_entity fuel input entity ws comps check_active w).2
    !! (ws, x) = remote_entities w !! (ws, x).
Proof.
  induction fuel as [|fuel IH]; intros entity comps check_active w Hfirst Hx;
    [done|].
  assert (x ≠ entity_id entity) as Hne.
  { intros ->. apply Hx. by exists 0. }
  rewrite create_iottwinmaker_entity_unfold.
  match goal with
  | |- remote_entities (?m ?w').2 !! ?k = _ =>
      change (wp m (fun _ w'' => remote_entities w'' !! k
                                 = remote_entities w' !! k) w')
  end.
  apply wp_bind.
  eapply (wp_mono _ (fun _ w' => remote_entities w' !! (ws, x)
                                 = remote_entities w !! (ws, x))).
  { apply entity_exists_frame. }
  intros [[]|e|] w2 H2; unfold bind_post; try done.
  apply wp_bind.
  eapply (wp_mono _ (fun _ w' => remote_entities w' !! (ws, x)
                                 = remote_entities w !! (ws, x))).
  { destruct (truthy (component_type entity)).
    - unfold wp. by rewrite populate_assets_frame.
    - done. }
  intros [comps'|e|] w3 H3; unfold bind_post; try done.
  apply wp_bind.
  eapply (wp_mono _ (fun _ w' => remote_entities w' !! (ws, x)
                                 = remote_entities w !! (ws, x))).
  { destruct (parent_entity_id entity) as [pid|] eqn:Hp; [|done].
    apply wp_bind.
    eapply (wp_mono _ (fun _ w' => remote_entities w' !! (ws, x)
                                   = remote_entities w !! (ws, x))).
    { unfold wp. by rewrite entity_exists_frame. }
    intros [[]|e|] w4 H4; unfold bind_post; try done.
    apply wp_bind.
    eapply (wp_mono _ (fun _ w' => remote_entities w' !! (ws, x)
                                   = remote_entities w !! (ws, x))).
    { destruct (get_parent_from_input input pid) as [parent|] eqn:Hin.
      - pose proof (get_parent_from_input_id _ _ _ Hin) as Hid.
        unfold wp. rewrite IH; [done| |].
        + by rewrite Hid.
        + rewrite Hid. intros H. apply Hx.
          by eapply on_chain_parent.
      - unfold wp. rewrite create_entity_api_frame; [done|].
        simpl. intros [= ->]. apply Hx. exists 1. simpl. unfold parent_of.
        by rewrite Hfirst, Hp. }
    intros [[]|e|] w5 H5; unfold bind_post; done. }
  intros [p|e|] w4 H4; unfold bind_post; try done.
  unfold wp. rewrite create_entity_api_frame; [done|].
  simpl. congruence.
Qed.

Lemma entity_exists_fault_free ws id w :
  pending_faults w = [] →
  ∃ b w', entity_exists ws id w = (Ret b, w') ∧
          pending_faults w' = [] ∧
          remote_entities w' = remote_entities w ∧
          (b = false → remote_entities w !! (ws, id) = None).
Proof.
  intros Hf.
  destruct (created_entities w !! id) as [x|] eqn:Hc.
  { exists true, w. rewrite entity_exists_cached by (by eexists). done. }
  destruct (remote_entities w !! (ws, id)) as [e|] eqn:Hr.
  - eexists true, _. rewrite (entity_exists_found _ _ _ e) by done. done.
  - eexists false, _. rewrite entity_exists_absent by done. done.
Qed.

Lemma no_cycle_not_on_chain input entity pid :
  ¬ has_cycle input →
  get_parent_from_input input (entity_id entity) = Some entity →
  parent_entity_id entity = Some pid →
  ¬ on_chain input pid (entity_id entity).
Proof.
  intros Hnc Hfirst Hp [k Hk]. apply Hnc.
  exists (entity_id entity), k. simpl. unfold parent_of.
  by rewrite Hfirst, Hp.
Qed.

Ltac returned :=
  eexists; split; [done|];
  try match goal with |- context [if ?b then _ else _] => destruct b end;
  simpl; congruence.

(** One level of the resolution returns when the level above does. *)
Lemma resolution_returns_step input ws fuel entity comps check_active w :
  ¬ has_cycle input →
  pending_faults w = [] →
  get_parent_from_input input (entity_id entity) = Some entity →
  (∀ pid parent comps' w',
     parent_entity_id entity = Some pid →
     get_parent_from_input input pid = Some parent →
     pending_faults w' = [] →
     ∃ w'', create_iottwinmaker_entity fuel input parent ws comps' true w'
              = (Ret tt, w'') ∧ pending_faults w'' = []) →
  ∃ w', create_iottwinmaker_entity (S fuel) input entity ws comps
          check_active w = (Ret tt, w') ∧
        pending_faults w' = [].
Proof.
  intros Hnc Hf Hfirst Hrec.
  rewrite create_iottwinmaker_entity_unfold.
  destruct (entity_exists_fault_free ws (entity_id entity) w Hf)
    as (b & w2 & E2 & Hf2 & Hr2 & Hb2).
  norm. erewrite bind_ret_eq by exact E2. cbn beta iota.
  destruct b; [by exists w2|]. specialize (Hb2 eq_refl).
  destruct (own_comps_fault_free entity ws comps w2 Hf2)
    as (w3 & E3 & Hf3 & Hc3 & Hr3 & Ht3).
  norm. erewrite bind_ret_eq by exact E3. cbn beta iota.
  destruct (parent_entity_id entity) as [pid|] eqn:Hp.
  2:{ norm. fold (entity_ntt entity ws "$ROOT").
      rewrite (create_entity_api_fresh _ (entity_ntt entity ws "$ROOT"));
        [returned|congruence|simpl; congruence]. }
  destruct (entity_exists_fault_free ws pid w3 ltac:(congruence))
    as (b' & w4 & E4 & Hf4 & Hr4 & Hb4).
  norm. erewrite bind_ret_eq by exact E4. cbn beta iota.
  destruct b'.
  { norm. fold (entity_ntt entity ws pid).
    rewrite (create_entity_api_fresh _ (entity_ntt entity ws pid));
      [returned|congruence|simpl; congruence]. }
  specialize (Hb4 eq_refl).
  destruct (get_parent_from_input input pid) as [parent|] eqn:Hin.
  - pose proof (get_parent_from_input_id _ _ _ Hin) as Hid.
    destruct (Hrec pid parent (own_comps entity comps) w4 eq_refl Hin Hf4)
      as (w5 & E5 & Hf5).
    norm. erewrite bind_ret_eq by exact E5. cbn beta iota.
    norm. fold (entity_ntt entity ws pid).
    rewrite (create_entity_api_fresh _ (entity_ntt entity ws pid));
      [returned|done|].
    simpl.
    pose proof (resolution_frame input ws (entity_id entity) fuel parent
                  (own_comps entity comps) true w4) as Hfr.
    rewrite E5 in Hfr. simpl in Hfr. rewrite Hfr; [congruence| |].
    + by rewrite Hid.
    + rewrite Hid. by eapply no_cycle_not_on_chain.
  - norm. erewrite bind_ret_eq;
      [|apply (create_entity_api_fresh _
                 (create_root pid (parent_name entity) ws) true);
        simpl; congruence].
    norm. fold (entity_ntt entity ws pid).
    rewrite (create_entity_api_fresh _ (entity_ntt entity ws pid));
      [returned|done|].
    simpl. rewrite lookup_insert_ne; [congruence|].
    intros [= Heq]. rewrite Heq, Hfirst in Hin. done.
Qed.

(** Without failing calls and without cycles the resolution returns. *)
Lemma resolution_returns input ws (n : nat) :
  ¬ has_cycle input →
  ∀ entity comps check_active w,
  pending_faults w = [] →
  get_parent_from_input input (entity_id entity) = Some entity →
  chain_ends input n (parent_entity_id entity) = true →
  ∃ w', create_iottwinmaker_entity (S n) input entity ws comps check_active w
          = (Ret tt, w') ∧
        pending_faults w' = [].
Proof.
  intros Hnc. induction n as [|n IH];
    intros entity comps check_active w Hf Hfirst Hce.
  all: apply resolution_returns_step; try done.
  all: intros pid parent comps' w' Hp Hin Hf'.
  all: rewrite Hp in Hce; simpl in Hce; rewrite Hin in Hce; try done.
  apply IH; try done.
  by rewrite (get_parent_from_input_id _ _ _ Hin).
Qed.

Lemma create_workspace_fault_free ws role w :
  pending_faults w = [] →
  ∃ w', create_workspace ws role w = (Ret tt, w') ∧ pending_faults w' = [].
Proof.
  intros Hf.
  assert (wp (create_workspace ws role)
            (fun o w' => o = Ret tt ∧ pending_faults w' = []) w) as H.
  { unfold create_workspace, list_workspaces, s3_create_bucket,
      s3_wait_bucket_exists, client_create_workspace, get_role_from_identity.
    wp_go_ff; clean_hyps; try done. }
  unfold wp in H. destruct (create_workspace ws role w) as [o w'].
  simpl in H. destruct H as [-> H]. by exists w'.
Qed.

Lemma process_records_loop_returns ws all comp_id (n : nat) rest :
  ¬ has_cycle all →
  (length all ≤ n)%nat →
  ∀ w,
  pending_faults w = [] →
  (∀ r, In r rest → get_parent_from_input all (entity_id r) = Some r) →
  ∃ w', process_records_loop (S n) all rest ws comp_id w = (Ret tt, w') ∧
        pending_faults w' = [].
Proof.
  intros Hnc Hn. induction rest as [|entity rest IH]; intros w Hf Hfirst.
  { by exists w. }
  cbn [process_records_loop].
  destruct (populate_assets_fault_free entity comp_id ws w Hf)
    as (w2 & E2 & Hf2 & _).
  erewrite bind_ret_eq by exact E2.
  destruct (resolution_returns all ws n Hnc entity
              (Some {| componentTypeId := comp_id;
                       comp_properties := properties entity |}) false w2)
    as (w3 & E3 & Hf3).
  { congruence. }
  { apply Hfirst. by left. }
  { eapply chain_ends_mono; [exact Hn|]. by apply no_cycle_chain_ends. }
  erewrite bind_ret_eq by exact E3.
  apply IH; [done|]. intros r Hr. apply Hfirst. by right.
Qed.

(** Without failing calls, over an input with unique ids and without
    cycles, the import returns. *)
Lemma create_iottwinmaker_entities_returns (fuel : nat) j_data ws comp_id
    role w :
  pending_faults w = [] →
  NoDup (entity_id <$> entities j_data) →
  ¬ has_cycle (entities j_data) →
  (length (entities j_data) < fuel)%nat →
  ∃ w', create_iottwinmaker_entities fuel j_data ws comp_id role w
          = (Ret tt, w').
Proof.
  intros Hf Hnd Hnc Hfuel. destruct fuel as [|n]; [lia|].
  unfold create_iottwinmaker_entities, process_records.
  destruct (create_workspace_fault_free ws role w Hf) as (w2 & E2 & Hf2).
  erewrite bind_ret_eq by exact E2.
  destruct (create_properties_component_fault_free ws comp_id w2 Hf2)
    as (w3 & E3 & Hf3 & _).
  erewrite bind_ret_eq by exact E3.
  destruct (process_records_loop_returns ws (entities j_data) comp_id n
              (entities j_data) Hnc ltac:(lia) w3) as (w4 & E4 & _).
  { congruence. }
  { intros r Hr. by apply first_match_of_NoDup. }
  by exists w4.
Qed.

(** ** A parent that no record defines *)

(** C6, amended: take a run without failing call over an input with
    unique ids, and a record that does not exist remotely and whose parent
    neither is defined by the input nor exists remotely.  When the run
    returns, its log has exactly one creation call for the parent id; that
    call creates a synthetic root, is followed at once by the wait for it,
    and comes before the creation call of the record.  The run returns
    when the input has no cycle and fewer records than the run has fuel,
    the nested calls that the recursion limit of the interpreter leaves to
    the resolution; with less fuel it may stop before it has created
    anything. *)
Theorem missing_parent_gets_one_placeholder (fuel : nat) j_data ws comp_id
    role w0 r p :
  well_started ws w0 →
  pending_faults w0 = [] →
  NoDup (entity_id <$> entities j_data) →
  In r (entities j_data) →
  parent_entity_id r = Some p →
  get_parent_from_input (entities j_data) p = None →
  remote_entities w0 !! (ws, p) = None →
  remote_entities w0 !! (ws, entity_id r) = None →
  let run := create_iottwinmaker_entities fuel j_data ws comp_id role w0 in
  (¬ has_cycle (entities j_data) →
   (length (entities j_data) < fuel)%nat →
   run.1 = Ret tt) ∧
  (run.1 = Ret tt →
   ∃ newer middle older c cr r',
     trace run.2 =
       (newer ++ EvCreateEntity (entity_ntt r ws p) c ::
        middle ++ EvWaitEntity ws p ::
        EvCreateEntity (create_root p (parent_name r') ws) cr :: older)%list ∧
     In r' (entities j_data) ∧ parent_entity_id r' = Some p ∧
     ¬ created_in ws p newer ∧ ¬ created_in ws p middle ∧
     ¬ created_in ws p older).
Proof.
  intros (Ht & Hc & Hct) Hf Hnd Hin Hp Hmiss Hp0 Hr0 run. split.
  - intros Hnc Hfuel.
    destruct (create_iottwinmaker_entities_returns fuel j_data ws comp_id role
                w0 Hf Hnd Hnc Hfuel) as [w E].
    subst run. by rewrite E.
  - intros Hret.
    assert (Run ws w0 w0 w0) as HR.
    { split; [by apply Inv_init|apply extends_refl]. }
    assert (Steady ws (entities j_data) w0 w0) as HS by (by apply Steady_init).
    pose proof (create_iottwinmaker_entities_run _ _ _ fuel j_data comp_id role
                  _ HR) as H1.
    pose proof (create_iottwinmaker_entities_steady _ _ _ fuel j_data comp_id
                  role _ HR HS Hnd) as H2.
    unfold wp in H1, H2. fold run in H1, H2.
    destruct H1 as [[HI _] H1]. destruct (H1 Hret) as (_ & _ & Hall).
    destruct H2 as [_ H2]. specialize (H2 Hret).
    apply (placeholder_in_finished_run ws (entities j_data) w0 run.2 r p);
      auto.
Qed.

(** C6, as stated, fails: the parent "orphan" of the record "x" is not
    defined by the input and does not exist remotely, but "x" itself
    exists; the run returns after the existence check of "x" and creates
    no placeholder. *)
Lemma existing_record_gets_no_placeholder :
  let run := create_iottwinmaker_entities 2 {| entities := [orphan_child] |}
               "ws" None None x_exists_world in
  parent_entity_id orphan_child = Some "orphan" ∧
  get_parent_from_input [orphan_child] "orphan" = None ∧
  remote_entities x_exists_world !! ("ws", "orphan") = None ∧
  run.1 = Ret tt ∧
  trace run.2 = [EvCacheEntity "x"; EvGetEntity "ws" "x"; EvListWorkspaces].
Proof. vm_compute. split_and!; reflexivity. Qed.

Lemma missing_parent_gets_one_placeholder_witness :
  let run := create_iottwinmaker_entities 2 {| entities := [orphan_child] |}
               "ws" None None empty_world in
  run.1 = Ret tt ∧
  ∃ newer middle older c cr r',
    trace run.2 =
      (newer ++ EvCreateEntity (entity_ntt orphan_child "ws" "orphan") c ::
       middle ++ EvWaitEntity "ws" "orphan" ::
       EvCreateEntity (create_root "orphan" (parent_name r') "ws") cr ::
       older)%list ∧
    In r' [orphan_child] ∧ parent_entity_id r' = Some "orphan" ∧
    ¬ created_in "ws" "orphan" newer ∧ ¬ created_in "ws" "orphan" middle ∧
    ¬ created_in "ws" "orphan" older.
Proof.
  destruct (missing_parent_gets_one_placeholder 2
              {| entities := [orphan_child] |} "ws" None None empty_world
              orphan_child "orphan") as [Hret Hlog].
  - apply well_started_fresh; reflexivity.
  - reflexivity.
  - apply NoDup_singleton.
  - left. reflexivity.
  - reflexivity.
  - reflexivity.
  - reflexivity.
  - reflexivity.
  - assert (¬ has_cycle [orphan_child]) as Hnc.
    { apply acyclic_sound. reflexivity. }
    assert (1 < 2)%nat as Hfuel by lia.
    split; [exact (Hret Hnc Hfuel)|exact (Hlog (Hret Hnc Hfuel))].
Defined.

(** ** Looking a parent up in the input *)

(** X1: among records with the same id the first one is found; nothing is
    found exactly when no record has the id. *)
Theorem get_parent_from_input_first_match input pid :
  (∀ r, get_parent_from_input input pid = Some r ↔
        ∃ l1 l2, input = (l1 ++ r :: l2)%list ∧ entity_id r = pid ∧
                 ∀ r', In r' l1 → entity_id r' ≠ pid) ∧
  (get_parent_from_input input pid = None ↔
   ∀ r, In r input → entity_id r ≠ pid).
Proof.
  induction input as [|r0 input [IH1 IH2]]; simpl.
  { split.
    - intros r. split; [done|]. intros (l1 & l2 & H & _). by destruct l1.
    - split; [by intros _ r []|done]. }
  destruct (String.eqb_spec pid (entity_id r0)) as [->|Hne].
  - split.
    + intros r. split.
      * intros [= <-]. exists [], input. split_and!; [done..|]. by intros r' [].
      * intros (l1 & l2 & H & Hid & Hl1). destruct l1 as [|r1 l1].
        -- simpl in H. by injection H as ->.
        -- injection H as <- _. destruct (Hl1 r0); [by left|done].
    + split; [done|]. intros H. destruct (H r0); [by left|done].
  - split.
    + intros r. rewrite IH1. split.
      * intros (l1 & l2 & -> & Hid & Hl1). exists (r0 :: l1), l2.
        split_and!; [done..|]. intros r' [<-|H]; [congruence|auto].
      * intros (l1 & l2 & H & Hid & Hl1). destruct l1 as [|r1 l1].
        -- simpl in H. injection H as -> _. congruence.
        -- injection H as <- ->. exists l1, l2. split_and!; [done..|].
           intros r' Hr'. apply Hl1. by right.
    + rewrite IH2. split.
      * intros H r [<-|Hr]; [congruence|auto].
      * intros H r Hr. apply H. by right.
Qed.

(** ** Provisioning the workspace *)

(** X2: a workspace that the list call shows is left alone: the list call is
    the only call, and nothing changes. *)
Theorem create_workspace_short_circuit ws role w :
  pending_faults w = [] →
  ws ∈ remote_workspaces w →
  create_workspace ws role w = (Ret tt, emit EvListWorkspaces w).
Proof.
  intros Hf Hin. unfold create_workspace, list_workspaces. munfold.
  rewrite api_call_no_faults by done. simpl.
  rewrite bool_decide_eq_true_2; [done|]. by apply elem_of_elements.
Qed.

Lemma create_workspace_short_circuit_witness :
  create_workspace "ws" None x_exists_world
    = (Ret tt, emit EvListWorkspaces x_exists_world).
Proof.
  apply (create_workspace_short_circuit "ws" None x_exists_world).
  - reflexivity.
  - vm_compute. reflexivity.
Defined.

(** X3: a workspace that the list call does not show is provisioned, when no
    call fails, by four or five calls: the bucket [iottwinmaker-<id>] is
    created and waited for, the role of the caller is asked for only when
    the argument gives none, and the workspace is created on that bucket
    with the role of the argument or else of the caller. *)
Theorem create_workspace_provisions ws role w :
  pending_faults w = [] →
  ws ∉ remote_workspaces w →
  let bucket := "iottwinmaker-" ++ ws in
  let r := create_workspace ws role w in
  r.1 = Ret tt ∧
  trace r.2 =
    (EvCreateWorkspace ws ("arn:aws:s3:::" ++ bucket)
       (default (caller_role w) (explicit_role role)) ::
      match explicit_role role with
      | Some _ => []
      | None => [EvGetRole]
      end ++
     [EvWaitBucket bucket; EvCreateBucket bucket; EvListWorkspaces] ++
     trace w)%list ∧
  remote_workspaces r.2 = {[ws]} ∪ remote_workspaces w ∧
  remote_buckets r.2 = {[bucket]} ∪ remote_buckets w.
Proof.
  intros Hf Hin bucket r. subst r.
  unfold create_workspace, list_workspaces, s3_create_bucket,
    s3_wait_bucket_exists, client_create_workspace, get_role_from_identity.
  munfold.
  rewrite api_call_no_faults by done. simpl.
  rewrite bool_decide_eq_false_2 by (by rewrite elem_of_elements).
  rewrite api_call_no_faults by done. simpl.
  rewrite api_call_no_faults by done. simpl.
  unfold explicit_role.
  destruct role as [r|]; simpl; [destruct (negb (r =? "")); simpl|].
  all: rewrite api_call_no_faults by done; simpl.
  all: rewrite ?api_call_no_faults by done; simpl.
  all: rewrite bool_decide_eq_false_2 by done; simpl; done.
Qed.

Lemma create_workspace_provisions_witness :
  let bucket := "iottwinmaker-" ++ "ws" in
  let r := create_workspace "ws" (Some "") empty_world in
  r.1 = Ret tt ∧
  trace r.2 =
    (EvCreateWorkspace "ws" ("arn:aws:s3:::" ++ bucket)
       (default (caller_role empty_world) (explicit_role (Some ""))) ::
     match explicit_role (Some "") with
      | Some _ => []
      | None => [EvGetRole]
      end ++
     [EvWaitBucket bucket; EvCreateBucket bucket; EvListWorkspaces] ++
     trace empty_world)%list ∧
  remote_workspaces r.2 = {[ "ws" ]} ∪ remote_workspaces empty_world ∧
  remote_buckets r.2 = {[bucket]} ∪ remote_buckets empty_world.
Proof.
  apply (create_workspace_provisions "ws" (Some "") empty_world).
  - reflexivity.
  - vm_compute. discriminate.
Defined.

(** ** A cycle of parents *)

Lemma bind_out_of_fuel_eq {A B} (m : M A) (k : A → M B) w w' :
  m w = (OutOfFuel, w') → bind m k w = (OutOfFuel, w').
Proof. intros H. unfold bind. by rewrite H. Qed.

(** While nothing exists and the chain of parents does not end, the
    resolution only checks for existence, level after level. *)
Lemma endless_chain_runs_out input ws fuel :
  ∀ entity comps check_active w,
  pending_faults w = [] →
  (∀ id, created_entities w !! id = None) →
  (∀ id, remote_entities w !! (ws, id) = None) →
  (∀ N, chain_ends input N (parent_entity_id entity) = false) →
  let r := create_iottwinmaker_entity fuel input entity ws comps
             check_active w in
  r.1 = OutOfFuel ∧
  pending_faults r.2 = [] ∧
  created_entities r.2 = created_entities w ∧
  remote_entities r.2 = remote_entities w ∧
  ∃ gets, entity_events (trace r.2) = (gets ++ entity_events (trace w))%list ∧
          Forall (fun ev => is_get_entity ev = true) gets.
Proof.
  induction fuel as [|fuel IH]; intros entity comps check_active w Hf Hc Hr Hch.
  { simpl. split_and!; try done. by exists []. }
  cbv zeta. rewrite create_iottwinmaker_entity_unfold.
  step entity_exists_absent.
  destruct (own_comps_fault_free entity ws comps
              (emit (EvGetEntity ws (entity_id entity)) w) Hf)
    as (w1 & E1 & Hf1 & Hc1 & Hr1 & Ht1).
  simpl in Hf1, Hc1, Hr1, Ht1.
  norm. erewrite bind_ret_eq by exact E1. cbn beta iota.
  pose proof (Hch 0) as H0.
  destruct (parent_entity_id entity) as [pid|]; [|done].
  simpl in H0.
  destruct (get_parent_from_input input pid) as [parent|] eqn:Hin; [|done].
  step entity_exists_absent; [|congruence..].
  destruct (IH parent (own_comps entity comps) true
              (emit (EvGetEntity ws pid) w1))
    as (E & Hf2 & Hc2 & Hr2 & gets & Ht2 & Hgets).
  { simpl. congruence. }
  { intros id. simpl. by rewrite Hc1. }
  { intros id. simpl. by rewrite Hr1. }
  { intros N. specialize (Hch (S N)). simpl in Hch. by rewrite Hin in Hch. }
  destruct (create_iottwinmaker_entity fuel input parent ws
              (own_comps entity comps) true (emit (EvGetEntity ws pid) w1))
    as [o w2] eqn:E2.
  simpl in E, Hf2, Hc2, Hr2, Ht2. subst o.
  norm. erewrite bind_out_of_fuel_eq by exact E2. simpl.
  split_and!; try congruence.
  exists (gets ++ [EvGetEntity ws pid; EvGetEntity ws (entity_id entity)])%list.
  split.
  - rewrite Ht2, Ht1. by rewrite <- app_assoc.
  - apply Forall_app. split; [done|]. by repeat constructor.
Qed.

(** X5: resolving a record that is its own ancestor never returns, however
    much fuel it is given, when nothing exists and no call fails: every
    level only checks for existence, no entity is created. *)
Theorem cyclic_resolution_never_returns input entity ws comps check_active w
    (n fuel : nat) :
  pending_faults w = [] →
  (∀ id, created_entities w !! id = None) →
  (∀ id, remote_entities w !! (ws, id) = None) →
  get_parent_from_input input (entity_id entity) = Some entity →
  ancestor input (S n) (entity_id entity) = Some (entity_id entity) →
  let r := create_iottwinmaker_entity fuel input entity ws comps
             check_active w in
  r.1 = OutOfFuel ∧
  remote_entities r.2 = remote_entities w ∧
  ∃ gets, entity_events (trace r.2) = (gets ++ entity_events (trace w))%list ∧
          Forall (fun ev => is_get_entity ev = true) gets.
Proof.
  intros Hf Hc Hr Hfirst Hcyc r.
  destruct (endless_chain_runs_out input ws fuel entity comps check_active w)
    as (H1 & _ & _ & H2 & H3); try done.
  intros N.
  pose proof (cycle_chain_never_ends input _ n Hcyc (S N)) as H.
  simpl in H. by rewrite Hfirst in H.
Qed.

Lemma cyclic_resolution_never_returns_witness :
  let r := create_iottwinmaker_entity 7 cyclic_input
             (chain_record "a" (Some "b")) "ws" None false empty_world in
  r.1 = OutOfFuel ∧
  remote_entities r.2 = remote_entities empty_world ∧
  ∃ gets, entity_events (trace r.2)
          = (gets ++ entity_events (trace empty_world))%list ∧
          Forall (fun ev => is_get_entity ev = true) gets.
Proof.
  apply (cyclic_resolution_never_returns cyclic_input
           (chain_record "a" (Some "b")) "ws" None false empty_world 1 7);
    reflexivity.
Defined.

(** ** Component types, call by call *)

(** X4: a component type that is not in the cache is looked up with one list
    call; it is created, and waited for, only when the list does not have
    it, and it is in the cache and in the workspace afterwards. *)
Theorem create_properties_component_provisions ws c w :
  pending_faults w = [] →
  c ≠ "" →
  created_component_types w !! c = None →
  let r := create_properties_component ws (Some c) w in
  r.1 = Ret tt ∧
  trace r.2 =
    (EvCacheComponentType c ::
     (if bool_decide ((ws, c) ∈ remote_component_types w) then []
      else [EvWaitComponentType ws c; EvCreateComponentType ws c]) ++
     EvListComponentTypes ws c :: trace w)%list ∧
  remote_component_types r.2 = {[(ws, c)]} ∪ remote_component_types w ∧
  created_component_types r.2 = <[c := 1%Z]> (created_component_types w).
Proof.
  intros Hf Hc Hn. cbv zeta.
  unfold create_properties_component, list_component_types,
    client_create_component_type, wait_over_component_type.
  munfold.
  rewrite bool_decide_eq_false_2 by (rewrite Hn; apply is_Some_None).
  simpl. destruct (String.eqb_spec c ""); [done|]. simpl.
  rewrite api_call_no_faults by done. simpl.
  destruct (bool_decide (c ∈ _)) eqn:Hl; simpl.
  - apply bool_decide_eq_true_1 in Hl.
    rewrite elem_of_component_type_summaries in Hl.
    rewrite bool_decide_eq_true_2 by done.
    split_and!; try done. simpl. symmetry. apply subseteq_union_1_L.
    by apply singleton_subseteq_l.
  - apply bool_decide_eq_false_1 in Hl.
    rewrite elem_of_component_type_summaries in Hl.
    rewrite api_call_no_faults by done. simpl.
    rewrite !bool_decide_eq_false_2 by done. simpl.
    rewrite api_call_no_faults by done. simpl.
    rewrite bool_decide_eq_true_2 by set_solver. simpl.
    done.
Qed.

Lemma create_properties_component_provisions_witness :
  let r := create_properties_component "ws" (Some "ct") empty_world in
  r.1 = Ret tt ∧
  trace r.2 =
    (EvCacheComponentType "ct" ::
     (if bool_decide (("ws", "ct") ∈ remote_component_types empty_world)
      then []
      else [EvWaitComponentType "ws" "ct"; EvCreateComponentType "ws" "ct"]) ++
     EvListComponentTypes "ws" "ct" :: trace empty_world)%list ∧
  remote_component_types r.2
    = {[("ws", "ct")]} ∪ remote_component_types empty_world ∧
  created_component_types r.2
    = <[("ct" : string) := 1%Z]> (created_component_types empty_world).
Proof.
  apply (create_properties_component_provisions "ws" "ct" empty_world).
  - reflexivity.
  - discriminate.
  - vm_compute. reflexivity.
Defined.

(** ** What a finished run leaves behind *)

(** X6: when the import returns, whatever calls have failed on the way, the
    workspace exists, the default component type exists if one was given,
    and every record of the input has its entity in the workspace. *)
Theorem finished_run_is_complete fuel j_data ws comp_id role w0 :
  well_started ws w0 →
  let r := create_iottwinmaker_entities fuel j_data ws comp_id role w0 in
  r.1 = Ret tt →
  ws ∈ remote_workspaces r.2 ∧
  (∀ c, comp_id = Some c → c ≠ "" → (ws, c) ∈ remote_component_types r.2) ∧
  (∀ e, In e (entities j_data) →
        is_Some (remote_entities r.2 !! (ws, entity_id e))).
Proof.
  intros (Ht & Hc & Hct) r Hr.
  assert (Run ws w0 w0 w0) as HR.
  { split; [by apply Inv_init|apply extends_refl]. }
  apply (create_iottwinmaker_entities_run _ _ _ fuel j_data comp_id role) in HR.
  destruct HR as [_ H]. by apply H.
Qed.

Lemma finished_run_is_complete_witness :
  let r := create_iottwinmaker_entities 4 {| entities := chain_input |}
             "ws" (Some "ct") None flaky_world in
  "ws" ∈ remote_workspaces r.2 ∧
  (∀ c, Some "ct" = Some c → c ≠ "" →
        ("ws", c) ∈ remote_component_types r.2) ∧
  (∀ e, In e chain_input →
        is_Some (remote_entities r.2 !! ("ws", entity_id e))).
Proof.
  apply (finished_run_is_complete 4 {| entities := chain_input |}
           "ws" (Some "ct") None flaky_world).
  - apply well_started_fresh; reflexivity.
  - vm_compute. reflexivity.
Defined.

(** ** The request mirrors the record *)

(** X8: in a run that returns without a failed call, over records with
    distinct ids, a creation call that names a parent is the request of the
    record with that id: the name is the record's, the description is the
    record's or, when that is absent or empty, the name, and the parent is
    the one the record names or, when it names none, ["$ROOT"].  A call
    that names no parent is for an id that no record has and that some
    record names as its parent. *)
Theorem creation_call_mirrors_record fuel j_data ws comp_id role w0 :
  well_started ws w0 →
  pending_faults w0 = [] →
  NoDup (entity_id <$> entities j_data) →
  let r := create_iottwinmaker_entities fuel j_data ws comp_id role w0 in
  r.1 = Ret tt →
  ∀ ntt c, In (EvCreateEntity ntt c) (trace r.2) →
    match parentEntityId ntt with
    | Some pp =>
        ∃ e, In e (entities j_data) ∧ entity_id e = entityId ntt ∧
             entityName ntt = entity_name e ∧
             ntt_description ntt =
               (if truthy (description e) then description e
                else entity_name e) ∧
             pp = default "$ROOT" (parent_entity_id e)
    | None =>
        (∀ e, In e (entities j_data) → entity_id e ≠ entityId ntt) ∧
        ∃ e, In e (entities j_data) ∧
             parent_entity_id e = Some (entityId ntt)
    end.
Proof.
  intros (Ht & Hc & Hct) Hf Hnd r Hr ntt c Hin.
  assert (Run ws w0 w0 w0) as HR.
  { split; [by apply Inv_init|apply extends_refl]. }
  pose proof (create_iottwinmaker_entities_steady ws w0 w0 fuel j_data
                comp_id role w0 HR (Steady_init _ _ _ Ht Hf) Hnd) as [_ HS].
  specialize (HS Hr). apply steady_trace in HS. fold r in HS.
  apply in_split in Hin as (newer & older & E). rewrite E in HS.
  apply creations_ok_drop in HS. simpl in HS.
  destruct HS as ([[Hws Ho] _] & _).
  destruct (parentEntityId ntt) as [pp|] eqn:Hpp.
  - destruct Ho as (e & Hg & -> & Hp). exists e.
    split_and!; try done.
    + by eapply get_parent_from_input_In.
    + destruct (parent_entity_id e); simpl; [by destruct Hp|done].
  - destruct Ho as (Hg & e & He & Hp & _). split; [|by exists e].
    intros e' He' Hid.
    destruct (get_parent_from_input_finds _ _ He') as [x Hx].
    rewrite Hid in Hx. congruence.
Qed.

Lemma creation_call_mirrors_record_witness :
  ∃ e, In e chain_input ∧ entity_id e = entityId (chain_ntt "ws" "c" "b") ∧
       entityName (chain_ntt "ws" "c" "b") = entity_name e ∧
       ntt_description (chain_ntt "ws" "c" "b") =
         (if truthy (description e) then description e else entity_name e) ∧
       "b" = default "$ROOT" (parent_entity_id e).
Proof.
  apply (creation_call_mirrors_record 4 {| entities := chain_input |}
           "ws" None None empty_world)
    with (ntt := chain_ntt "ws" "c" "b")
         (c := Some {| componentTypeId := None; comp_properties := [] |}).
  - apply well_started_fresh; reflexivity.
  - reflexivity.
  - apply (bool_decide_unpack _). vm_compute. exact I.
  - vm_compute. reflexivity.
  - vm_compute. do 4 right. left. reflexivity.
Defined.

(** ** Every creation is new *)

(** X7: in a run that returns without a failed call, over records with
    distinct ids, every creation call is for an entity of the workspace
    that did not exist before the run, and no id has two creation calls. *)
Theorem no_entity_created_twice fuel j_data ws comp_id role w0 :
  well_started ws w0 →
  pending_faults w0 = [] →
  NoDup (entity_id <$> entities j_data) →
  let r := create_iottwinmaker_entities fuel j_data ws comp_id role w0 in
  r.1 = Ret tt →
  ∀ newer ntt c older,
    trace r.2 = (newer ++ EvCreateEntity ntt c :: older)%list →
    workspaceId ntt = ws ∧
    remote_entities w0 !! (ws, entityId ntt) = None ∧
    ¬ created_in ws (entityId ntt) newer ∧
    ¬ created_in ws (entityId ntt) older.
Proof.
  intros (Ht & Hc & Hct) Hf Hnd r Hr newer ntt c older E.
  assert (Run ws w0 w0 w0) as HR.
  { split; [by apply Inv_init|apply extends_refl]. }
  pose proof (create_iottwinmaker_entities_steady ws w0 w0 fuel j_data
                comp_id role w0 HR (Steady_init _ _ _ Ht Hf) Hnd) as [_ HS].
  specialize (HS Hr). apply steady_trace in HS. fold r in HS.
  rewrite E in HS.
  pose proof (creations_ok_drop _ _ _ _ _ HS) as Hhere.
  simpl in Hhere. destruct Hhere as ([[Hws _] [Hnew Hold]] & _).
  split_and!; try done.
  by eapply created_once.
Qed.

Lemma no_entity_created_twice_witness :
  let r := create_iottwinmaker_entities 4 {| entities := chain_input |}
             "ws" None None empty_world in
  workspaceId (chain_ntt "ws" "c" "b") = "ws" ∧
  remote_entities empty_world !! ("ws", entityId (chain_ntt "ws" "c" "b"))
    = None ∧
  ¬ created_in "ws" (entityId (chain_ntt "ws" "c" "b")) (take 4 (trace r.2)) ∧
  ¬ created_in "ws" (entityId (chain_ntt "ws" "c" "b")) (drop 5 (trace r.2)).
Proof.
  apply (no_entity_created_twice 4 {| entities := chain_input |}
           "ws" None None empty_world)
    with (c := Some {| componentTypeId := None; comp_properties := [] |}).
  - apply well_started_fresh; reflexivity.
  - reflexivity.
  - apply (bool_decide_unpack _). vm_compute. exact I.
  - vm_compute. reflexivity.
  - vm_compute. reflexivity.
Defined.

(** ** The run stays in its scope *)

Lemma Scoped_refl ws input comp_id w : Scoped ws input comp_id w w.
Proof. by exists []. Qed.

Lemma Scoped_emit ws input comp_id w0 w ev :
  Scoped ws input comp_id w0 w → in_scope ws input comp_id ev →
  Scoped ws input comp_id w0 (emit ev w).
Proof.
  intros (evs & E & H) Hev. exists (ev :: evs). simpl. rewrite E.
  split; [done|by constructor].
Qed.

Lemma Scoped_same ws input comp_id w0 w w' :
  trace w' = trace w →
  Scoped ws input comp_id w0 w → Scoped ws input comp_id w0 w'.
Proof. intros E (evs & E' & H). exists evs. by rewrite E. Qed.

Lemma Scoped_set_pending_faults ws input comp_id w0 f w :
  Scoped ws input comp_id w0 w → Scoped ws input comp_id w0 (set_pending_faults f w).
Proof. by apply Scoped_same. Qed.

Lemma Scoped_set_created_entities ws input comp_id w0 f w :
  Scoped ws input comp_id w0 w → Scoped ws input comp_id w0 (set_created_entities f w).
Proof. by apply Scoped_same. Qed.

Lemma Scoped_set_created_component_types ws input comp_id w0 f w :
  Scoped ws input comp_id w0 w → Scoped ws input comp_id w0 (set_created_component_types f w).
Proof. by apply Scoped_same. Qed.

Lemma Scoped_set_remote_component_types ws input comp_id w0 f w :
  Scoped ws input comp_id w0 w → Scoped ws input comp_id w0 (set_remote_component_types f w).
Proof. by apply Scoped_same. Qed.

Lemma Scoped_set_remote_workspaces ws input comp_id w0 f w :
  Scoped ws input comp_id w0 w → Scoped ws input comp_id w0 (set_remote_workspaces f w).
Proof. by apply Scoped_same. Qed.

Lemma Scoped_set_remote_buckets ws input comp_id w0 f w :
  Scoped ws input comp_id w0 w → Scoped ws input comp_id w0 (set_remote_buckets f w).
Proof. by apply Scoped_same. Qed.

Lemma Scoped_set_remote_entities ws input comp_id w0 f w :
  Scoped ws input comp_id w0 w → Scoped ws input comp_id w0 (set_remote_entities f w).
Proof. by apply Scoped_same. Qed.

Ltac scope_side :=
  cbn [in_scope];
  first [ exact I | reflexivity | assumption
        | split; [reflexivity | first [reflexivity | assumption]]
        | split_and!; assumption ].

(** Rebuilds [Scoped] for a world built by nested updates, one update at
    a time. *)
Ltac scoped_tac :=
  lazymatch goal with
  | |- Scoped _ _ _ _ (emit _ _) =>
      apply Scoped_emit; [scoped_tac | scope_side]
  | |- Scoped _ _ _ _ (set_pending_faults _ _) =>
      apply Scoped_set_pending_faults; scoped_tac
  | |- Scoped _ _ _ _ (set_created_entities _ _) =>
      apply Scoped_set_created_entities; scoped_tac
  | |- Scoped _ _ _ _ (set_created_component_types _ _) =>
      apply Scoped_set_created_component_types; scoped_tac
  | |- Scoped _ _ _ _ (set_remote_component_types _ _) =>
      apply Scoped_set_remote_component_types; scoped_tac
  | |- Scoped _ _ _ _ (set_remote_workspaces _ _) =>
      apply Scoped_set_remote_workspaces; scoped_tac
  | |- Scoped _ _ _ _ (set_remote_buckets _ _) =>
      apply Scoped_set_remote_buckets; scoped_tac
  | |- Scoped _ _ _ _ (set_remote_entities _ _) =>
      apply Scoped_set_remote_entities; scoped_tac
  | |- Scoped _ _ _ _ _ => assumption
  end.

Lemma entity_exists_scoped ws input comp_id w0 id w :
  named input id →
  Scoped ws input comp_id w0 w →
  wp (entity_exists ws id)
     (fun o w' => Scoped ws input comp_id w0 w' ∧ ∃ b, o = Ret b) w.
Proof.
  intros Hn HS. unfold entity_exists, get_entity. wp_go.
  all: split; [scoped_tac|by eexists].
Qed.

Lemma create_properties_component_scoped ws input comp_id w0 cid w :
  (∀ c, cid = Some c → c ≠ "" → declared input comp_id c) →
  Scoped ws input comp_id w0 w →
  wp (create_properties_component ws cid)
     (fun o w' => Scoped ws input comp_id w0 w' ∧ o ≠ OutOfFuel) w.
Proof.
  intros Hd HS. unfold create_properties_component. do 2 wp_prim.
  destruct cid as [c|]; simpl; [|wp_prim; by split].
  destruct (bool_decide (is_Some _)); simpl; [wp_prim; by split|].
  destruct (String.eqb_spec c ""); simpl; [wp_prim; by split|].
  specialize (Hd c eq_refl n).
  unfold list_component_types, client_create_component_type,
    wait_over_component_type.
  wp_go.
  all: split; [scoped_tac|done].
Qed.

Lemma create_workspace_scoped ws input comp_id w0 role w :
  Scoped ws input comp_id w0 w →
  wp (create_workspace ws role)
     (fun o w' => Scoped ws input comp_id w0 w' ∧ o ≠ OutOfFuel) w.
Proof.
  intros HS.
  unfold create_workspace, list_workspaces, s3_create_bucket,
    s3_wait_bucket_exists, client_create_workspace, get_role_from_identity.
  wp_go.
  all: split; [scoped_tac|done].
Qed.

Lemma create_entity_api_scoped ws input comp_id w0 comps ntt check_active w :
  workspaceId ntt = ws →
  named input (entityId ntt) →
  payload_of input comp_id comps →
  Scoped ws input comp_id w0 w →
  wp (create_entity_api comps ntt ws check_active)
     (fun o w' => Scoped ws input comp_id w0 w' ∧ o ≠ OutOfFuel) w.
Proof.
  intros Hws Hn Hp HS.
  unfold create_entity_api, client_create_entity, wait_over_entity.
  destruct comps, check_active.
  all: wp_go.
  all: split; [scoped_tac|done].
Qed.

Lemma populate_assets_scoped ws input comp_id w0 entity cid w :
  (∀ c, cid = Some c → c ≠ "" → declared input comp_id c) →
  Scoped ws input comp_id w0 w →
  wp (populate_assets entity cid ws)
     (fun o w' => Scoped ws input comp_id w0 w' ∧ o ≠ OutOfFuel ∧
                  ∀ a, o = Ret a →
                       a = Some {| componentTypeId := cid;
                                   comp_properties := properties entity |}) w.
Proof.
  intros Hd HS. unfold populate_assets. apply wp_bind.
  eapply wp_mono; [by apply create_properties_component_scoped|].
  intros [[]|e|] w' (HS' & Hne); unfold bind_post; try done.
  wp_prim. split_and!; try done. by intros a [= <-].
Qed.

Lemma named_parent input entity pid :
  In entity input → parent_entity_id entity = Some pid → named input pid.
Proof. intros Hin Hp. exists entity. auto. Qed.

Lemma named_self input entity : In entity input → named input (entity_id entity).
Proof. intros Hin. exists entity. auto. Qed.

Lemma create_iottwinmaker_entity_scoped ws input comp_id w0 fuel :
  ∀ entity comps check_active w,
  In entity input →
  payload_of input comp_id comps →
  Scoped ws input comp_id w0 w →
  wp (create_iottwinmaker_entity fuel input entity ws comps check_active)
     (fun o w' => Scoped ws input comp_id w0 w') w.
Proof.
  induction fuel as [|fuel IH]; intros entity comps check_active w Hin Hp HS.
  { done. }
  rewrite create_iottwinmaker_entity_unfold.
  apply wp_bind. eapply wp_mono.
  { apply entity_exists_scoped; [by apply named_self|done]. }
  intros o w2 (HS2 & b & ->). unfold bind_post.
  destruct b; [by wp_prim|].
  apply wp_bind.
  eapply (wp_mono _ (fun o w' => Scoped ws input comp_id w0 w' ∧
            ∀ a, o = Ret a → payload_of input comp_id a)).
  { destruct (truthy (component_type entity)) eqn:Ht.
    - eapply wp_mono.
      { apply populate_assets_scoped; [|done].
        intros c Hc Hne. split; [done|]. right. by exists entity. }
      intros o w' (HS' & _ & Ha). split; [done|].
      intros a ->%Ha. exists entity, (component_type entity). auto.
    - wp_prim. split; [done|]. by intros a [= <-]. }
  intros [comps'|e|] w3 [HS3 Hp3]; unfold bind_post; try done.
  specialize (Hp3 _ eq_refl).
  apply wp_bind.
  eapply (wp_mono _ (fun o w' => Scoped ws input comp_id w0 w')).
  { destruct (parent_entity_id entity) as [pid|] eqn:Hpid; [|by wp_prim].
    apply wp_bind. eapply wp_mono.
    { apply entity_exists_scoped; [by eapply named_parent|done]. }
    intros o w4 (HS4 & b & ->). unfold bind_post.
    destruct b; [by wp_go|].
    apply wp_bind.
    eapply (wp_mono _ (fun o w' => Scoped ws input comp_id w0 w')).
    { destruct (get_parent_from_input input pid) as [parent|] eqn:Hg.
      - apply IH; [by eapply get_parent_from_input_In|done..].
      - eapply wp_mono.
        { apply create_entity_api_scoped; [done| |done..].
          by eapply named_parent. }
        by intros o w' [? _]. }
    intros [[]|e|] w5 HS5; unfold bind_post; done. }
  intros [p|e|] w4 HS4; unfold bind_post; try done.
  eapply wp_mono.
  { apply create_entity_api_scoped; [done|by apply named_self|done..]. }
  by intros o w' [? _].
Qed.

Lemma process_records_loop_scoped ws all comp_id w0 fuel rest :
  ∀ w,
  (∀ r, In r rest → In r all) →
  Scoped ws all comp_id w0 w →
  wp (process_records_loop fuel all rest ws comp_id)
     (fun o w' => Scoped ws all comp_id w0 w') w.
Proof.
  induction rest as [|entity rest IH]; intros w Hsub HS; simpl.
  { by wp_prim. }
  apply wp_bind. eapply wp_mono.
  { apply populate_assets_scoped; [|done].
    intros c -> Hne. split; [done|]. by left. }
  intros [a|e|] w2 (HS2 & _ & Ha); unfold bind_post; try done.
  rewrite (Ha _ eq_refl).
  apply wp_bind. eapply wp_mono.
  { apply create_iottwinmaker_entity_scoped; [apply Hsub; by left| |done].
    exists entity, comp_id. split_and!; auto. apply Hsub. by left. }
  intros [[]|e|] w3 HS3; unfold bind_post; try done.
  apply IH; [|done]. intros r Hr. apply Hsub. by right.
Qed.

Lemma create_iottwinmaker_entities_scoped fuel j_data ws comp_id role w0 :
  wp (create_iottwinmaker_entities fuel j_data ws comp_id role)
     (fun o w' => Scoped ws (entities j_data) comp_id w0 w') w0.
Proof.
  unfold create_iottwinmaker_entities, process_records.
  apply wp_bind. eapply wp_mono.
  { apply create_workspace_scoped. apply Scoped_refl. }
  intros [[]|e|] w2 (HS2 & _); unfold bind_post; try done.
  apply wp_bind. eapply wp_mono.
  { apply create_properties_component_scoped; [|done].
    intros c -> Hne. split; [done|]. by left. }
  intros [[]|e|] w3 (HS3 & _); unfold bind_post; try done.
  by apply process_records_loop_scoped.
Qed.

(** X9: whatever the input, the faults, the fuel and the outcome, a run asks
    the services only for its own workspace and the bucket of that
    workspace, for the component types that the run or a record names, and
    for entities whose id is the [entity_id] or the [parent_entity_id] of
    a record; every creation call carries a payload that [populate_assets]
    built for some record. *)
Theorem run_stays_in_scope fuel j_data ws comp_id role w0 :
  let r := create_iottwinmaker_entities fuel j_data ws comp_id role w0 in
  ∃ evs, trace r.2 = (evs ++ trace w0)%list ∧
         Forall (in_scope ws (entities j_data) comp_id) evs.
Proof. apply create_iottwinmaker_entities_scoped. Qed.

Lemma no_entity_event_in_empty_scope ws comp_id evs :
  Forall (in_scope ws [] comp_id) evs → entity_events evs = [].
Proof.
  induction 1 as [|ev evs Hev _ IH]; [done|].
  unfold entity_events in *. simpl. rewrite IH.
  destruct ev; simpl in *; try done.
  all: by repeat match goal with
          | H : _ ∧ _ |- _ => destruct H
          | H : named [] _ |- _ => destruct H as (? & [] & _)
          end.
Qed.

(** X10: a run over no record asks nothing about entities, whatever fails: it
    only provisions the workspace and the default component type. *)
Theorem empty_input_touches_no_entity fuel ws comp_id role w0 :
  let r := create_iottwinmaker_entities fuel {| entities := [] |} ws comp_id
             role w0 in
  entity_events (trace r.2) = entity_events (trace w0).
Proof.
  destruct (create_iottwinmaker_entities_scoped fuel {| entities := [] |}
              ws comp_id role w0) as (evs & E & H).
  cbv zeta. rewrite E. unfold entity_events. rewrite List.filter_app.
  fold (entity_events evs).
  by rewrite (no_entity_event_in_empty_scope _ _ _ H).
Qed.

(** ** Failures, and where the run stops *)

Lemma wp_api_call_faults ev (Q : outcome unit → World → Prop) w :
  (∀ fs, pending_faults w = None :: fs →
         Q (Ret tt) (set_pending_faults fs (emit ev w))) →
  (∀ e fs, pending_faults w = Some e :: fs →
           Q (Raise e) (set_pending_faults fs (emit ev w))) →
  (pending_faults w = [] → Q (Ret tt) (emit ev w)) →
  wp (api_call ev) Q w.
Proof.
  intros H1 H2 H3. unfold wp, api_call.
  destruct (pending_faults w) as [|[e|] fs]; simpl; auto.
Qed.

Lemma failed_snoc cs ev : ∀ fs,
  failed (cs ++ [ev]) fs =
  (failed cs fs ++
   match drop (length cs) fs with Some _ :: _ => [ev] | _ => [] end)%list.
Proof.
  induction cs as [|c cs IH]; intros [|[e|] fs]; simpl; try done.
  by rewrite IH.
Qed.

Lemma drop_next {A} (l : list A) (n : nat) x l' :
  drop n l = x :: l' → drop (S n) l = l'.
Proof.
  intros H. replace (S n) with (n + 1)%nat by lia.
  by rewrite <- drop_drop, H.
Qed.

Lemma drop_done {A} (l : list A) (n : nat) :
  drop n l = [] → drop (S n) l = [].
Proof.
  intros H. replace (S n) with (n + 1)%nat by lia.
  by rewrite <- drop_drop, H.
Qed.

Lemma calls_cons_call ev evs :
  is_call ev = true → calls (ev :: evs) = (calls evs ++ [ev])%list.
Proof. intros H. unfold calls. simpl. by rewrite H. Qed.

Lemma calls_cons_ghost ev evs :
  is_call ev = false → calls (ev :: evs) = calls evs.
Proof. intros H. unfold calls. simpl. by rewrite H. Qed.

Lemma Swallowed_refl w : Swallowed w w.
Proof. exists []. by split_and!. Qed.

Lemma Swallowed_call w0 w ev fs :
  Swallowed w0 w → is_call ev = true → pending_faults w = None :: fs →
  Swallowed w0 (set_pending_faults fs (emit ev w)).
Proof.
  intros (evs & E & Hp & Hf) Hev Hw. rewrite Hp in Hw.
  exists (ev :: evs). simpl. rewrite E, calls_cons_call by done.
  rewrite length_app, Nat.add_1_r, failed_snoc, Hw, app_nil_r.
  split_and!; try done. symmetry. by eapply drop_next.
Qed.

Lemma Swallowed_call_no_fault w0 w ev :
  Swallowed w0 w → is_call ev = true → pending_faults w = [] →
  Swallowed w0 (emit ev w).
Proof.
  intros (evs & E & Hp & Hf) Hev Hw. rewrite Hp in Hw.
  exists (ev :: evs). simpl. rewrite E, calls_cons_call by done.
  rewrite length_app, Nat.add_1_r, failed_snoc, Hw, app_nil_r.
  split_and!; try done. rewrite Hp, Hw. symmetry. by apply drop_done.
Qed.

Lemma Swallowed_get_failed w0 w ws id e fs :
  Swallowed w0 w → pending_faults w = Some e :: fs →
  Swallowed w0 (set_pending_faults fs (emit (EvGetEntity ws id) w)).
Proof.
  intros (evs & E & Hp & Hf) Hw. rewrite Hp in Hw.
  exists (EvGetEntity ws id :: evs). simpl. rewrite E, calls_cons_call by done.
  rewrite length_app, Nat.add_1_r, failed_snoc, Hw.
  split_and!; try done.
  - symmetry. by eapply drop_next.
  - apply Forall_app. split; [done|]. by repeat constructor.
Qed.

Lemma Swallowed_ghost w0 w ev :
  Swallowed w0 w → is_call ev = false → Swallowed w0 (emit ev w).
Proof.
  intros (evs & E & Hp & Hf) Hev.
  exists (ev :: evs). simpl. rewrite E, calls_cons_ghost by done. done.
Qed.

Lemma Swallowed_set_created_entities w0 f w :
  Swallowed w0 w → Swallowed w0 (set_created_entities f w).
Proof. done. Qed.

Lemma Swallowed_set_created_component_types w0 f w :
  Swallowed w0 w → Swallowed w0 (set_created_component_types f w).
Proof. done. Qed.

Lemma Swallowed_set_remote_component_types w0 f w :
  Swallowed w0 w → Swallowed w0 (set_remote_component_types f w).
Proof. done. Qed.

Lemma Swallowed_set_remote_workspaces w0 f w :
  Swallowed w0 w → Swallowed w0 (set_remote_workspaces f w).
Proof. done. Qed.

Lemma Swallowed_set_remote_buckets w0 f w :
  Swallowed w0 w → Swallowed w0 (set_remote_buckets f w).
Proof. done. Qed.

Lemma Swallowed_set_remote_entities w0 f w :
  Swallowed w0 w → Swallowed w0 (set_remote_entities f w).
Proof. done. Qed.

(** Rebuilds [Swallowed] for a world built by nested updates, one update
    at a time. *)
Ltac sw_tac :=
  lazymatch goal with
  | |- Swallowed _ (set_pending_faults _ (emit _ _)) =>
      first [ eapply Swallowed_call; [sw_tac | reflexivity | eassumption]
            | eapply Swallowed_get_failed; [sw_tac | eassumption] ]
  | |- Swallowed _ (emit _ _) =>
      first [ apply Swallowed_ghost; [sw_tac | reflexivity]
            | apply Swallowed_call_no_fault; [sw_tac | reflexivity | assumption] ]
  | |- Swallowed _ (set_created_entities _ _) =>
      apply Swallowed_set_created_entities; sw_tac
  | |- Swallowed _ (set_created_component_types _ _) =>
      apply Swallowed_set_created_component_types; sw_tac
  | |- Swallowed _ (set_remote_component_types _ _) =>
      apply Swallowed_set_remote_component_types; sw_tac
  | |- Swallowed _ (set_remote_workspaces _ _) =>
      apply Swallowed_set_remote_workspaces; sw_tac
  | |- Swallowed _ (set_remote_buckets _ _) =>
      apply Swallowed_set_remote_buckets; sw_tac
  | |- Swallowed _ (set_remote_entities _ _) =>
      apply Swallowed_set_remote_entities; sw_tac
  | |- Swallowed _ _ => assumption
  end.

Ltac wsimpl_in H :=
  cbn [pending_faults emit set_created_component_types set_created_entities
       set_remote_workspaces set_remote_buckets set_remote_component_types
       set_remote_entities set_pending_faults] in H.

(** One step of a computation, keeping what each call found pending. *)
Ltac wp_prim_pf :=
  lazymatch goal with
  | |- wp (api_call _) _ _ =>
      let H := fresh "Hpf" in
      (apply wp_api_call_faults; [intros ? H | intros ? ? H | intros H];
       wsimpl_in H)
  | |- _ => wp_prim
  end;
  unfold bind_post; wsimpl.

Ltac wp_go_pf := repeat first [wp_prim_pf | wp_case].

(** Closes the leaves of a computation: the pending faults contradict
    each other, or the outcome is as [sw_post] asks. *)
Ltac sw_leaf :=
  first [ congruence
        | exact I
        | (unfold sw_post; sw_tac)
        | (unfold sw_post, stopped_at_call; wsimpl; split; reflexivity) ].

Lemma wp_sw_bind {A B} (m : M A) (k : A → M B) w0 w :
  wp m (sw_post w0) w →
  (∀ a w', Swallowed w0 w' → wp (k a) (sw_post w0) w') →
  wp (bind m k) (sw_post w0) w.
Proof.
  intros Hm Hk. apply wp_bind. eapply wp_mono; [exact Hm|].
  intros [a|e|] w' H; unfold bind_post; simpl in *; auto.
Qed.

Lemma entity_exists_sw w0 ws id w :
  Swallowed w0 w →
  wp (entity_exists ws id)
     (fun o w' => Swallowed w0 w' ∧ ∃ b, o = Ret b) w.
Proof.
  intros HS. unfold entity_exists, get_entity. wp_go_pf.
  all: split; [first [congruence | sw_tac]|by eexists].
Qed.

Lemma create_properties_component_sw w0 ws cid w :
  Swallowed w0 w →
  wp (create_properties_component ws cid) (sw_post w0) w.
Proof.
  intros HS.
  unfold create_properties_component, list_component_types,
    client_create_component_type, wait_over_component_type.
  wp_go_pf.
  all: sw_leaf.
Qed.

Lemma create_workspace_sw w0 ws role w :
  Swallowed w0 w →
  wp (create_workspace ws role) (sw_post w0) w.
Proof.
  intros HS.
  unfold create_workspace, list_workspaces, s3_create_bucket,
    s3_wait_bucket_exists, client_create_workspace, get_role_from_identity.
  wp_go_pf.
  all: sw_leaf.
Qed.

Lemma create_entity_api_sw w0 comps ntt ws check_active w :
  Swallowed w0 w →
  wp (create_entity_api comps ntt ws check_active) (sw_post w0) w.
Proof.
  intros HS.
  unfold create_entity_api, client_create_entity, wait_over_entity.
  destruct comps, check_active.
  all: wp_go_pf.
  all: sw_leaf.
Qed.

Lemma populate_assets_sw w0 entity cid ws w :
  Swallowed w0 w →
  wp (populate_assets entity cid ws) (sw_post w0) w.
Proof.
  intros HS. unfold populate_assets. apply wp_sw_bind.
  - by apply create_properties_component_sw.
  - intros [] w' HS'. by wp_prim.
Qed.

Lemma create_iottwinmaker_entity_sw w0 input ws fuel :
  ∀ entity comps check_active w,
  Swallowed w0 w →
  wp (create_iottwinmaker_entity fuel input entity ws comps check_active)
     (sw_post w0) w.
Proof.
  induction fuel as [|fuel IH]; intros entity comps check_active w HS.
  { done. }
  rewrite create_iottwinmaker_entity_unfold.
  apply wp_bind. eapply wp_mono; [by apply entity_exists_sw|].
  intros o w2 (HS2 & b & ->). unfold bind_post.
  destruct b; [by wp_prim|].
  apply wp_sw_bind.
  { destruct (truthy (component_type entity)).
    - by apply populate_assets_sw.
    - by wp_prim. }
  intros comps' w3 HS3.
  apply wp_sw_bind.
  { destruct (parent_entity_id entity) as [pid|]; [|by wp_prim].
    apply wp_bind. eapply wp_mono; [by apply entity_exists_sw|].
    intros o w4 (HS4 & b & ->). unfold bind_post.
    destruct b; [by wp_go|].
    apply wp_sw_bind.
    { destruct (get_parent_from_input input pid) as [parent|].
      - by apply IH.
      - by apply create_entity_api_sw. }
    intros [] w5 HS5. by wp_prim. }
  intros p w4 HS4. by apply create_entity_api_sw.
Qed.

Lemma process_records_loop_sw w0 fuel all ws comp_id rest :
  ∀ w,
  Swallowed w0 w →
  wp (process_records_loop fuel all rest ws comp_id) (sw_post w0) w.
Proof.
  induction rest as [|entity rest IH]; intros w HS; simpl.
  { by wp_prim. }
  apply wp_sw_bind; [by apply populate_assets_sw|].
  intros comps w2 HS2.
  apply wp_sw_bind; [by apply create_iottwinmaker_entity_sw|].
  intros [] w3 HS3. by apply IH.
Qed.

Lemma create_iottwinmaker_entities_sw fuel j_data ws comp_id role w0 :
  wp (create_iottwinmaker_entities fuel j_data ws comp_id role)
     (sw_post w0) w0.
Proof.
  unfold create_iottwinmaker_entities, process_records.
  apply wp_sw_bind; [apply create_workspace_sw, Swallowed_refl|].
  intros [] w2 HS2.
  apply wp_sw_bind; [by apply create_properties_component_sw|].
  intros [] w3 HS3. by apply process_records_loop_sw.
Qed.

(** X11: when the import returns, every call that met a failure of the
    service was an existence check: a failure of any other call does not
    let the import return. *)
Theorem only_existence_checks_may_fail fuel j_data ws comp_id role w0 :
  let r := create_iottwinmaker_entities fuel j_data ws comp_id role w0 in
  r.1 = Ret tt →
  ∃ evs, trace r.2 = (evs ++ trace w0)%list ∧
         Forall (fun ev => is_get_entity ev = true)
                (failed (calls evs) (pending_faults w0)).
Proof.
  intros r Hr.
  pose proof (create_iottwinmaker_entities_sw fuel j_data ws comp_id role w0)
    as H.
  unfold wp in H. fold r in H. rewrite Hr in H.
  destruct H as (evs & E & _ & Hf). by exists evs.
Qed.

Lemma only_existence_checks_may_fail_witness :
  let r := create_iottwinmaker_entities 4 {| entities := chain_input |}
             "ws" (Some "ct") None flaky_world in
  ∃ evs, trace r.2 = (evs ++ trace flaky_world)%list ∧
         Forall (fun ev => is_get_entity ev = true)
                (failed (calls evs) (pending_faults flaky_world)).
Proof.
  apply (only_existence_checks_may_fail 4 {| entities := chain_input |}
           "ws" (Some "ct") None flaky_world).
  vm_compute. reflexivity.
Defined.



(** ** The depth of the recursion *)

(** While nothing exists and no call fails, a record with more than [n]
    ancestors in the input is not resolved with [n + 1] nested calls or
    fewer: every level only checks for existence, then the fuel is gone. *)
Lemma deep_resolution_runs_out input ws fuel :
  ∀ (n : nat) entity comps check_active w,
  pending_faults w = [] →
  (∀ id, created_entities w !! id = None) →
  (∀ id, remote_entities w !! (ws, id) = None) →
  chain_ends input n (parent_entity_id entity) = false →
  (fuel ≤ S n)%nat →
  let r := create_iottwinmaker_entity fuel input entity ws comps
             check_active w in
  r.1 = OutOfFuel ∧
  pending_faults r.2 = [] ∧
  created_entities r.2 = created_entities w ∧
  remote_entities r.2 = remote_entities w ∧
  ∃ gets, entity_events (trace r.2) = (gets ++ entity_events (trace w))%list ∧
          Forall (fun ev => is_get_entity ev = true) gets.
Proof.
  induction fuel as [|fuel IH];
    intros n entity comps check_active w Hf Hc Hr Hch Hle.
  { simpl. split_and!; try done. by exists []. }
  cbv zeta. rewrite create_iottwinmaker_entity_unfold.
  step entity_exists_absent.
  destruct (own_comps_fault_free entity ws comps
              (emit (EvGetEntity ws (entity_id entity)) w) Hf)
    as (w1 & E1 & Hf1 & Hc1 & Hr1 & Ht1).
  simpl in Hf1, Hc1, Hr1, Ht1.
  norm. erewrite bind_ret_eq by exact E1. cbn beta iota.
  destruct (parent_entity_id entity) as [pid|]; [|by destruct n].
  assert (∃ parent, get_parent_from_input input pid = Some parent ∧
            ∀ n', n = S n' →
                  chain_ends input n' (parent_entity_id parent) = false)
    as (parent & Hin & Hnext).
  { destruct n as [|n']; simpl in Hch;
      destruct (get_parent_from_input input pid) as [parent|]; try done;
      exists parent; split; try done; intros ? [= <-]; done. }
  step entity_exists_absent; [|congruence..].
  rewrite Hin.
  assert (let r := create_iottwinmaker_entity fuel input parent ws
                     (own_comps entity comps) true
                     (emit (EvGetEntity ws pid) w1) in
          r.1 = OutOfFuel ∧ pending_faults r.2 = [] ∧
          created_entities r.2
            = created_entities (emit (EvGetEntity ws pid) w1) ∧
          remote_entities r.2
            = remote_entities (emit (EvGetEntity ws pid) w1) ∧
          ∃ gets, entity_events (trace r.2)
                  = (gets ++ entity_events
                               (trace (emit (EvGetEntity ws pid) w1)))%list ∧
                  Forall (fun ev => is_get_entity ev = true) gets) as Hrec.
  { destruct fuel as [|fuel'].
    { simpl. split_and!; try done; try congruence. by exists []. }
    destruct n as [|n']; [lia|].
    apply (IH n').
    - simpl. congruence.
    - intros id. simpl. by rewrite Hc1.
    - intros id. simpl. by rewrite Hr1.
    - by apply Hnext.
    - lia. }
  cbv zeta in Hrec.
  destruct (create_iottwinmaker_entity fuel input parent ws
              (own_comps entity comps) true (emit (EvGetEntity ws pid) w1))
    as [o w2] eqn:E2.
  simpl in Hrec. destruct Hrec as (-> & Hf2 & Hc2 & Hr2 & gets & Ht2 & Hgets).
  norm. erewrite bind_out_of_fuel_eq by exact E2. simpl.
  split_and!; try congruence.
  exists (gets ++ [EvGetEntity ws pid; EvGetEntity ws (entity_id entity)])%list.
  split.
  - rewrite Ht2, Ht1. by rewrite <- app_assoc.
  - apply Forall_app. split; [done|]. by repeat constructor.
Qed.

Lemma deep_id_inj (a b : nat) : deep_id a = deep_id b → a = b.
Proof.
  revert b. induction a as [|a IH]; intros [|b]; simpl; try done.
  intros [= H]. f_equal. by apply IH.
Qed.

Lemma deep_chain_from_In r (i k : nat) :
  In r (deep_chain_from i k) →
  ∃ j : nat, (i ≤ j ≤ i + k)%nat ∧ entity_id r = deep_id j.
Proof.
  revert i. induction k as [|k IH]; intros i; simpl.
  - intros [<-|[]]. exists i. split; [lia|done].
  - intros [<-|H]; [exists i; split; [lia|done]|].
    destruct (IH _ H) as (j & Hj & E). exists j. split; [lia|done].
Qed.

Lemma deep_chain_from_lookup (k : nat) : ∀ i j : nat,
  (i ≤ j ≤ i + k)%nat →
  get_parent_from_input (deep_chain_from i k) (deep_id j) =
  Some (chain_record (deep_id j)
          (if decide (j = i + k)%nat then None else Some (deep_id (S j)))).
Proof.
  induction k as [|k IH]; intros i j Hj; simpl.
  - assert (j = i) as -> by lia. rewrite String.eqb_refl.
    by rewrite decide_True by lia.
  - destruct (String.eqb_spec (deep_id j) (deep_id i)) as [E|Hne].
    + apply deep_id_inj in E as ->. by rewrite decide_False by lia.
    + assert (j ≠ i) by congruence.
      rewrite IH by lia. repeat f_equal.
      destruct (decide (j = S i + k)%nat), (decide (j = i + S k)%nat);
        try done; lia.
Qed.

Lemma deep_chain_not_ended (n m : nat) : ∀ j : nat,
  (j + m ≤ n)%nat →
  chain_ends (deep_chain n) m (Some (deep_id j)) = false.
Proof.
  induction m as [|m IH]; intros j Hj; cbn [chain_ends]; unfold deep_chain;
    rewrite deep_chain_from_lookup by lia; [done|].
  cbn [parent_entity_id chain_record]. rewrite decide_False by lia.
  apply IH. lia.
Qed.

Lemma deep_chain_ends (n m : nat) : ∀ j : nat,
  (j ≤ n < j + m)%nat →
  chain_ends (deep_chain n) m (Some (deep_id j)) = true.
Proof.
  induction m as [|m IH]; intros j Hj; [lia|].
  cbn [chain_ends]. unfold deep_chain.
  rewrite deep_chain_from_lookup by lia.
  cbn [parent_entity_id chain_record].
  destruct (decide (j = 0 + n)%nat); [by destruct m|]. apply IH. lia.
Qed.

Lemma deep_chain_no_cycle (n : nat) : ¬ has_cycle (deep_chain n).
Proof.
  intros (e & k & Hc).
  pose proof (cycle_chain_never_ends _ _ _ Hc (S n)) as Hne.
  assert (is_Some (get_parent_from_input (deep_chain n) e)) as [r Hr].
  { simpl in Hc. unfold parent_of in Hc.
    destruct (get_parent_from_input (deep_chain n) e); [by eexists|done]. }
  pose proof (get_parent_from_input_id _ _ _ Hr) as Hid.
  apply get_parent_from_input_In, deep_chain_from_In in Hr as (j & Hj & E).
  rewrite <- Hid, E, deep_chain_ends in Hne by lia. done.
Qed.

Lemma deep_chain_ids (i k : nat) :
  NoDup (entity_id <$> deep_chain_from i k).
Proof.
  revert i. induction k as [|k IH]; intros i; simpl.
  - apply NoDup_singleton.
  - apply NoDup_cons. split; [|apply IH].
    intros Hin. apply list_elem_of_fmap in Hin as (r & E & Hr).
    apply list_elem_of_In, deep_chain_from_In in Hr as (j & Hj & E').
    simpl in E. rewrite E' in E. apply deep_id_inj in E. lia.
Qed.

(** C5, as stated, fails: an input without cycle, a chain of records
    child first with as many ancestors as the interpreter allows nested
    calls, is not resolved: with nothing existing and no failing call, and
    with whatever fuel the recursion limit leaves, the resolution of its
    first record only checks for existence, level after level, and runs
    out of fuel before it has created anything, as it does on a cycle. *)
Lemma deep_chain_exhausts_recursion_limit :
  let input := deep_chain python_recursion_limit in
  let first := chain_record (deep_id 0) (Some (deep_id 1)) in
  ¬ has_cycle input ∧
  NoDup (entity_id <$> input) ∧
  get_parent_from_input input (deep_id 0) = Some first ∧
  ∀ fuel : nat, (fuel ≤ python_recursion_limit)%nat →
    let r := create_iottwinmaker_entity fuel input first "ws" None false
               empty_world in
    r.1 = OutOfFuel ∧
    remote_entities r.2 = ∅ ∧
    Forall (fun ev => is_get_entity ev = true) (entity_events (trace r.2)).
Proof.
  cbv zeta. split_and!.
  - apply deep_chain_no_cycle.
  - apply deep_chain_ids.
  - apply (deep_chain_from_lookup python_recursion_limit 0 0).
    unfold python_recursion_limit. lia.
  - intros fuel Hfuel.
    destruct (deep_resolution_runs_out (deep_chain python_recursion_limit)
                "ws" fuel (pred python_recursion_limit)
                (chain_record (deep_id 0) (Some (deep_id 1))) None false
                empty_world) as (H1 & _ & _ & H2 & gets & H3 & H4).
    + reflexivity.
    + intros id. apply lookup_empty.
    + intros id. apply lookup_empty.
    + apply (deep_chain_not_ended python_recursion_limit
               (pred python_recursion_limit) 1).
      unfold python_recursion_limit. lia.
    + unfold python_recursion_limit in *. lia.
    + split_and!; [exact H1|exact H2|].
      rewrite H3. simpl. by rewrite app_nil_r.
Qed.

(** C5, amended: when no id is its own ancestor, the parent chain of a
    record leaves the input after at most as many records as the input
    has, and the resolution makes one nested call for each record of that
    chain and no other: with more fuel than the chain has records it does
    not run out, whatever exists and whatever fails (the activation waits
    are calls that return); with nothing existing, no failing call and no
    more fuel than the chain has records, it runs out before it creates
    anything. *)
Theorem acyclic_resolution_terminates input entity ws comps check_active w
    (fuel : nat) :
  ¬ has_cycle input →
  chain_ends input (length input) (parent_entity_id entity) = true ∧
  (∀ n : nat,
     chain_ends input n (parent_entity_id entity) = true → (n < fuel)%nat →
     (create_iottwinmaker_entity fuel input entity ws comps check_active w).1
       ≠ OutOfFuel) ∧
  (∀ n : nat,
     chain_ends input n (parent_entity_id entity) = false →
     (fuel ≤ S n)%nat →
     pending_faults w = [] →
     (∀ id, created_entities w !! id = None) →
     (∀ id, remote_entities w !! (ws, id) = None) →
     let r := create_iottwinmaker_entity fuel input entity ws comps
                check_active w in
     r.1 = OutOfFuel ∧ remote_entities r.2 = remote_entities w).
Proof.
  intros Hnc.
  pose proof (no_cycle_chain_ends input (parent_entity_id entity) Hnc) as Hce.
  split; [done|]. split.
  - intros n Hn Hfuel. destruct fuel as [|fuel]; [lia|].
    apply resolution_follows_parent_chain.
    eapply chain_ends_mono; [|exact Hn]. lia.
  - intros n Hn Hfuel Hf Hc Hr.
    destruct (deep_resolution_runs_out input ws fuel n entity comps
                check_active w Hf Hc Hr Hn Hfuel) as (H1 & _ & _ & H2 & _).
    by split.
Qed.

Lemma acyclic_resolution_terminates_witness :
  chain_ends chain_input (length chain_input)
    (parent_entity_id (chain_record "c" (Some "b"))) = true ∧
  (∀ n : nat,
     chain_ends chain_input n (parent_entity_id (chain_record "c" (Some "b")))
       = true →
     (n < 4)%nat →
     (create_iottwinmaker_entity 4 chain_input
        (chain_record "c" (Some "b")) "ws" None false empty_world).1
       ≠ OutOfFuel) ∧
  (∀ n : nat,
     chain_ends chain_input n (parent_entity_id (chain_record "c" (Some "b")))
       = false →
     (4 ≤ S n)%nat →
     pending_faults empty_world = [] →
     (∀ id, created_entities empty_world !! id = None) →
     (∀ id, remote_entities empty_world !! ("ws", id) = None) →
     let r := create_iottwinmaker_entity 4 chain_input
                (chain_record "c" (Some "b")) "ws" None false empty_world in
     r.1 = OutOfFuel ∧ remote_entities r.2 = remote_entities empty_world).
Proof.
  apply (acyclic_resolution_terminates chain_input
           (chain_record "c" (Some "b")) "ws" None false empty_world 4).
  apply acyclic_sound. reflexivity.
Defined.
